(** * Aggregation engine of archiefassistent: a shallow embedding

    This development models [src/archiefassistent/aggregation.py], the
    schema-driven merge of per-chunk partial records into one record,
    and states the properties of its specification over that model.
    It also models [src/archiefassistent/chunking.py], which cuts the
    text of a document into the chunks that the records come from.

    - Python values are the trees of [value]; a Python [dict] with
      string keys is an insertion-ordered association list with at most
      one binding per key ([dict_wf]).  The functions of the module
      never mutate an argument, so values are shared freely.
    - An exception that leaves a function is a [Raise] in the [result]
      type; a [try]/[except] is a match on an option.
    - One character of a Python string is one [ascii] (code points
      below 256), with Python's whitespace and lower-casing on them.
    - Floats are IEEE 754 binary64 values ([spec_float]).  Parsing and
      printing floats in decimal, the [repr] of a string and
      [json.loads] are functions of the interpreter and its library:
      the development is parametric in them ([Runtime]).  The one
      property that needs a fact about them states it: that [repr]
      tells two floats apart ([repr_law]).
    - The limits of the interpreter (recursion depth, the digit limit of
      the conversions between [int] and [str], memory) are not
      modelled. *)

From Stdlib Require Import List String Ascii ZArith Bool Lia Arith.
From Stdlib Require Import DecimalString DecimalPos DecimalZ SpecFloat.
Import ListNotations.

Set Implicit Arguments.
Set Warnings "-register-all".
Open Scope string_scope.

(* ================================================================= *)
(** ** Python values *)

Unset Elimination Schemes.
Inductive value : Type :=
| VNone
| VBool (b : bool)
| VInt (n : Z)
| VFloat (f : spec_float)
| VStr (s : string)
| VList (l : list value)
| VDict (d : list (string * value)).
Set Elimination Schemes.

(** A Python [dict] with string keys: bindings in insertion order. *)
Definition dict : Type := list (string * value).

(** Structural induction that reaches the elements of lists and the
    values of dicts. *)
Section ValueInd.
Variable P : value -> Prop.
Hypothesis HNone : P VNone.
Hypothesis HBool : forall b, P (VBool b).
Hypothesis HInt : forall n, P (VInt n).
Hypothesis HFloat : forall f, P (VFloat f).
Hypothesis HStr : forall s, P (VStr s).
Hypothesis HList : forall l, Forall P l -> P (VList l).
Hypothesis HDict : forall d, Forall (fun kv => P (snd kv)) d -> P (VDict d).

Fixpoint value_ind (v : value) : P v :=
  match v with
  | VNone => HNone
  | VBool b => HBool b
  | VInt n => HInt n
  | VFloat f => HFloat f
  | VStr s => HStr s
  | VList l =>
      HList ((fix go (l : list value) : Forall P l :=
                match l with
                | [] => Forall_nil _
                | x :: l' => Forall_cons x (value_ind x) (go l')
                end) l)
  | VDict d =>
      HDict ((fix go (d : dict) : Forall (fun kv => P (snd kv)) d :=
                match d with
                | [] => Forall_nil _
                | kv :: d' => Forall_cons kv (value_ind (snd kv)) (go d')
                end) d)
  end.
End ValueInd.

(** [isinstance] tests.  [bool] is a subclass of [int] in Python. *)
Definition is_str (v : value) : bool := match v with VStr _ => true | _ => false end.
Definition is_list (v : value) : bool := match v with VList _ => true | _ => false end.
Definition is_dict (v : value) : bool := match v with VDict _ => true | _ => false end.
Definition is_none (v : value) : bool := match v with VNone => true | _ => false end.

(** [v == s] for a string literal [s]. *)
Definition eq_str (v : value) (s : string) : bool :=
  match v with VStr s' => String.eqb s' s | _ => false end.

(** [v in (None, "", [], {})]. *)
Definition in_empties (v : value) : bool :=
  match v with
  | VNone => true
  | VStr s => String.eqb s ""
  | VList [] => true
  | VDict [] => true
  | _ => false
  end.

(** Truth value of a Python object ([bool(v)]). *)
Definition truthy (v : value) : bool :=
  match v with
  | VNone => false
  | VBool b => b
  | VInt n => negb (Z.eqb n 0)
  | VFloat (S754_zero _) => false
  | VFloat _ => true
  | VStr s => negb (String.eqb s "")
  | VList l => match l with [] => false | _ => true end
  | VDict d => match d with [] => false | _ => true end
  end.

(* ================================================================= *)
(** ** Dict operations *)

Module Dict.
Section Ops.
Variable V : Type.

(** [d.get(k)] / [d[k]], as an option. *)
Fixpoint get (k : string) (d : list (string * V)) : option V :=
  match d with
  | [] => None
  | (k', v) :: d' => if String.eqb k k' then Some v else get k d'
  end.

(** [k in d]. *)
Definition mem (k : string) (d : list (string * V)) : bool :=
  match get k d with Some _ => true | None => false end.

(** [d[k] = v]: an existing key keeps its position, a new key goes last. *)
Fixpoint set (k : string) (v : V) (d : list (string * V)) : list (string * V) :=
  match d with
  | [] => [(k, v)]
  | (k', v') :: d' =>
      if String.eqb k k' then (k', v) :: d' else (k', v') :: set k v d'
  end.

Definition keys (d : list (string * V)) : list string := map fst d.
End Ops.
End Dict.

(** [d.get(k)] with Python's default [None]. *)
Definition get_or_none (k : string) (d : dict) : value :=
  match Dict.get k d with Some v => v | None => VNone end.

(** The representation invariant of a dict: no key is bound twice, at
    any depth. *)
Inductive value_wf : value -> Prop :=
| wf_none : value_wf VNone
| wf_bool b : value_wf (VBool b)
| wf_int n : value_wf (VInt n)
| wf_float f : value_wf (VFloat f)
| wf_str s : value_wf (VStr s)
| wf_list l : Forall value_wf l -> value_wf (VList l)
| wf_dict d :
    NoDup (Dict.keys d) -> Forall (fun kv => value_wf (snd kv)) d ->
    value_wf (VDict d).

Definition dict_wf (d : dict) : Prop := value_wf (VDict d).

(* ================================================================= *)
(** ** Exceptions *)

Inductive exn : Type := AttributeError | TypeError | OverflowError.

Inductive result (A : Type) : Type :=
| Ok (a : A)
| Raise (e : exn).
Arguments Ok {A} a.
Arguments Raise {A} e.

Definition bind {A B : Type} (m : result A) (f : A -> result B) : result B :=
  match m with
  | Ok a => f a
  | Raise e => Raise e
  end.

Notation "x <- m ;; k" := (bind m (fun x => k))
  (at level 61, m at next level, right associativity).

(** A list comprehension whose filter condition may raise. *)
Fixpoint filterM {A : Type} (p : A -> result bool) (l : list A) : result (list A) :=
  match l with
  | [] => Ok []
  | x :: l' =>
      b <- p x ;;
      r <- filterM p l' ;;
      Ok (if b then x :: r else r)
  end.

(** A [for] loop over [l] threading the state [s]; stops at the first raise. *)
Fixpoint foldM {A S : Type} (f : S -> A -> result S) (l : list A) (s : S) : result S :=
  match l with
  | [] => Ok s
  | x :: l' => s' <- f s x ;; foldM f l' s'
  end.

(* ================================================================= *)
(** ** Strings *)

Module Str.
Definition code (c : ascii) : N := N_of_ascii c.

(** [str.isspace] on one character. *)
Definition is_space (c : ascii) : bool :=
  let n := code c in
  ((9 <=? n) && (n <=? 13) || (28 <=? n) && (n <=? 32)
   || (n =? 133) || (n =? 160))%N.

(** [str.lower] on one character. *)
Definition lower_char (c : ascii) : ascii :=
  let n := code c in
  if ((65 <=? n) && (n <=? 90)
      || (192 <=? n) && (n <=? 222) && negb (n =? 215))%N
  then ascii_of_N (n + 32) else c.

Fixpoint lower (s : string) : string :=
  match s with
  | EmptyString => EmptyString
  | String c r => String (lower_char c) (lower r)
  end.

Fixpoint lstrip (s : string) : string :=
  match s with
  | EmptyString => EmptyString
  | String c r => if is_space c then lstrip r else s
  end.

Fixpoint rstrip (s : string) : string :=
  match s with
  | EmptyString => EmptyString
  | String c r =>
      match rstrip r with
      | EmptyString => if is_space c then EmptyString else String c EmptyString
      | r' => String c r'
      end
  end.

(** [s.strip()]. *)
Definition strip (s : string) : string := rstrip (lstrip s).

(** [s[:n]]. *)
Fixpoint take (n : nat) (s : string) : string :=
  match n, s with
  | O, _ => EmptyString
  | _, EmptyString => EmptyString
  | S n', String c r => String c (take n' r)
  end.

(** [s.startswith(p)]. *)
Definition startswith (p s : string) : bool := String.prefix p s.

(** [sep.join(l)]. *)
Definition join (sep : string) (l : list string) : string := String.concat sep l.

(** [k in seen] for a set of strings. *)
Definition mem (k : string) (seen : list string) : bool :=
  existsb (String.eqb k) seen.

Definition nl : string := String (ascii_of_N 10) EmptyString.

(** [str(n)] for an [int]. *)
Definition of_Z (n : Z) : string := NilZero.string_of_int (Z.to_int n).
End Str.

(* ================================================================= *)
(** ** Numbers *)

(** Python's [float] is an IEEE 754 binary64. *)
Module Float.
Definition t : Type := spec_float.
Definition prec : Z := 53.
Definition emax : Z := 1024.

(** [float(n)] for an [int]: rounds to nearest even, [None] stands for
    the [OverflowError] of an [int] too large for a float. *)
Definition of_Z (n : Z) : option t :=
  match binary_normalize prec emax n 0 false with
  | S754_infinity _ => None
  | f => Some f
  end.

(** [int(f)]: truncation towards zero; [None] stands for the
    [OverflowError] (infinities) and [ValueError] (nan). *)
Definition to_Z (f : t) : option Z :=
  match f with
  | S754_zero _ => Some 0%Z
  | S754_finite s m e =>
      let a := match e with
               | Zneg p => Z.shiftr (Zpos m) (Zpos p)
               | _ => Z.shiftl (Zpos m) e
               end in
      Some (if s then Z.opp a else a)
  | _ => None
  end.

Definition ltb (x y : t) : bool := SFltb x y.

(** [max(nums)] and [min(nums)] on a non-empty list: the first element
    is replaced whenever a later one compares strictly beyond it. *)
Definition max_list (x : t) (l : list t) : t :=
  fold_left (fun m y => if ltb m y then y else m) l x.
Definition min_list (x : t) (l : list t) : t :=
  fold_left (fun m y => if ltb y m then y else m) l x.
End Float.

(* ================================================================= *)
(** ** Library functions of the Python runtime *)

(** The conversions between floats and decimal text, the [repr] of a
    string and the JSON parser belong to the interpreter and its
    standard library; the development is parametric in them. *)
Class Runtime : Type := {
  (** [float(s)] for a string; [None] stands for [ValueError]. *)
  float_of_string : string -> option Float.t;
  (** [repr(f)] for a float. *)
  float_repr : Float.t -> string;
  (** [repr(s)] for a string. *)
  str_repr : string -> string;
  (** [json.loads(s)]; [None] stands for any exception it raises. *)
  json_loads : string -> option value
}.

Module Json.
Definition quote : string := String (ascii_of_N 34) EmptyString.

Definition hex_digit (n : N) : ascii :=
  if (n <? 10)%N then ascii_of_N (48 + n) else ascii_of_N (87 + n).

(** One character through [json.encoder.ESCAPE_DCT] ([ensure_ascii=False]). *)
Definition escape_char (c : ascii) : string :=
  let n := Str.code c in
  if (n =? 34)%N then "\" ++ quote
  else if (n =? 92)%N then "\\"
  else if (n =? 8)%N then "\b"
  else if (n =? 12)%N then "\f"
  else if (n =? 10)%N then "\n"
  else if (n =? 13)%N then "\r"
  else if (n =? 9)%N then "\t"
  else if (n <? 32)%N then
    "\u00" ++ String (hex_digit (n / 16)) (String (hex_digit (n mod 16)) EmptyString)
  else String c EmptyString.

Fixpoint escape (s : string) : string :=
  match s with
  | EmptyString => EmptyString
  | String c r => escape_char c ++ escape r
  end.

Definition encode_string (s : string) : string := quote ++ escape s ++ quote.

(** [sorted(dct.items())] on items whose values are already encoded. *)
Fixpoint insert_item (x : string * string) (l : list (string * string)) :=
  match l with
  | [] => [x]
  | y :: l' => if String.leb (fst x) (fst y) then x :: l else y :: insert_item x l'
  end.

Definition sort_items (l : list (string * string)) : list (string * string) :=
  fold_right insert_item [] l.

Section Dumps.
Context {rt : Runtime}.

Definition encode_float (f : Float.t) : string :=
  match f with
  | S754_nan => "NaN"
  | S754_infinity false => "Infinity"
  | S754_infinity true => "-Infinity"
  | _ => float_repr f
  end.

(** [json.dumps(v, ensure_ascii=False, sort_keys=True)].  Every
    [value] is serialisable, so the call cannot raise. *)
Fixpoint dumps (v : value) : string :=
  match v with
  | VNone => "null"
  | VBool true => "true"
  | VBool false => "false"
  | VInt n => Str.of_Z n
  | VFloat f => encode_float f
  | VStr s => encode_string s
  | VList l => "[" ++ Str.join ", " (map dumps l) ++ "]"
  | VDict d =>
      "{" ++ Str.join ", "
               (map (fun kv => encode_string (fst kv) ++ ": " ++ snd kv)
                  (sort_items (map (fun kv => (fst kv, dumps (snd kv))) d)))
          ++ "}"
  end.
End Dumps.
End Json.

Section PyStr.
Context {rt : Runtime}.

(** [repr(v)]. *)
Fixpoint py_repr (v : value) : string :=
  match v with
  | VNone => "None"
  | VBool true => "True"
  | VBool false => "False"
  | VInt n => Str.of_Z n
  | VFloat f => float_repr f
  | VStr s => str_repr s
  | VList l => "[" ++ Str.join ", " (map py_repr l) ++ "]"
  | VDict d =>
      "{" ++ Str.join ", "
               (map (fun kv => str_repr (fst kv) ++ ": " ++ py_repr (snd kv)) d)
          ++ "}"
  end.

(** [str(v)]: a string is itself, everything else is its [repr]. *)
Definition py_str (v : value) : string :=
  match v with
  | VStr s => s
  | _ => py_repr v
  end.
End PyStr.

(* ================================================================= *)
(** ** The aggregation module *)

Definition str_of (v : value) : string :=
  match v with VStr s => s | _ => EmptyString end.

(** [_ID_HINT_RE]: [(?:^|_)(id|identifier|...|key)(?:$|_)], ignoring case. *)
Module IdHint.
Definition words : list string :=
  ["id"; "identifier"; "identificatie"; "uuid"; "guid"; "uri"; "iri"; "url";
   "ref"; "reference"; "nummer"; "number"; "code"; "key"].

(** What is left of [s] after [w] matched at its start, ignoring case. *)
Fixpoint match_word (w s : string) : option string :=
  match w, s with
  | EmptyString, _ => Some s
  | String a w', String c s' =>
      if Ascii.eqb (Str.lower_char c) a then match_word w' s' else None
  | String _ _, EmptyString => None
  end.

(** [(?:$|_)]: an underscore, the end, or a final newline. *)
Definition at_end (rest : string) : bool :=
  match rest with
  | EmptyString => true
  | String c r =>
      Ascii.eqb c "_" || (Ascii.eqb c (ascii_of_N 10) && String.eqb r EmptyString)
  end.

Definition word_here (s : string) : bool :=
  existsb (fun w => match match_word w s with
                    | Some rest => at_end rest
                    | None => false
                    end) words.

Fixpoint after_underscore (s : string) : bool :=
  match s with
  | EmptyString => false
  | String c r => (Ascii.eqb c "_" && word_here r) || after_underscore r
  end.

(** [_ID_HINT_RE.search(s)] as a truth value. *)
Definition search (s : string) : bool := word_here s || after_underscore s.
End IdHint.

Section Aggregation.
Context {rt : Runtime}.

(* --------------------------------------------------------------- *)
(** *** Schema/type helpers *)

Definition _schema_type (prop_schema : value) : result value :=
  t <- (if truthy prop_schema
        then match prop_schema with
             | VDict d => Ok (get_or_none "type" d)
             | _ => Raise AttributeError
             end
        else Ok VNone) ;;
  Ok (match t with
      | VList l =>
          match filter (fun x => negb (eq_str x "null")) l with
          | x :: _ => x
          | [] => VStr "string"
          end
      | _ => if truthy t then t else VStr "string"
      end).

Definition _schema_items_schema (prop_schema : dict) : dict :=
  match get_or_none "items" prop_schema with
  | VDict items => items
  | _ => []
  end.

Definition _schema_required_keys (schema : dict) : list value :=
  match get_or_none "required" schema with
  | VList req => req
  | _ => []
  end.

Definition _schema_properties (schema : dict) : dict :=
  match get_or_none "properties" schema with
  | VDict props => props
  | _ => []
  end.

Fixpoint _first_non_empty (values : list value) : value :=
  match values with
  | [] => VNone
  | v :: rest =>
      match v with
      | VNone => _first_non_empty rest
      | VStr s =>
          if String.eqb (Str.strip s) "" then _first_non_empty rest else v
      | VList [] => _first_non_empty rest
      | VDict [] => _first_non_empty rest
      | _ => v
      end
  end.

(* --------------------------------------------------------------- *)
(** *** Merge primitives *)

(** [[v.strip() for v in values if isinstance(v, str) and v.strip()]] *)
Definition stripped_strings (values : list value) : list string :=
  map (fun v => Str.strip (str_of v))
    (filter (fun v => is_str v && negb (String.eqb (Str.strip (str_of v)) ""))
       values).

(** One turn of the [concat] loop on the state [(unique, seen)]. *)
Definition concat_step (st : list string * list string) (s : string)
  : list string * list string :=
  let key := Str.take 120 s in
  if Str.mem key (snd st) then st else ((fst st ++ [s])%list, key :: snd st).

Definition _merge_strings (values : list value) (mode : string) (max_len : nat)
  : value :=
  let ss := stripped_strings values in
  match ss with
  | [] => VNone
  | s0 :: _ =>
      if String.eqb mode "concat" then
        let unique := fst (fold_left concat_step ss ([], [])) in
        let out := Str.join (Str.nl ++ Str.nl) unique in
        VStr (Str.take max_len out)
      else VStr s0
  end.

(** One turn of the loop that fills [nums]. *)
Definition nums_step (nums : list Float.t) (v : value) : result (list Float.t) :=
  match v with
  | VBool b =>
      match Float.of_Z (Z.b2z b) with
      | Some f => Ok (nums ++ [f])%list
      | None => Raise OverflowError
      end
  | VInt n =>
      match Float.of_Z n with
      | Some f => Ok (nums ++ [f])%list
      | None => Raise OverflowError
      end
  | VFloat f => Ok (nums ++ [f])%list
  | VStr s =>
      match float_of_string (Str.strip s) with
      | Some f => Ok (nums ++ [f])%list
      | None => Ok nums
      end
  | _ => Ok nums
  end.

Definition _merge_numbers (values : list value) (mode : string) : result value :=
  nums <- foldM nums_step values [] ;;
  Ok (match nums with
      | [] => VNone
      | x :: rest =>
          if String.eqb mode "max" then VFloat (Float.max_list x rest)
          else if String.eqb mode "min" then VFloat (Float.min_list x rest)
          else VFloat x
      end).

(** The body of the loop of [_deep_merge_objects] for one item [(k, v)]
    of [b]; [self] is the function itself, for nested dicts. *)
Definition deep_merge_item (self : value -> value -> value)
    (out : dict) (k : string) (v : value) : dict :=
  match Dict.get k out with
  | None => Dict.set k v out
  | Some o =>
      if in_empties o then Dict.set k v out
      else if is_dict o && is_dict v then Dict.set k (self o v) out
      else out
  end.

(** [_deep_merge_objects(o, v)] on two values that are dicts; the
    recursion descends into the values of the second one. *)
Fixpoint deep_merge_value (o v : value) {struct v} : value :=
  match o, v with
  | VDict a, VDict b =>
      VDict ((fix loop (b : dict) (out : dict) {struct b} : dict :=
                match b with
                | [] => out
                | (k, v') :: b' => loop b' (deep_merge_item deep_merge_value out k v')
                end) b a)
  | _, _ => o
  end.

Definition _deep_merge_objects (a b : dict) : dict :=
  fold_left (fun out kv => deep_merge_item deep_merge_value out (fst kv) (snd kv))
    b a.

Definition _merge_objects (values : list value) : dict :=
  fold_left (fun out v => match v with
                          | VDict d => _deep_merge_objects out d
                          | _ => out
                          end) values [].

(* --------------------------------------------------------------- *)
(** *** Schema-driven object identity *)

Definition _norm_scalar (x : value) : string :=
  match x with
  | VNone => ""
  | VBool b => if b then "true" else "false"
  | _ => Str.lower (Str.strip (py_str x))
  end.

Definition _is_simple_type (s : value) : result bool :=
  t <- _schema_type s ;;
  Ok (eq_str t "string" || eq_str t "integer" || eq_str t "number"
      || eq_str t "boolean").

(** [props.get(k, {})] *)
Definition get_or_empty (k : string) (props : dict) : value :=
  match Dict.get k props with Some s => s | None => VDict [] end.

(** The filter [k in props and _is_simple_type(props.get(k, {}))] on an
    entry of [required]; a list or a dict is unhashable. *)
Definition required_is_simple (props : dict) (k : value) : result bool :=
  match k with
  | VStr s =>
      if Dict.mem s props then _is_simple_type (get_or_empty s props)
      else Ok false
  | VList _ | VDict _ => Raise TypeError
  | _ => Ok false
  end.

Definition _derive_identity_keys (items_schema : dict) : result (list string) :=
  let props := _schema_properties items_schema in
  match props with
  | [] => Ok []
  | _ =>
      let id_like := filter IdHint.search (Dict.keys props) in
      id_like <- filterM (fun k => _is_simple_type (get_or_empty k props)) id_like ;;
      match id_like with
      | _ :: _ => Ok (firstn 2 id_like)
      | [] =>
          let req := _schema_required_keys items_schema in
          req_simple <- filterM (required_is_simple props) req ;;
          match req_simple with
          | _ :: _ => Ok (map str_of (firstn 4 req_simple))
          | [] =>
              simple_keys <-
                filterM (fun ks => if is_dict (snd ks)
                                   then _is_simple_type (snd ks)
                                   else Ok false) props ;;
              Ok (firstn 4 (map fst simple_keys))
          end
      end
  end.

(** The keys of [keys] that put a part into the signature of [obj]. *)
Definition contributes (obj : dict) (k : string) : bool :=
  Dict.mem k obj && negb (in_empties (get_or_none k obj)).

Definition signature_parts (obj : dict) (keys : list string) : list string :=
  map (fun k => k ++ "=" ++ _norm_scalar (get_or_none k obj))
    (filter (contributes obj) keys).

(** [json.dumps] cannot raise on a [value], so the [str:] branch of the
    source has no counterpart here. *)
Definition _object_signature (obj : dict) (keys : list string) : string :=
  let parts := signature_parts obj keys in
  match parts with
  | _ :: _ => "sig:" ++ Str.join "|" parts
  | [] => "json:" ++ Json.dumps (VDict obj)
  end.

(* --------------------------------------------------------------- *)
(** *** Array merge *)

Definition _coerce_to_list (v : value) : list value :=
  match v with
  | VNone => []
  | VList l => l
  | VDict _ => [v]
  | VStr s0 =>
      let s := Str.strip s0 in
      if String.eqb s "" then []
      else if Str.startswith "[" s || Str.startswith "{" s then
        match json_loads s with
        | Some (VList parsed) => parsed
        | Some (VDict parsed) => [VDict parsed]
        | _ => [VStr s]
        end
      else [VStr s]
  | _ => []
  end.

(** One item of the inner loop of [_merge_array_of_objects] on the
    state [(merged_by_sig, order)]. *)
Definition objects_step (keys : list string)
    (st : list (string * dict) * list string) (item : value)
  : list (string * dict) * list string :=
  match item with
  | VDict obj =>
      let sig := _object_signature obj keys in
      match Dict.get sig (fst st) with
      | None => (Dict.set sig obj (fst st), (snd st ++ [sig])%list)
      | Some cur => (Dict.set sig (_deep_merge_objects cur obj) (fst st), snd st)
      end
  | _ => st
  end.

Definition objects_loop (keys : list string) (values : list value)
  : list (string * dict) * list string :=
  fold_left (fun st v => fold_left (objects_step keys) (_coerce_to_list v) st)
    values ([], []).

Definition _merge_array_of_objects (values : list value) (items_schema : dict)
  : result (list value) :=
  keys <- _derive_identity_keys items_schema ;;
  let st := objects_loop keys values in
  Ok (map (fun s => VDict (match Dict.get s (fst st) with
                           | Some d => d
                           | None => []
                           end)) (snd st)).

Definition scalar_key (item : value) : string :=
  if is_dict item || is_list item then Json.dumps item else py_str item.

(** One item of the inner loop of [_merge_array_of_scalars] on the
    state [(out, seen)]. *)
Definition scalars_step (st : list value * list string) (item : value)
  : list value * list string :=
  if is_none item then st
  else
    let key := scalar_key item in
    if Str.mem key (snd st) then st
    else ((fst st ++ [item])%list, key :: snd st).

Definition _merge_array_of_scalars (values : list value) : list value :=
  fst (fold_left (fun st v => fold_left scalars_step (_coerce_to_list v) st)
         values ([], [])).

Definition _merge_arrays (values : list value) (items_schema : dict)
  : result (list value) :=
  t <- _schema_type (VDict items_schema) ;;
  if eq_str t "object" then _merge_array_of_objects values items_schema
  else Ok (_merge_array_of_scalars values).

(* --------------------------------------------------------------- *)
(** *** Main aggregator *)

Definition concat_fields : list string :=
  ["description"; "samenvatting"; "abstract"; "notes"].

(** The dispatch on the type of a property, for the [values] of the
    chunks. *)
Definition merge_values (key : string) (prop_schema : dict)
    (values : list value) : result value :=
  t <- _schema_type (VDict prop_schema) ;;
  if eq_str t "string" then
    let merge_mode := if Str.mem key concat_fields then "concat" else "first" in
    Ok (_merge_strings values merge_mode 1600)
  else if eq_str t "array" then
    let items_schema := _schema_items_schema prop_schema in
    r <- _merge_arrays values items_schema ;;
    Ok (VList r)
  else if eq_str t "object" then
    Ok (VDict (_merge_objects values))
  else if eq_str t "integer" || eq_str t "number" then
    n <- _merge_numbers values "first" ;;
    Ok (if eq_str t "integer" then
          match n with
          | VFloat f =>
              match Float.to_Z f with
              | Some z => VInt z
              | None => VNone
              end
          | _ => n
          end
        else n)
  else if eq_str t "boolean" then
    Ok (match _first_non_empty values with
        | VStr s0 =>
            let s := Str.lower (Str.strip s0) in
            if Str.mem s ["true"; "ja"; "yes"; "1"] then VBool true
            else if Str.mem s ["false"; "nee"; "no"; "0"] then VBool false
            else VNone
        | v => v
        end)
  else Ok (_first_non_empty values).

(** The value assigned to [out[key]] by one turn of the loop over the
    schema's properties. *)
Definition merge_field (chunk_dicts : list dict) (key : string)
    (prop_schema : value) : result value :=
  let prop_schema := match prop_schema with VDict d => d | _ => [] end in
  let values := map (get_or_none key) chunk_dicts in
  merge_values key prop_schema values.

(** The loop over [props.items()]. *)
Definition merge_fields (chunk_dicts : list dict) (props : dict) : result dict :=
  foldM (fun out kp =>
           v <- merge_field chunk_dicts (fst kp) (snd kp) ;;
           Ok (Dict.set (fst kp) v out))
    props [].

(** "Ensure technical + filetype if schema expects them". *)
Definition inject_technical (props : dict) (technical : value) (out : dict) : dict :=
  if Dict.mem "technical" props
     && negb (is_dict (get_or_none "technical" out))
     && negb (is_none technical)
  then Dict.set "technical" technical out else out.

Definition inject_filetype (props : dict) (filetype_guess : value) (out : dict)
  : dict :=
  if Dict.mem "filetype" props
     && negb (truthy (get_or_none "filetype" out))
     && negb (is_none filetype_guess)
  then Dict.set "filetype" filetype_guess out else out.

(** "Drop extras not in schema". *)
Definition drop_extras (props : dict) (out : dict) : dict :=
  filter (fun kv => Dict.mem (fst kv) props) out.

Definition aggregate_chunk_dicts (chunk_dicts : list dict) (schema : dict)
    (technical filetype_guess : value) : result dict :=
  match chunk_dicts with
  | [] =>
      let base : dict := [] in
      let props := _schema_properties schema in
      let base := if Dict.mem "technical" props && negb (is_none technical)
                  then Dict.set "technical" technical base else base in
      let base := if Dict.mem "filetype" props && negb (is_none filetype_guess)
                  then Dict.set "filetype" filetype_guess base else base in
      Ok base
  | _ :: _ =>
      let props := _schema_properties schema in
      out <- merge_fields chunk_dicts props ;;
      let out := inject_technical props technical out in
      let out := inject_filetype props filetype_guess out in
      Ok (drop_extras props out)
  end.

End Aggregation.

(* ================================================================= *)
(** ** Specification-level definitions *)

(** Keeps, in order, the first item of every key that is not in [seen]. *)
Fixpoint dedup_by {A : Type} (key : A -> string) (seen : list string) (l : list A)
  : list A :=
  match l with
  | [] => []
  | x :: r =>
      if Str.mem (key x) seen then dedup_by key seen r
      else x :: dedup_by key (key x :: seen) r
  end.

(** The number of positions of [s] at which [sub] starts. *)
Fixpoint occurrences (sub s : string) : nat :=
  match s with
  | EmptyString => 0
  | String _ r => (if String.prefix sub s then 1 else 0) + occurrences sub r
  end.

Fixpoint last_char (s : string) : option ascii :=
  match s with
  | EmptyString => None
  | String c EmptyString => Some c
  | String _ r => last_char r
  end.

Definition first_char (s : string) : option ascii :=
  match s with
  | EmptyString => None
  | String c _ => Some c
  end.

(** No whitespace at either end of a string. *)
Definition no_outer_space (s : string) : Prop :=
  (forall c, first_char s = Some c -> Str.is_space c = false) /\
  (forall c, last_char s = Some c -> Str.is_space c = false).


(** [preserved v r]: [r] keeps [v] wherever [v] is not a gap ([None],
    [""], [[]] or [{}]), at every depth of nested dicts. *)
Inductive preserved : value -> value -> Prop :=
| preserved_same v : preserved v v
| preserved_gap v r : in_empties v = true -> preserved v r
| preserved_dict a r :
    (forall k va, Dict.get k a = Some va ->
       exists vr, Dict.get k r = Some vr /\ preserved va vr) ->
    preserved (VDict a) (VDict r).

(** The value of a key after one item [(k, v)] of the right operand,
    from the value the key had on the left, if any. *)
Definition merged_value (oa : option value) (v : value) : value :=
  match oa with
  | None => v
  | Some o =>
      if in_empties o then v
      else if is_dict o && is_dict v then deep_merge_value o v
      else o
  end.

Section SpecDefs.
Context {rt : Runtime}.

(** The items of all chunks' coerced arrays, in chunk order. *)
Definition flattened (values : list value) : list value :=
  flat_map _coerce_to_list values.

(** Array of scalars, in the words of the specification: flatten, drop
    nulls, deduplicate by canonical key, first-seen order. *)
Definition scalars_spec (values : list value) : list value :=
  dedup_by scalar_key []
    (filter (fun item => negb (is_none item)) (flattened values)).

(** The [concat] policy in the words of the specification. *)
Definition concat_spec (ss : list string) : string :=
  Str.take 1600 (Str.join (Str.nl ++ Str.nl) (dedup_by (Str.take 120) [] ss)).

Definition is_number_or_bool (v : value) : bool :=
  match v with
  | VBool _ | VInt _ | VFloat _ => true
  | _ => false
  end.

Definition looks_like_json (s : string) : bool :=
  Str.startswith "[" s || Str.startswith "{" s.

(** Loose coercion to a list, case by case: what a chunk value
    contributes to an array field. *)
Inductive coerced : value -> list value -> Prop :=
| coerced_null : coerced VNone []
| coerced_list l : coerced (VList l) l
| coerced_object d : coerced (VDict d) [VDict d]
| coerced_number_or_bool v : is_number_or_bool v = true -> coerced v []
| coerced_blank s : Str.strip s = "" -> coerced (VStr s) []
| coerced_json_list s l :
    Str.strip s <> "" -> looks_like_json (Str.strip s) = true ->
    json_loads (Str.strip s) = Some (VList l) ->
    coerced (VStr s) l
| coerced_json_object s d :
    Str.strip s <> "" -> looks_like_json (Str.strip s) = true ->
    json_loads (Str.strip s) = Some (VDict d) ->
    coerced (VStr s) [VDict d]
| coerced_text s :
    Str.strip s <> "" ->
    (looks_like_json (Str.strip s) = false
     \/ (forall l, json_loads (Str.strip s) <> Some (VList l))
        /\ (forall d, json_loads (Str.strip s) <> Some (VDict d))) ->
    coerced (VStr s) [VStr (Str.strip s)].

(** The type of a field-schema that is a dict ([_schema_type] on it). *)
Definition dict_type (ps : dict) : value :=
  match get_or_none "type" ps with
  | VList l =>
      match filter (fun x => negb (eq_str x "null")) l with
      | x :: _ => x
      | [] => VStr "string"
      end
  | t => if truthy t then t else VStr "string"
  end.

(** The type under which the aggregator merges a property. *)
Definition field_type (prop_schema : value) : value :=
  dict_type (match prop_schema with VDict d => d | _ => [] end).

Definition is_numeric_type (t : value) : bool :=
  eq_str t "integer" || eq_str t "number".

(** A property schema that [_schema_type] accepts: a dict, or falsy. *)
Definition schema_like (s : value) : bool := is_dict s || negb (truthy s).

(** An item schema from which identity keys can be derived: its
    property schemas are schema-like, its [required] entries hashable. *)
Definition items_ok (items : dict) : Prop :=
  Forall (fun kv => schema_like (snd kv) = true) (_schema_properties items)
  /\ Forall (fun k => is_list k || is_dict k = false) (_schema_required_keys items).

Definition items_usable (schema : dict) : Prop :=
  forall key ps,
    In (key, VDict ps) (_schema_properties schema) ->
    eq_str (dict_type ps) "array" = true ->
    eq_str (dict_type (_schema_items_schema ps)) "object" = true ->
    items_ok (_schema_items_schema ps).

(** Every integer offered to a numeric field converts to a float. *)
Definition ints_fit (schema : dict) (chunk_dicts : list dict) : Prop :=
  forall key s d n,
    In (key, s) (_schema_properties schema) ->
    is_numeric_type (field_type s) = true ->
    In d chunk_dicts -> Dict.get key d = Some (VInt n) ->
    Float.of_Z n <> None.





Definition known_type (t : value) : bool :=
  eq_str t "string" || eq_str t "array" || eq_str t "object"
  || eq_str t "integer" || eq_str t "number" || eq_str t "boolean".

(** The objects among the items of all chunks' coerced arrays. *)
Definition dicts_of (items : list value) : list dict :=
  flat_map (fun v => match v with VDict d => [d] | _ => [] end) items.

(** The signature of an object under the identity keys [keys]. *)
Definition sig_of (keys : list string) (o : dict) : string :=
  _object_signature o keys.

(** All the objects of signature [sig], deep-merged into the first one. *)
Definition group_merge (sig_of : dict -> string) (sig : string) (objs : list dict)
  : dict :=
  match filter (fun o => String.eqb (sig_of o) sig) objs with
  | [] => []
  | o :: rest => fold_left _deep_merge_objects rest o
  end.

(** Array of objects, in the words of the specification: one entry per
    signature, in first-seen order, holding the deep merge of the items
    that share it. *)
Definition objects_spec (keys : list string) (values : list value) : list value :=
  let objs := dicts_of (flattened values) in
  map (fun sig => VDict (group_merge (sig_of keys) sig objs))
    (dedup_by (fun s => s) [] (map (sig_of keys) objs)).

(** One object through the loop of [_merge_array_of_objects]. *)
Definition dict_step (keys : list string)
    (st : list (string * dict) * list string) (o : dict) :=
  objects_step keys st (VDict o).





(** A value that is a candidate of the string merge. *)
Definition is_candidate (v : value) : bool :=
  is_str v && negb (String.eqb (Str.strip (str_of v)) "").
End SpecDefs.

(* ================================================================= *)
(** ** Canonical JSON text: definitions *)

(** No float at any depth. *)
Fixpoint float_free (v : value) : bool :=
  match v with
  | VFloat _ => false
  | VList l => forallb float_free l
  | VDict d => forallb (fun kv => float_free (snd kv)) d
  | _ => true
  end.

(** Every float of [v], at any depth, satisfies [P]. *)
Fixpoint floats_in (P : Float.t -> bool) (v : value) : bool :=
  match v with
  | VFloat f => P f
  | VList l => forallb (floats_in P) l
  | VDict d => forallb (fun kv => floats_in P (snd kv)) d
  | _ => true
  end.


(** A zero or a finite float: the floats that [json.dumps] prints by
    their [repr]. *)
Definition is_finite (f : Float.t) : bool :=
  match f with
  | S754_zero _ | S754_finite _ _ _ => true
  | _ => false
  end.

(** Structural equality of two values, up to the order of the keys of
    their dicts at every depth. *)
Inductive same_structure : value -> value -> Prop :=
| same_atom v : is_list v || is_dict v = false -> same_structure v v
| same_list l1 l2 : Forall2 same_structure l1 l2 -> same_structure (VList l1) (VList l2)
| same_dict d1 d2 :
    (forall k a, Dict.get k d1 = Some a ->
       exists b, Dict.get k d2 = Some b /\ same_structure a b) ->
    (forall k, Dict.get k d1 = None -> Dict.get k d2 = None) ->
    same_structure (VDict d1) (VDict d2).

(** The characters that follow a value inside a list or an object. *)
Definition is_delim (c : ascii) : bool :=
  Ascii.eqb c "," || Ascii.eqb c "]" || Ascii.eqb c "}".

(** A text that a value can be followed by. *)
Definition terminated (r : string) : Prop :=
  match r with
  | EmptyString => True
  | String c _ => is_delim c = true
  end.

(** The characters of the decimal text of an integer. *)
Definition is_num_char (c : ascii) : bool :=
  Ascii.eqb c "-" || ((48 <=? Str.code c) && (Str.code c <=? 57))%N.

Fixpoint all_num (s : string) : bool :=
  match s with
  | EmptyString => true
  | String c r => is_num_char c && all_num r
  end.

Fixpoint all_chars (p : ascii -> bool) (s : string) : bool :=
  match s with
  | EmptyString => true
  | String c r => p c && all_chars p r
  end.

(** The characters of the decimal text of a float: those of an
    integer, the point, the exponent mark and the plus sign. *)
Definition is_float_char (c : ascii) : bool :=
  is_num_char c || Ascii.eqb c "." || Ascii.eqb c "e" || Ascii.eqb c "+".

(** A text that starts with a digit or a minus sign. *)
Definition starts_num (s : string) : bool :=
  match s with
  | EmptyString => false
  | String c _ => is_num_char c
  end.

(** A text that does not go on with a character of [p]. *)
Definition stops (p : ascii -> bool) (r : string) : Prop :=
  match r with
  | EmptyString => True
  | String c _ => p c = false
  end.

(** A character that can stand inside a number, a literal or a float. *)
Definition not_delim (c : ascii) : bool := negb (is_delim c).

(** A text that starts as a value does: it is not empty and its first
    character is none of those that follow a value. *)
Definition starts_value (t : string) : Prop :=
  match t with
  | EmptyString => False
  | String c _ => is_delim c = false
  end.

(** The first characters of the text of a float: those of a number,
    and those of [NaN] and [Infinity]. *)
Definition is_float_head (c : ascii) : bool :=
  is_num_char c || Ascii.eqb c "N" || Ascii.eqb c "I".

Definition all_ascii : list ascii := map ascii_of_nat (seq 0 256).

(** The class of a JSON text by its first character. *)
Definition char_tag (c : ascii) : nat :=
  if Ascii.eqb c "n" then 0
  else if Ascii.eqb c "t" then 1
  else if Ascii.eqb c "f" then 2
  else if is_num_char c then 3
  else if Ascii.eqb c (ascii_of_N 34) then 4
  else if Ascii.eqb c "[" then 5
  else if Ascii.eqb c "{" then 6
  else 7.

(** The class of a value, as its text shows it. *)
Definition tag (v : value) : nat :=
  match v with
  | VNone => 0
  | VBool true => 1
  | VBool false => 2
  | VInt _ => 3
  | VFloat _ => 7
  | VStr _ => 4
  | VList _ => 5
  | VDict _ => 6
  end.

Definition head_tag (s : string) : nat :=
  match s with
  | EmptyString => 8
  | String c _ => char_tag c
  end.

(** [t1] and [t2] cannot be told apart only when they are the same text. *)
Definition parses_apart (t1 t2 : string) : Prop :=
  forall r1 r2, terminated r1 -> terminated r2 ->
                t1 ++ r1 = t2 ++ r2 -> t1 = t2 /\ r1 = r2.

Fixpoint is_prefix (p s : string) : bool :=
  match p, s with
  | EmptyString, _ => true
  | String a p', String b s' => Ascii.eqb a b && is_prefix p' s'
  | String _ _, EmptyString => false
  end.

(** The escapes of two characters are not prefixes of one another, and
    none starts with a quote. *)
Definition escapes_apart : bool :=
  forallb (fun c1 =>
             forallb (fun c2 =>
                        implb (is_prefix (Json.escape_char c1) (Json.escape_char c2))
                          (Ascii.eqb c1 c2)) all_ascii) all_ascii.

Definition escape_head_ok (c : ascii) : bool :=
  match Json.escape_char c with
  | EmptyString => false
  | String h _ => negb (Ascii.eqb h (ascii_of_N 34))
  end.

(** What follows the first [n] tokens of a sequence. *)
Definition after (ts : list string) (rest : string) : string :=
  match ts with
  | [] => rest
  | _ :: _ => ", " ++ Str.join ", " ts ++ rest
  end.

(** One item of an object: the key, a colon and the text of the value. *)
Definition item_text (kv : string * string) : string :=
  Json.encode_string (fst kv) ++ ": " ++ snd kv.

Section CanonicalDefs.
Context {rt : Runtime}.

(** The items of an object with their values encoded. *)
Definition encoded (d : dict) : list (string * string) :=
  map (fun kv => (fst kv, Json.dumps (snd kv))) d.

(** What [repr] gives for the finite floats that satisfy [P], as
    Python's does for every float: a text of digits, signs, a point and
    an exponent mark that starts as a number does and is not the text
    of an integer; and two floats with one text are the same float. *)
Definition repr_law (P : Float.t -> bool) : Prop :=
  (forall f, P f = true -> is_finite f = true ->
     starts_num (float_repr f) = true
     /\ all_chars is_float_char (float_repr f) = true
     /\ all_num (float_repr f) = false)
  /\ (forall f g, P f = true -> P g = true ->
        is_finite f = true -> is_finite g = true ->
        float_repr f = float_repr g -> f = g).

(** The text of [v] is told apart from the text of every other value,
    among the values whose floats satisfy [P]. *)
Definition canonical_ok (P : Float.t -> bool) (v : value) : Prop :=
  floats_in P v = true -> value_wf v ->
  forall w, floats_in P w = true -> value_wf w ->
    parses_apart (Json.dumps v) (Json.dumps w)
    /\ (Json.dumps v = Json.dumps w -> same_structure v w).

End CanonicalDefs.

(** Two values of different classes have different texts. *)
Ltac mismatch_by apart whole :=
  split;
  [ intros ? ? _ _ Hm; apply apart in Hm; [discriminate Hm | simpl; lia ..]
  | intros Hm; apply whole in Hm; [discriminate Hm | simpl; lia ..] ].

(* ================================================================= *)
(** ** Example data *)

(** The examples run in an arbitrary runtime: its four functions are
    opaque, so that no evaluated result depends on them. *)
Definition example_float_of_string : string -> option Float.t.
Proof. exact (fun _ => None). Qed.
Definition example_float_repr : Float.t -> string.
Proof. exact (fun _ => EmptyString). Qed.
Definition example_str_repr : string -> string.
Proof. exact (fun s => s). Qed.
Definition example_json_loads : string -> option value.
Proof. exact (fun _ => None). Qed.

#[local] Instance example_runtime : Runtime := {|
  float_of_string := example_float_of_string;
  float_repr := example_float_repr;
  str_repr := example_str_repr;
  json_loads := example_json_loads
|}.



Ltac nodup_keys := repeat constructor; simpl; intuition discriminate.

Definition typed (t : string) : value := VDict [("type", VStr t)].

Definition schema_of (props : dict) : dict := [("properties", VDict props)].

(** A schema declaring [technical] and [filetype]. *)
Definition schema_tf : dict :=
  schema_of [("technical", typed "object"); ("filetype", typed "string")].

(** A schema with one string field that is neither of them. *)
Definition schema_title : dict := schema_of [("title", typed "string")].


(** An item schema with the identity keys [id] and [code], and two
    items whose signatures collide on the separator. *)
Definition items_id_code : dict :=
  [("type", VStr "object");
   ("properties", VDict [("id", typed "string"); ("code", typed "string")])].



(** An array of strings and two partial records for it. *)
Definition tags_schema : dict := [("type", VStr "array"); ("items", typed "string")].

Definition tags_chunks : list dict :=
  [[("tags", VList [VStr "x"; VStr "y"])]; [("tags", VList [VStr "y"; VStr "z"])]].

(** Two partial records that give the same prose. *)
Definition hello_chunks : list dict :=
  [[("description", VStr "Hello world.")]; [("description", VStr "Hello world.")]].

(** A number in front of a padded title. *)
Definition title_chunks : list dict :=
  [[("title", VInt 7)]; [("title", VStr "  Akte  ")]].

(** A record whose [technical] field is text and whose [filetype] is
    blank. *)
Definition chunk_tf : dict := [("technical", VStr "x"); ("filetype", VStr " ")].

Definition schema_tf_strings : dict :=
  schema_of [("technical", typed "string"); ("filetype", typed "string");
             ("title", typed "string")].

(* ================================================================= *)
(** ** Definitions for the properties of the merge functions *)

Unset Implicit Arguments.

(** A value that [_first_non_empty] passes over: [None], a string of
    whitespace only, [[]] or [{}]. *)
Definition is_blank (v : value) : bool :=
  match v with
  | VNone => true
  | VStr s => String.eqb (Str.strip s) ""
  | VList [] => true
  | VDict [] => true
  | _ => false
  end.

(** A value other than [None]. *)
Definition not_none (v : value) : bool := negb (is_none v).

(** An [int] too large for a float. *)
Definition overflows (v : value) : bool :=
  match v with
  | VInt n => match Float.of_Z n with None => true | Some _ => false end
  | _ => false
  end.

(** The words that a boolean field reads as true and as false. *)
Definition truth_words : list string := ["true"; "ja"; "yes"; "1"].
Definition false_words : list string := ["false"; "nee"; "no"; "0"].

(** The integer part of a float, towards zero; none for an infinity
    or a nan. *)
Definition truncation (f : Float.t) : option Z :=
  match f with
  | S754_zero _ => Some 0%Z
  | S754_finite s m e =>
      Some (Z.quot ((if s then Z.opp (Zpos m) else Zpos m) * 2 ^ Z.max e 0)
              (2 ^ Z.max (- e) 0))
  | _ => None
  end.

Section MoreDefs.
Context {rt : Runtime}.

(** The float that a value offers to a numeric field, if any. *)
Definition number_of (v : value) : option Float.t :=
  match v with
  | VBool b => Float.of_Z (Z.b2z b)
  | VInt n => Float.of_Z n
  | VFloat f => Some f
  | VStr s => float_of_string (Str.strip s)
  | _ => None
  end.

(** The numbers among the values, in order. *)
Definition numbers (values : list value) : list Float.t :=
  flat_map (fun v => match number_of v with Some f => [f] | None => [] end) values.

End MoreDefs.

(** [s] holds one of the identifier words between two delimiters, in
    any case: the word starts the name or follows an underscore, and it
    ends the name or is followed by an underscore or by a final
    newline. *)
Definition delimited_word (s : string) : Prop :=
  exists pre m post,
    s = pre ++ m ++ post
    /\ In (Str.lower m) IdHint.words
    /\ (pre = "" \/ last_char pre = Some "_"%char)
    /\ (post = "" \/ first_char post = Some "_"%char \/ post = Str.nl).

(** The items of an object in strictly increasing order of their keys. *)
Definition key_lt (x y : string * string) : Prop :=
  String.ltb (fst x) (fst y) = true.

Definition key_sorted (l : list (string * string)) : Prop :=
  ForallOrdPairs key_lt l.

(* ================================================================= *)
(** ** The chunker ([chunking.py]) *)

Module Chunking.

(** [len(text)] *)
Definition len (s : string) : Z := Z.of_nat (String.length s).

(** [text[i:j]] for indices that are not negative, as all the indices
    of the chunker are. *)
Definition slice (s : string) (i j : Z) : string :=
  String.substring (Z.to_nat i) (Z.to_nat (j - i)) s.

(** The [while] loop of [chunk_text] on the state [(start, chunks)].
    Every turn appends a chunk and the loop stops at [max(1,
    max_chunks)] chunks: [fuel] bounds the number of turns. *)
Fixpoint chunks_loop (fuel : nat) (text : string)
    (chunk_size overlap max_chunks : Z) (start : Z) (chunks : list string)
  : list string :=
  match fuel with
  | O => chunks
  | S fuel' =>
      let n := len text in
      if (start <? n)%Z && (Z.of_nat (List.length chunks) <? Z.max 1 max_chunks)%Z
      then
        let end_ := Z.min (start + chunk_size) n in
        let chunks := (chunks ++ [slice text start end_])%list in
        if (end_ =? n)%Z then chunks
        else chunks_loop fuel' text chunk_size overlap max_chunks
               (Z.max 0 (end_ - overlap)) chunks
      else chunks
  end.

Definition chunk_text (text : string) (chunk_size overlap max_chunks : Z)
  : list string :=
  if String.eqb text "" then []
  else
    let chunk_size := Z.max 200 chunk_size in
    let overlap := Z.max 0 overlap in
    chunks_loop (Z.to_nat (Z.max 1 max_chunks)) text chunk_size overlap
      max_chunks 0 [].

(** The same loop in [chunk_text_with_spans], on the state [(start, out)]. *)
Fixpoint spans_loop (fuel : nat) (text : string)
    (chunk_size overlap max_chunks : Z) (start : Z) (out : list (Z * Z * string))
  : list (Z * Z * string) :=
  match fuel with
  | O => out
  | S fuel' =>
      let n := len text in
      if (start <? n)%Z && (Z.of_nat (List.length out) <? Z.max 1 max_chunks)%Z
      then
        let end_ := Z.min (start + chunk_size) n in
        let out := (out ++ [(start, end_, slice text start end_)])%list in
        if (end_ =? n)%Z then out
        else spans_loop fuel' text chunk_size overlap max_chunks
               (Z.max 0 (end_ - overlap)) out
      else out
  end.

Definition chunk_text_with_spans (text : string) (chunk_size overlap max_chunks : Z)
  : list (Z * Z * string) :=
  if String.eqb text "" then []
  else
    let chunk_size := Z.max 200 chunk_size in
    let overlap := Z.max 0 overlap in
    spans_loop (Z.to_nat (Z.max 1 max_chunks)) text chunk_size overlap
      max_chunks 0 [].

End Chunking.

(** The spans that the loop of the chunker appends from [start] on, at
    most [k] of them. *)
Fixpoint spans_from (k : nat) (text : string) (chunk_size overlap start : Z)
  : list (Z * Z * string) :=
  match k with
  | O => []
  | S k' =>
      let n := Chunking.len text in
      if (start <? n)%Z then
        let end_ := Z.min (start + chunk_size) n in
        (start, end_, Chunking.slice text start end_)
        :: (if (end_ =? n)%Z then []
            else spans_from k' text chunk_size overlap (Z.max 0 (end_ - overlap)))
      else []
  end.

(** The position [p] of the text lies in one of the spans. *)
Definition covered (spans : list (Z * Z * string)) (p : Z) : Prop :=
  exists s e c, In (s, e, c) spans /\ (s <= p < e)%Z.

(** A span of the text [text] of at most [size] characters, with its
    chunk. *)
Definition span_ok (text : string) (size : Z) (x : Z * Z * string) : Prop :=
  let '(s, e, c) := x in
  (0 <= s < e)%Z /\ (e <= Chunking.len text)%Z /\ (e - s <= size)%Z
  /\ c = Chunking.slice text s e /\ Chunking.len c = (e - s)%Z.

(** Two spans that follow one another: the first is full and does not
    reach the end, the second starts [overlap] characters before the
    end of the first, and not before the start of the text. *)
Fixpoint chained (text : string) (size overlap : Z) (spans : list (Z * Z * string))
  : Prop :=
  match spans with
  | x :: ((y :: _) as rest) =>
      (snd (fst x) = fst (fst x) + size)%Z
      /\ (snd (fst x) < Chunking.len text)%Z
      /\ fst (fst y) = Z.max 0 (snd (fst x) - overlap)
      /\ chained text size overlap rest
  | _ => True
  end.

(** *** Example data for the further properties *)

(** A text of 300 characters. *)
Definition long_text : string :=
  String.concat "" (repeat "0123456789" 30).

Definition integer_schema : dict := [("type", VStr "integer")].
Definition boolean_schema : dict := [("type", VStr "boolean")].
Definition object_schema : dict := [("type", VStr "object")].

(** Two objects that share the key [y], and one with their keys in
    another order. *)
Definition left_object : dict := [("x", VInt 1); ("y", VNone)].
Definition right_object : dict := [("z", VInt 3); ("y", VInt 2)].
Definition right_object_reordered : dict := [("y", VInt 2); ("z", VInt 3)].

(** Two items with the same [id], each with a field of its own. *)
Definition item_one_a : dict := [("id", VStr "1"); ("a", VStr "x")].
Definition item_one_b : dict := [("id", VStr "1"); ("b", VStr "y")].

(* ================================================================= *)
(** * Lemmas *)

Unset Implicit Arguments.

(** ** Dicts *)

Module DictFacts.
Section Facts.
Variable V : Type.
Implicit Types (d : list (string * V)) (k : string) (v : V).

Lemma get_set_same k v d : Dict.get k (Dict.set k v d) = Some v.
Proof.
  induction d as [| [k' v'] d IH]; simpl.
  - now rewrite String.eqb_refl.
  - destruct (String.eqb k k') eqn:E; simpl; rewrite E; auto.
Qed.

Lemma get_set_other k k' v d :
  k <> k' -> Dict.get k' (Dict.set k v d) = Dict.get k' d.
Proof.
  intros Hne.
  induction d as [| [k0 v0] d IH]; simpl.
  - destruct (String.eqb k' k) eqn:E; auto.
    apply String.eqb_eq in E. congruence.
  - destruct (String.eqb k k0) eqn:E; simpl.
    + apply String.eqb_eq in E. subst k0.
      destruct (String.eqb k' k) eqn:E'; auto.
      apply String.eqb_eq in E'. congruence.
    + now rewrite IH.
Qed.

Lemma get_set k k' v d :
  Dict.get k' (Dict.set k v d) =
  if String.eqb k' k then Some v else Dict.get k' d.
Proof.
  destruct (String.eqb k' k) eqn:E.
  - apply String.eqb_eq in E. subst. apply get_set_same.
  - apply String.eqb_neq in E. apply get_set_other. congruence.
Qed.

Lemma get_none_iff k d : Dict.get k d = None <-> ~ In k (Dict.keys d).
Proof.
  induction d as [| [k' v'] d IH]; simpl.
  - tauto.
  - destruct (String.eqb k k') eqn:E.
    + apply String.eqb_eq in E. subst. split; [discriminate | tauto].
    + apply String.eqb_neq in E. rewrite IH. split.
      * intros H [H' | H']; [congruence | tauto].
      * tauto.
Qed.

Lemma mem_iff k d : Dict.mem k d = true <-> In k (Dict.keys d).
Proof.
  unfold Dict.mem. destruct (Dict.get k d) eqn:E.
  - split; auto. intros _.
    destruct (in_dec string_dec k (Dict.keys d)) as [H | H]; auto.
    apply get_none_iff in H. congruence.
  - apply get_none_iff in E. split; [discriminate | tauto].
Qed.

Lemma get_in k v d : Dict.get k d = Some v -> In (k, v) d.
Proof.
  induction d as [| [k' v'] d IH]; simpl; [discriminate |].
  destruct (String.eqb k k') eqn:E.
  - apply String.eqb_eq in E. intros [= ->]. subst. now left.
  - auto.
Qed.

Lemma in_get k v d : NoDup (Dict.keys d) -> In (k, v) d -> Dict.get k d = Some v.
Proof.
  induction d as [| [k' v'] d IH]; simpl; [tauto |].
  intros Hnd [H | H]; inversion Hnd as [| ? ? Hni Hnd']; subst.
  - inversion H; subst. now rewrite String.eqb_refl.
  - destruct (String.eqb k k') eqn:E; auto.
    apply String.eqb_eq in E. subst k'.
    exfalso. apply Hni. change k with (fst (k, v)). now apply in_map.
Qed.

Lemma keys_set_present k v d :
  In k (Dict.keys d) -> Dict.keys (Dict.set k v d) = Dict.keys d.
Proof.
  induction d as [| [k' v'] d IH]; simpl; [tauto |].
  intros H. destruct (String.eqb k k') eqn:E; simpl; auto.
  apply String.eqb_neq in E. f_equal. apply IH.
  destruct H; [congruence | auto].
Qed.

Lemma keys_set_absent k v d :
  ~ In k (Dict.keys d) -> Dict.keys (Dict.set k v d) = (Dict.keys d ++ [k])%list.
Proof.
  induction d as [| [k' v'] d IH]; simpl; auto.
  intros H. destruct (String.eqb k k') eqn:E; simpl.
  - apply String.eqb_eq in E. subst. tauto.
  - f_equal. apply IH. tauto.
Qed.

Lemma in_keys_set k k' v d :
  In k' (Dict.keys (Dict.set k v d)) <-> k' = k \/ In k' (Dict.keys d).
Proof.
  destruct (in_dec string_dec k (Dict.keys d)) as [H | H].
  - rewrite keys_set_present by auto. split; auto.
    intros [-> | H']; auto.
  - rewrite keys_set_absent by auto. rewrite in_app_iff. simpl.
    split; intros [H' | H']; auto.
    destruct H'; auto. tauto.
Qed.

Lemma NoDup_keys_set k v d :
  NoDup (Dict.keys d) -> NoDup (Dict.keys (Dict.set k v d)).
Proof.
  intros Hnd.
  destruct (in_dec string_dec k (Dict.keys d)) as [H | H].
  - now rewrite keys_set_present.
  - rewrite keys_set_absent by auto.
    apply NoDup_app; auto.
    + constructor; [tauto | constructor].
    + intros x Hx [<- | []]. tauto.
Qed.
End Facts.
End DictFacts.

(** ** First-seen deduplication *)

Lemma str_mem_iff k (seen : list string) : Str.mem k seen = true <-> In k seen.
Proof.
  unfold Str.mem. rewrite existsb_exists. split.
  - intros [x [Hx E]]. apply String.eqb_eq in E. now subst.
  - intros H. exists k. split; auto. apply String.eqb_refl.
Qed.

Section DedupFacts.
Variable A : Type.
Variable key : A -> string.

Lemma dedup_by_keys_fresh (l : list A) : forall seen x,
  In x (dedup_by key seen l) -> ~ In (key x) seen.
Proof.
  induction l as [| y l IH]; simpl; intros seen x H; [tauto |].
  destruct (Str.mem (key y) seen) eqn:E.
  - eauto.
  - destruct H as [<- | H].
    + intros Hin. apply str_mem_iff in Hin. congruence.
    + apply IH in H. intros Hin. apply H. now right.
Qed.

Lemma dedup_by_NoDup (l : list A) : forall seen,
  NoDup (map key (dedup_by key seen l)).
Proof.
  induction l as [| y l IH]; simpl; intros seen; [constructor |].
  destruct (Str.mem (key y) seen) eqn:E; auto.
  simpl. constructor; auto.
  intros Hin. apply in_map_iff in Hin. destruct Hin as [x [Hk Hx]].
  apply dedup_by_keys_fresh in Hx. apply Hx. left. auto.
Qed.

Lemma dedup_by_incl (l : list A) : forall seen x,
  In x (dedup_by key seen l) -> In x l.
Proof.
  induction l as [| y l IH]; simpl; intros seen x H; [tauto |].
  destruct (Str.mem (key y) seen); [eauto |].
  destruct H; eauto.
Qed.

Lemma dedup_by_covers (l : list A) : forall seen x,
  In x l -> In (key x) seen \/ exists y, In y (dedup_by key seen l) /\ key y = key x.
Proof.
  induction l as [| y l IH]; simpl; intros seen x H; [tauto |].
  destruct (Str.mem (key y) seen) eqn:E.
  - destruct H as [<- | H]; auto. left. now apply str_mem_iff.
  - destruct H as [<- | H].
    + right. exists y. simpl. auto.
    + destruct (IH (key y :: seen) x H) as [[Hk | Hk] | [z [Hz Hk]]].
      * right. exists y. simpl. auto.
      * now left.
      * right. exists z. simpl. auto.
Qed.

(** The loop with a result list and a [seen] set computes [dedup_by]. *)
Lemma dedup_loop (skip : A -> bool) (l : list A) : forall out seen,
  fold_left (fun st x =>
               if skip x then st
               else if Str.mem (key x) (snd st) then st
               else ((fst st ++ [x])%list, key x :: snd st)) l (out, seen)
  = ((out ++ dedup_by key seen (filter (fun x => negb (skip x)) l))%list,
     (rev (map key (dedup_by key seen (filter (fun x => negb (skip x)) l))) ++ seen)%list).
Proof.
  induction l as [| y l IH]; simpl; intros out seen.
  - now rewrite app_nil_r.
  - destruct (skip y); simpl; auto.
    destruct (Str.mem (key y) seen) eqn:E; simpl; auto.
    rewrite IH. simpl. rewrite <- !app_assoc. reflexivity.
Qed.
End DedupFacts.

Lemma fold_left_flat_map (A B S : Type) (f : S -> B -> S) (g : A -> list B)
    (l : list A) : forall s,
  fold_left (fun st v => fold_left f (g v) st) l s = fold_left f (flat_map g l) s.
Proof.
  induction l as [| x l IH]; simpl; intros s; auto.
  now rewrite fold_left_app, IH.
Qed.

(** ** Stripping *)

Lemma lstrip_first s c :
  first_char (Str.lstrip s) = Some c -> Str.is_space c = false.
Proof.
  induction s as [| a s IH]; simpl; [discriminate |].
  destruct (Str.is_space a) eqn:E; auto.
  simpl. intros [= <-]. auto.
Qed.

Lemma rstrip_last s c :
  last_char (Str.rstrip s) = Some c -> Str.is_space c = false.
Proof.
  revert c. induction s as [| a s IH]; simpl; intros c; [discriminate |].
  destruct (Str.rstrip s) as [| b r] eqn:E.
  - destruct (Str.is_space a) eqn:Ea; simpl; [discriminate |].
    intros [= <-]. auto.
  - intros H. apply IH. exact H.
Qed.

Lemma rstrip_first s c :
  first_char (Str.rstrip s) = Some c -> first_char s = Some c.
Proof.
  destruct s as [| a s]; simpl; auto.
  destruct (Str.rstrip s) as [| b r]; [| auto].
  destruct (Str.is_space a); simpl; [discriminate | auto].
Qed.

Lemma strip_no_outer_space s : no_outer_space (Str.strip s).
Proof.
  unfold no_outer_space, Str.strip. split; intros c H.
  - apply rstrip_first in H. eapply lstrip_first; eauto.
  - eapply rstrip_last; eauto.
Qed.

(* ================================================================= *)
(** * The claims of the specification *)

Section ScalarAndArray.
Context {rt : Runtime}.

(* --------------------------------------------------------------- *)
(** ** The empty list of partial records *)

Lemma aggregate_empty (schema : dict) (technical filetype_guess : value) :
  aggregate_chunk_dicts [] schema technical filetype_guess =
  Ok ((if Dict.mem "technical" (_schema_properties schema) && negb (is_none technical)
       then [("technical", technical)] else [])
      ++ (if Dict.mem "filetype" (_schema_properties schema)
             && negb (is_none filetype_guess)
          then [("filetype", filetype_guess)] else []))%list.
Proof.
  unfold aggregate_chunk_dicts.
  destruct (Dict.mem "technical" _ && _), (Dict.mem "filetype" _ && _); reflexivity.
Qed.

(** C5: with no partial record the result holds the key "technical"
    when the schema declares it and metadata is supplied, then the key
    "filetype" when declared and a guess is supplied, and nothing else;
    for a schema declaring both, metadata [{"sha256": "abc"}] and the
    guess ["pdf"], it is exactly these two bindings. *)
Theorem aggregate_empty_list (schema : dict) (technical filetype_guess : value) :
  let props := _schema_properties schema in
  aggregate_chunk_dicts [] schema technical filetype_guess =
    Ok ((if Dict.mem "technical" props && negb (is_none technical)
         then [("technical", technical)] else [])
        ++ (if Dict.mem "filetype" props && negb (is_none filetype_guess)
            then [("filetype", filetype_guess)] else []))%list
  /\ (forall k out,
        aggregate_chunk_dicts [] schema technical filetype_guess = Ok out ->
        In k (Dict.keys out) ->
        k = "technical" /\ Dict.mem "technical" props = true /\ is_none technical = false
        \/ k = "filetype" /\ Dict.mem "filetype" props = true
           /\ is_none filetype_guess = false)
  /\ aggregate_chunk_dicts [] schema_tf (VDict [("sha256", VStr "abc")]) (VStr "pdf")
     = Ok [("technical", VDict [("sha256", VStr "abc")]); ("filetype", VStr "pdf")].
Proof.
  intros props. split; [apply aggregate_empty | split; [| reflexivity]].
  intros k out H Hk. rewrite aggregate_empty in H. fold props in H.
  inversion H; subst out. clear H.
  destruct (Dict.mem "technical" props) eqn:Et, (is_none technical) eqn:Nt;
    destruct (Dict.mem "filetype" props) eqn:Ef, (is_none filetype_guess) eqn:Nf;
    simpl in Hk; intuition.
Qed.

(* --------------------------------------------------------------- *)
(** ** String fields *)

Lemma stripped_strings_cons v values :
  stripped_strings (v :: values) =
  if is_candidate v then Str.strip (str_of v) :: stripped_strings values
  else stripped_strings values.
Proof.
  unfold stripped_strings, is_candidate. simpl.
  destruct (is_str v && _); reflexivity.
Qed.

Lemma merge_strings_first values n :
  _merge_strings values "first" n =
  match find is_candidate values with
  | Some v => VStr (Str.strip (str_of v))
  | None => VNone
  end.
Proof.
  unfold _merge_strings.
  induction values as [| v values IH].
  - reflexivity.
  - rewrite stripped_strings_cons. simpl find.
    destruct (is_candidate v); [reflexivity | exact IH].
Qed.

Lemma find_split (A : Type) (p : A -> bool) (l : list A) x :
  find p l = Some x ->
  exists pre post, l = (pre ++ x :: post)%list /\ p x = true
                   /\ Forall (fun y => p y = false) pre.
Proof.
  induction l as [| y l IH]; simpl; [discriminate |].
  destruct (p y) eqn:E.
  - intros [= <-]. exists [], l. auto.
  - intros H. destruct (IH H) as [pre [post [-> [Hp Hpre]]]].
    exists (y :: pre), post. auto.
Qed.

Lemma string_dispatch key ps values t :
  _schema_type (VDict ps) = Ok t -> eq_str t "string" = true ->
  merge_values key ps values =
  Ok (_merge_strings values
        (if Str.mem key concat_fields then "concat" else "first") 1600).
Proof.
  intros Ht Hs. unfold merge_values. rewrite Ht. simpl. now rewrite Hs.
Qed.

(** C10: a string field outside the prose names gets the first
    candidate in chunk order, where the candidates are the values that
    are strings and are not blank, each one stripped; a value that is
    not a string is skipped wherever it stands, and a result that is
    not null has no whitespace at either end. *)
Theorem first_policy_string (chunk_dicts : list dict) (key : string) (ps : dict)
    (t : value) :
  _schema_type (VDict ps) = Ok t -> eq_str t "string" = true ->
  Str.mem key concat_fields = false ->
  let values := map (get_or_none key) chunk_dicts in
  merge_field chunk_dicts key (VDict ps) = Ok (_merge_strings values "first" 1600)
  /\ (forall v rest, is_str v = false ->
        _merge_strings (v :: rest) "first" 1600 = _merge_strings rest "first" 1600)
  /\ (_merge_strings values "first" 1600 = VNone
      /\ Forall (fun v => is_candidate v = false) values
      \/ exists pre s post,
           values = (pre ++ VStr s :: post)%list
           /\ Forall (fun v => is_candidate v = false) pre
           /\ Str.strip s <> ""
           /\ _merge_strings values "first" 1600 = VStr (Str.strip s)
           /\ no_outer_space (Str.strip s)).
Proof.
  intros Ht Hs Hk values. split; [| split].
  - unfold merge_field. fold values.
    rewrite (string_dispatch key ps values t Ht Hs). now rewrite Hk.
  - intros v rest Hv. rewrite !merge_strings_first. simpl.
    unfold is_candidate at 1. now rewrite Hv.
  - rewrite merge_strings_first.
    destruct (find is_candidate values) as [v |] eqn:E; [right | left].
    2: { split; [reflexivity |]. apply Forall_forall. intros x Hx.
         now apply (find_none _ _ E). }
    destruct (find_split _ _ _ _ E) as [pre [post [Hv [Hc Hpre]]]].
    unfold is_candidate in Hc. apply andb_true_iff in Hc. destruct Hc as [Hc1 Hc2].
    destruct v; try discriminate. simpl in *.
    exists pre, s, post. repeat split; auto.
    + intros Hempty. rewrite Hempty in Hc2. discriminate.
    + apply strip_no_outer_space.
    + apply strip_no_outer_space.
Qed.

Lemma concat_loop (ss : list string) :
  fst (fold_left concat_step ss ([], [])) = dedup_by (Str.take 120) [] ss.
Proof.
  pose proof (dedup_loop string (Str.take 120) (fun _ => false) ss [] []) as H.
  simpl in H.
  replace (filter (fun _ : string => true) ss) with ss in H.
  - unfold concat_step.
    match goal with
    | H : ?l = _ |- fst ?r = _ => replace r with l; [rewrite H; reflexivity |]
    end.
    reflexivity.
  - clear H. induction ss; simpl; congruence.
Qed.

Lemma merge_strings_concat values :
  _merge_strings values "concat" 1600 =
  match stripped_strings values with
  | [] => VNone
  | ss => VStr (concat_spec ss)
  end.
Proof.
  unfold _merge_strings, concat_spec.
  destruct (stripped_strings values) as [| s ss] eqn:E; [reflexivity |].
  simpl String.eqb. cbv iota. now rewrite concat_loop.
Qed.

(** C8: a string field with one of the prose names gets its candidates
    deduplicated by their first 120 characters, joined with a blank
    line and the joined text cut to 1600 characters; two chunks that
    both give ["Hello world."] yield a text with it exactly once. *)
Theorem concat_policy_string (chunk_dicts : list dict) (key : string) (ps : dict)
    (t : value) :
  _schema_type (VDict ps) = Ok t -> eq_str t "string" = true ->
  Str.mem key concat_fields = true ->
  let values := map (get_or_none key) chunk_dicts in
  merge_field chunk_dicts key (VDict ps) =
    Ok (match stripped_strings values with
        | [] => VNone
        | ss => VStr (concat_spec ss)
        end)
  /\ aggregate_chunk_dicts
       [[("description", VStr "Hello world.")]; [("description", VStr "Hello world.")]]
       (schema_of [("description", typed "string")]) VNone VNone
     = Ok [("description", VStr "Hello world.")]
  /\ occurrences "Hello world." "Hello world." = 1.
Proof.
  intros Ht Hs Hk values. split; [| split; reflexivity].
  unfold merge_field. fold values.
  rewrite (string_dispatch key ps values t Ht Hs), Hk.
  now rewrite merge_strings_concat.
Qed.

(* --------------------------------------------------------------- *)
(** ** Arrays *)

Lemma coerce_string s :
  _coerce_to_list (VStr s) =
  if String.eqb (Str.strip s) "" then []
  else if looks_like_json (Str.strip s) then
    match json_loads (Str.strip s) with
    | Some (VList parsed) => parsed
    | Some (VDict parsed) => [VDict parsed]
    | _ => [VStr (Str.strip s)]
    end
  else [VStr (Str.strip s)].
Proof. reflexivity. Qed.

(** C6 (amended): null coerces to the empty list, a list is kept as it
    is, an object becomes a one-element list, a blank string becomes
    the empty list, any other string is stripped and becomes a
    one-element list unless it starts with a bracket or a brace and
    parses as JSON to a list (taken as it is) or to an object
    (wrapped); every other scalar, a number or a boolean, coerces to
    the empty list.  These cases determine the result. *)
Theorem coerce_to_list_cases (v : value) :
  coerced v (_coerce_to_list v)
  /\ forall l, coerced v l -> l = _coerce_to_list v.
Proof.
  split.
  - destruct v; try (now constructor).
    rewrite coerce_string.
    destruct (String.eqb (Str.strip s) "") eqn:E.
    + apply String.eqb_eq in E. now constructor.
    + apply String.eqb_neq in E.
      destruct (looks_like_json (Str.strip s)) eqn:J.
      * destruct (json_loads (Str.strip s)) as [[| | | | | l | d] |] eqn:P;
          try (apply coerced_text; [assumption | right; split; congruence]).
        -- now apply coerced_json_list.
        -- now apply coerced_json_object.
      * apply coerced_text; auto.
  - intros l H.
    inversion H as [ | l0 | d0 | v0 Hnb | s0 Hs | s0 l0 Hs J P | s0 d0 Hs J P
                   | s0 Hs J ]; subst; try reflexivity.
    + destruct v; try discriminate; reflexivity.
    + rewrite coerce_string. now rewrite Hs.
    + rewrite coerce_string. apply String.eqb_neq in Hs. now rewrite Hs, J, P.
    + rewrite coerce_string. apply String.eqb_neq in Hs. now rewrite Hs, J, P.
    + rewrite coerce_string. apply String.eqb_neq in Hs. rewrite Hs.
      destruct J as [J | [J1 J2]].
      * now rewrite J.
      * destruct (looks_like_json (Str.strip s0)); [| reflexivity].
        destruct (json_loads (Str.strip s0)) as [[| | | | | l' | d'] |] eqn:P;
          try reflexivity.
        -- now destruct (J1 l').
        -- now destruct (J2 d').
Qed.

Lemma scalars_loop values : _merge_array_of_scalars values = scalars_spec values.
Proof.
  unfold _merge_array_of_scalars, scalars_spec, flattened.
  rewrite fold_left_flat_map.
  pose proof (dedup_loop value scalar_key is_none
                (flat_map _coerce_to_list values) [] []) as H.
  unfold scalars_step.
  match goal with
  | H : ?l = _ |- fst ?r = _ => change r with l; rewrite H
  end.
  reflexivity.
Qed.

(** C7: an array field whose items are not declared as objects gets
    the items of all chunks' coerced arrays in chunk order, without the
    nulls and without a second item of the same canonical key: the keys
    of the result are pairwise distinct, every item of the result is an
    item of a chunk, every item of a chunk has its key in the result;
    the chunk values ["x","y"] and ["y","z"] give ["x","y","z"]. *)
Theorem scalar_array_merge (chunk_dicts : list dict) (key : string) (ps : dict)
    (t it : value) :
  _schema_type (VDict ps) = Ok t -> eq_str t "array" = true ->
  _schema_type (VDict (_schema_items_schema ps)) = Ok it ->
  eq_str it "object" = false ->
  let values := map (get_or_none key) chunk_dicts in
  merge_field chunk_dicts key (VDict ps) = Ok (VList (scalars_spec values))
  /\ (forall item, scalar_key item =
                   if is_dict item || is_list item then Json.dumps item
                   else py_str item)
  /\ NoDup (map scalar_key (scalars_spec values))
  /\ (forall x, In x (scalars_spec values) ->
        In x (flattened values) /\ is_none x = false)
  /\ (forall x, In x (flattened values) -> is_none x = false ->
        exists y, In y (scalars_spec values) /\ scalar_key y = scalar_key x)
  /\ aggregate_chunk_dicts
       [[("tags", VList [VStr "x"; VStr "y"])]; [("tags", VList [VStr "y"; VStr "z"])]]
       (schema_of [("tags", VDict [("type", VStr "array"); ("items", typed "string")])])
       VNone VNone
     = Ok [("tags", VList [VStr "x"; VStr "y"; VStr "z"])].
Proof.
  intros Ht Ha Hit Hobj values. repeat split.
  - unfold merge_field. fold values. unfold merge_values. rewrite Ht. simpl.
    destruct t; try discriminate. simpl in Ha. apply String.eqb_eq in Ha. subst s.
    simpl. unfold _merge_arrays. rewrite Hit. simpl. rewrite Hobj.
    simpl. now rewrite scalars_loop.
  - apply dedup_by_NoDup.
  - apply dedup_by_incl in H. apply filter_In in H. tauto.
  - apply dedup_by_incl in H. apply filter_In in H.
    destruct H as [_ H]. now destruct (is_none x).
  - intros x Hx Hn.
    destruct (dedup_by_covers value scalar_key
                (filter (fun item => negb (is_none item)) (flattened values)) [] x)
      as [[] | H].
    + apply filter_In. split; auto. now rewrite Hn.
    + exact H.
Qed.

End ScalarAndArray.

Section TopLevel.
Context {rt : Runtime}.

(* --------------------------------------------------------------- *)
(** ** The loop over the properties and the post-pass *)

Lemma merge_fields_keys chunk_dicts (props : dict) : forall out0 out,
  foldM (fun out kp =>
           v <- merge_field chunk_dicts (fst kp) (snd kp) ;;
           Ok (Dict.set (fst kp) v out)) props out0 = Ok out ->
  (forall k, In k (Dict.keys out) <-> In k (Dict.keys out0) \/ In k (Dict.keys props))
  /\ (NoDup (Dict.keys out0) -> NoDup (Dict.keys out))
  /\ (NoDup (Dict.keys out0 ++ Dict.keys props) ->
      Dict.keys out = (Dict.keys out0 ++ Dict.keys props)%list).
Proof.
  induction props as [| [k0 ps] props IH]; simpl; intros out0 out H.
  - inversion H; subst. rewrite app_nil_r. repeat split; tauto.
  - destruct (merge_field chunk_dicts k0 ps) as [v | e]; simpl in H; [| discriminate].
    apply IH in H. destruct H as [Hin [Hnd Heq]]. repeat split.
    + intros Hk. apply Hin in Hk. rewrite DictFacts.in_keys_set in Hk.
      simpl. intuition (subst; auto).
    + intros Hk. apply Hin. rewrite DictFacts.in_keys_set.
      simpl in Hk. intuition (subst; auto).
    + intros H0. apply Hnd. now apply DictFacts.NoDup_keys_set.
    + intros H0. rewrite Heq.
      * rewrite DictFacts.keys_set_absent.
        -- now rewrite <- app_assoc.
        -- apply NoDup_remove_2 in H0. rewrite in_app_iff in H0. tauto.
      * rewrite DictFacts.keys_set_absent.
        -- rewrite <- app_assoc. simpl.
           replace (Dict.keys out0 ++ k0 :: Dict.keys props)%list
             with (Dict.keys out0 ++ k0 :: map fst props)%list by reflexivity.
           exact H0.
        -- apply NoDup_remove_2 in H0. rewrite in_app_iff in H0. tauto.
Qed.

Lemma drop_extras_id (props out : dict) :
  incl (Dict.keys out) (Dict.keys props) -> drop_extras props out = out.
Proof.
  unfold drop_extras. induction out as [| [k v] out IH]; simpl; intros H; auto.
  assert (Hk : Dict.mem k props = true).
  { apply DictFacts.mem_iff. apply H. now left. }
  rewrite Hk. f_equal. apply IH. intros x Hx. apply H. now right.
Qed.

Lemma keys_inject_technical props technical out :
  incl (Dict.keys props) (Dict.keys out) ->
  Dict.keys (inject_technical props technical out) = Dict.keys out.
Proof.
  intros H. unfold inject_technical.
  destruct (Dict.mem "technical" props) eqn:E; simpl; auto.
  destruct (negb _ && negb _); auto.
  apply DictFacts.keys_set_present. apply H. now apply DictFacts.mem_iff.
Qed.

Lemma keys_inject_filetype props filetype_guess out :
  incl (Dict.keys props) (Dict.keys out) ->
  Dict.keys (inject_filetype props filetype_guess out) = Dict.keys out.
Proof.
  intros H. unfold inject_filetype.
  destruct (Dict.mem "filetype" props) eqn:E; simpl; auto.
  destruct (negb _ && negb _); auto.
  apply DictFacts.keys_set_present. apply H. now apply DictFacts.mem_iff.
Qed.

Lemma get_inject_technical props technical out k :
  Dict.get k (inject_technical props technical out) =
  if String.eqb k "technical"
     && (Dict.mem "technical" props
         && negb (is_dict (get_or_none "technical" out))
         && negb (is_none technical))
  then Some technical else Dict.get k out.
Proof.
  unfold inject_technical.
  destruct (Dict.mem "technical" props && _ && _).
  - rewrite DictFacts.get_set. now rewrite andb_true_r.
  - now rewrite andb_false_r.
Qed.

Lemma get_inject_filetype props filetype_guess out k :
  Dict.get k (inject_filetype props filetype_guess out) =
  if String.eqb k "filetype"
     && (Dict.mem "filetype" props
         && negb (truthy (get_or_none "filetype" out))
         && negb (is_none filetype_guess))
  then Some filetype_guess else Dict.get k out.
Proof.
  unfold inject_filetype.
  destruct (Dict.mem "filetype" props && _ && _).
  - rewrite DictFacts.get_set. now rewrite andb_true_r.
  - now rewrite andb_false_r.
Qed.

Lemma aggregate_nonempty c cs schema technical filetype_guess merged :
  merge_fields (c :: cs) (_schema_properties schema) = Ok merged ->
  aggregate_chunk_dicts (c :: cs) schema technical filetype_guess =
    Ok (inject_filetype (_schema_properties schema) filetype_guess
          (inject_technical (_schema_properties schema) technical merged))
  /\ (forall k, In k (Dict.keys merged) <-> In k (Dict.keys (_schema_properties schema)))
  /\ NoDup (Dict.keys merged)
  /\ (NoDup (Dict.keys (_schema_properties schema)) ->
      Dict.keys merged = Dict.keys (_schema_properties schema)).
Proof.
  intros Hm. pose proof Hm as Hk. unfold merge_fields in Hk.
  apply merge_fields_keys in Hk. simpl in Hk. destruct Hk as [Hin [Hnd Heq]].
  assert (Hin' : forall k, In k (Dict.keys merged)
                           <-> In k (Dict.keys (_schema_properties schema))).
  { intros k. rewrite Hin. tauto. }
  repeat split; try (apply Hin'; assumption); auto.
  - unfold aggregate_chunk_dicts. rewrite Hm. simpl. f_equal.
    apply drop_extras_id. intros k Hk.
    rewrite keys_inject_filetype in Hk.
    + rewrite keys_inject_technical in Hk; [now apply Hin' |].
      intros x Hx. now apply Hin'.
    + rewrite keys_inject_technical; intros x Hx; now apply Hin'.
  - apply Hnd. constructor.
Qed.

(** C9: for a non-empty list of partial records, after the per-field
    merge the technical metadata is the value of "technical" exactly
    when the schema declares that field, the merged value is not an
    object and metadata is supplied; the filetype guess is the value of
    "filetype" exactly when the schema declares that field, the merged
    value is falsy and a guess is supplied; otherwise these two fields,
    and in every case all other fields and the keys, are as merged. *)
Theorem post_pass_injection (c : dict) (cs : list dict) (schema : dict)
    (technical filetype_guess : value) (merged : dict) :
  let props := _schema_properties schema in
  merge_fields (c :: cs) props = Ok merged ->
  let inject_t := Dict.mem "technical" props
                  && negb (is_dict (get_or_none "technical" merged))
                  && negb (is_none technical) in
  let inject_f := Dict.mem "filetype" props
                  && negb (truthy (get_or_none "filetype" merged))
                  && negb (is_none filetype_guess) in
  exists out,
    aggregate_chunk_dicts (c :: cs) schema technical filetype_guess = Ok out
    /\ Dict.keys out = Dict.keys merged
    /\ Dict.get "technical" out =
         (if inject_t then Some technical else Dict.get "technical" merged)
    /\ Dict.get "filetype" out =
         (if inject_f then Some filetype_guess else Dict.get "filetype" merged)
    /\ forall k, k <> "technical" -> k <> "filetype" ->
                 Dict.get k out = Dict.get k merged.
Proof.
  intros props Hm inject_t inject_f.
  destruct (aggregate_nonempty c cs schema technical filetype_guess merged Hm)
    as [Hagg [Hin _]].
  fold props in Hagg, Hin.
  exists (inject_filetype props filetype_guess (inject_technical props technical merged)).
  assert (Hincl : incl (Dict.keys props) (Dict.keys merged)).
  { intros k Hk. now apply Hin. }
  repeat split; auto.
  - rewrite keys_inject_filetype.
    + now apply keys_inject_technical.
    + now rewrite keys_inject_technical.
  - rewrite get_inject_filetype, get_inject_technical. simpl. reflexivity.
  - rewrite get_inject_filetype. simpl.
    unfold get_or_none at 1. rewrite get_inject_technical. simpl.
    reflexivity.
  - intros k Ht Hf. rewrite get_inject_filetype, get_inject_technical.
    apply String.eqb_neq in Ht, Hf. now rewrite Ht, Hf.
Qed.

(** C1 (amended): the keys of a returned record are pairwise distinct
    and are all declared property names, whatever the input.  For a
    non-empty list of partial records every declared property name is a
    key of the record, in the order of the schema; for the empty list
    the keys are among "technical" and "filetype". *)
Theorem aggregate_key_set (chunk_dicts : list dict) (schema : dict)
    (technical filetype_guess : value) (out : dict) :
  aggregate_chunk_dicts chunk_dicts schema technical filetype_guess = Ok out ->
  let props := _schema_properties schema in
  NoDup (Dict.keys out)
  /\ incl (Dict.keys out) (Dict.keys props)
  /\ (chunk_dicts = [] /\ incl (Dict.keys out) ["technical"; "filetype"]
      \/ chunk_dicts <> []
         /\ incl (Dict.keys props) (Dict.keys out)
         /\ (NoDup (Dict.keys props) -> Dict.keys out = Dict.keys props)).
Proof.
  intros H props. destruct chunk_dicts as [| c cs].
  - rewrite aggregate_empty in H. fold props in H. inversion H; subst. clear H.
    destruct (Dict.mem "technical" props && _) eqn:Et;
      destruct (Dict.mem "filetype" props && _) eqn:Ef; simpl.
    + apply andb_true_iff in Et, Ef. destruct Et as [Et _], Ef as [Ef _].
      apply DictFacts.mem_iff in Et, Ef. repeat split.
      * repeat constructor; simpl; intuition discriminate.
      * intros k [<- | [<- | []]]; auto.
      * left. split; auto. intros k Hk. exact Hk.
    + apply andb_true_iff in Et. destruct Et as [Et _].
      apply DictFacts.mem_iff in Et. repeat split.
      * repeat constructor; simpl; tauto.
      * intros k [<- | []]; auto.
      * left. split; auto. intros k [<- | []]; simpl; auto.
    + apply andb_true_iff in Ef. destruct Ef as [Ef _].
      apply DictFacts.mem_iff in Ef. repeat split.
      * repeat constructor; simpl; tauto.
      * intros k [<- | []]; auto.
      * left. split; auto. intros k [<- | []]; simpl; auto.
    + repeat split.
      * constructor.
      * intros k [].
      * left. split; auto. intros k [].
  - unfold aggregate_chunk_dicts in H. fold props in H.
    destruct (merge_fields (c :: cs) props) as [merged | e] eqn:Hm;
      simpl in H; [| discriminate].
    destruct (aggregate_nonempty c cs schema technical filetype_guess merged Hm)
      as [Hagg [Hin [Hnd Heq]]].
    fold props in Hagg, Hin, Heq.
    assert (Hout : out = inject_filetype props filetype_guess
                           (inject_technical props technical merged)).
    { unfold aggregate_chunk_dicts in Hagg. fold props in Hagg.
      rewrite Hm in Hagg. simpl in Hagg. congruence. }
    assert (Hincl : incl (Dict.keys props) (Dict.keys merged)).
    { intros k Hk. now apply Hin. }
    assert (Hkeys : Dict.keys out = Dict.keys merged).
    { rewrite Hout, keys_inject_filetype.
      - now apply keys_inject_technical.
      - now rewrite keys_inject_technical. }
    rewrite Hkeys. split; [exact Hnd | split].
    + intros k Hk. now apply Hin.
    + right. split; [discriminate | split; auto].
Qed.

End TopLevel.

(* ================================================================= *)
(** ** Deep merge *)

Section DeepMerge.

Lemma deep_merge_value_dict (a b : dict) :
  deep_merge_value (VDict a) (VDict b) = VDict (_deep_merge_objects a b).
Proof.
  unfold _deep_merge_objects. simpl. f_equal.
  revert a. induction b as [| [k v] b IH]; intros a; simpl; auto.
Qed.

Lemma deep_merge_value_other (o v : value) :
  is_dict o && is_dict v = false -> deep_merge_value o v = o.
Proof. destruct o, v; simpl; intros H; try reflexivity; discriminate. Qed.

Lemma get_deep_merge_item (out : dict) (k k' : string) (v : value) :
  Dict.get k' (deep_merge_item deep_merge_value out k v) =
  if String.eqb k' k then Some (merged_value (Dict.get k out) v)
  else Dict.get k' out.
Proof.
  unfold deep_merge_item, merged_value.
  destruct (Dict.get k out) as [o |] eqn:E.
  - destruct (in_empties o).
    + apply DictFacts.get_set.
    + destruct (is_dict o && is_dict v).
      * apply DictFacts.get_set.
      * destruct (String.eqb k' k) eqn:Ek; auto.
        apply String.eqb_eq in Ek. now subst.
  - apply DictFacts.get_set.
Qed.

Lemma get_deep_merge (b : dict) : forall (a : dict) (k : string),
  NoDup (Dict.keys b) ->
  Dict.get k (_deep_merge_objects a b) =
  match Dict.get k b with
  | None => Dict.get k a
  | Some v => Some (merged_value (Dict.get k a) v)
  end.
Proof.
  unfold _deep_merge_objects.
  induction b as [| [k0 v0] b IH]; intros a k Hnd; simpl; auto.
  inversion Hnd as [| ? ? Hni Hnd']; subst.
  rewrite IH by assumption. rewrite get_deep_merge_item.
  destruct (String.eqb k k0) eqn:E.
  - apply String.eqb_eq in E. subst k0.
    apply DictFacts.get_none_iff in Hni. now rewrite Hni.
  - reflexivity.
Qed.

Lemma deep_merge_preserved (v : value) :
  forall o, value_wf v -> preserved o (deep_merge_value o v).
Proof.
  induction v as [| | | | | l IH | b IH] using value_ind; intros o Hwf;
    try (rewrite deep_merge_value_other;
         [apply preserved_same | destruct o; reflexivity]).
  destruct o as [| | | | | | a];
    try (rewrite deep_merge_value_other; [apply preserved_same | reflexivity]).
  rewrite deep_merge_value_dict.
  inversion Hwf as [| | | | | | ? Hnd Hvals]; subst.
  apply preserved_dict. intros k va Hk.
  rewrite get_deep_merge by assumption. rewrite Hk.
  destruct (Dict.get k b) as [v |] eqn:Eb.
  - exists (merged_value (Some va) v). split; auto.
    unfold merged_value.
    destruct (in_empties va) eqn:Ee; [now apply preserved_gap |].
    destruct (is_dict va && is_dict v) eqn:Ed; [| apply preserved_same].
    apply DictFacts.get_in in Eb.
    rewrite Forall_forall in IH, Hvals.
    apply (IH (k, v) Eb). apply (Hvals (k, v) Eb).
  - exists va. split; auto. apply preserved_same.
Qed.

(** C2: in the deep merge of [a] and [b], a key that only [b] has
    takes [b]'s value and a key that only [a] has keeps [a]'s; for a
    key of both, [b]'s value is taken when [a]'s is a gap, two objects
    are merged recursively, and [a]'s value is kept otherwise.  So the
    result preserves [a] at every depth, and so does every further
    chunk merged into the running result of [_merge_objects]. *)
Theorem deep_merge_fills_gaps (a b : dict) :
  dict_wf b ->
  let r := _deep_merge_objects a b in
  (forall k, Dict.get k b = None -> Dict.get k r = Dict.get k a)
  /\ (forall k vb, Dict.get k a = None -> Dict.get k b = Some vb ->
        Dict.get k r = Some vb)
  /\ (forall k va vb, Dict.get k a = Some va -> Dict.get k b = Some vb ->
        in_empties va = true -> Dict.get k r = Some vb)
  /\ (forall k da db, Dict.get k a = Some (VDict da) ->
        Dict.get k b = Some (VDict db) -> da <> [] ->
        Dict.get k r = Some (VDict (_deep_merge_objects da db)))
  /\ (forall k va vb, Dict.get k a = Some va -> Dict.get k b = Some vb ->
        in_empties va = false -> is_dict va && is_dict vb = false ->
        Dict.get k r = Some va)
  /\ preserved (VDict a) (VDict r)
  /\ (forall values,
        preserved (VDict (_merge_objects values))
          (VDict (_merge_objects (values ++ [VDict b])))).
Proof.
  intros Hwf r. pose proof Hwf as Hwf'.
  inversion Hwf' as [| | | | | | ? Hnd Hvals]; subst.
  subst r. repeat split.
  - intros k Hb. rewrite get_deep_merge by assumption. now rewrite Hb.
  - intros k vb Ha Hb. rewrite get_deep_merge by assumption.
    now rewrite Hb, Ha.
  - intros k va vb Ha Hb He. rewrite get_deep_merge by assumption.
    rewrite Hb, Ha. simpl. now rewrite He.
  - intros k da db Ha Hb Hne. rewrite get_deep_merge by assumption.
    rewrite Hb, Ha. unfold merged_value. rewrite deep_merge_value_dict.
    destruct da; [congruence | reflexivity].
  - intros k va vb Ha Hb He Hd. rewrite get_deep_merge by assumption.
    rewrite Hb, Ha. simpl. now rewrite He, Hd.
  - rewrite <- deep_merge_value_dict. now apply deep_merge_preserved.
  - intros values. unfold _merge_objects. rewrite fold_left_app. simpl.
    rewrite <- deep_merge_value_dict. now apply deep_merge_preserved.
Qed.

End DeepMerge.

(* ================================================================= *)
(** ** Running to completion *)

Section Totality.
Context {rt : Runtime}.

Lemma schema_type_dict (ps : dict) : _schema_type (VDict ps) = Ok (dict_type ps).
Proof.
  unfold _schema_type, dict_type. destruct ps as [| kv ps]; [reflexivity |].
  change (truthy (VDict (kv :: ps))) with true. cbv iota.
  unfold bind. now destruct (get_or_none "type" (kv :: ps)).
Qed.

Lemma schema_type_like (s : value) :
  schema_like s = true -> exists t, _schema_type s = Ok t.
Proof.
  unfold schema_like, _schema_type. intros H.
  destruct (truthy s) eqn:E.
  - destruct s; try discriminate. simpl. eauto.
  - simpl. eauto.
Qed.

Lemma is_simple_type_like (s : value) :
  schema_like s = true -> exists b, _is_simple_type s = Ok b.
Proof.
  intros H. destruct (schema_type_like s H) as [t Ht].
  unfold _is_simple_type. rewrite Ht. simpl. eauto.
Qed.

Lemma filterM_ok (A : Type) (p : A -> result bool) (l : list A) :
  (forall x, In x l -> exists b, p x = Ok b) -> exists r, filterM p l = Ok r.
Proof.
  induction l as [| x l IH]; simpl; intros H; eauto.
  destruct (H x) as [b Hb]; auto. rewrite Hb. simpl.
  destruct IH as [r Hr]; auto. rewrite Hr. simpl. eauto.
Qed.

Lemma foldM_ok (A S : Type) (f : S -> A -> result S) (l : list A) :
  (forall x s, In x l -> exists s', f s x = Ok s') ->
  forall s, exists r, foldM f l s = Ok r.
Proof.
  induction l as [| x l IH]; simpl; intros H s; eauto.
  destruct (H x s) as [s' Hs]; auto. rewrite Hs. simpl. apply IH. auto.
Qed.

Lemma get_or_empty_like (props : dict) (k : string) :
  Forall (fun kv => schema_like (snd kv) = true) props ->
  schema_like (get_or_empty k props) = true.
Proof.
  intros H. unfold get_or_empty.
  destruct (Dict.get k props) as [s |] eqn:E; [| reflexivity].
  apply DictFacts.get_in in E. rewrite Forall_forall in H. apply (H (k, s) E).
Qed.

Lemma derive_identity_keys_ok (items : dict) :
  items_ok items -> exists keys, _derive_identity_keys items = Ok keys.
Proof.
  intros [Hp Hr]. unfold _derive_identity_keys.
  destruct (_schema_properties items) as [| kv props] eqn:E; [eauto |].
  rewrite <- E in *. clear E kv props.
  set (props := _schema_properties items) in *.
  destruct (filterM_ok string (fun k => _is_simple_type (get_or_empty k props))
              (filter IdHint.search (Dict.keys props))) as [l1 H1].
  { intros k _. apply is_simple_type_like. now apply get_or_empty_like. }
  rewrite H1. simpl. destruct l1; [| eauto].
  destruct (filterM_ok value (required_is_simple props)
              (_schema_required_keys items)) as [l2 H2].
  { intros k Hk. rewrite Forall_forall in Hr. specialize (Hr k Hk).
    destruct k; simpl in *; try discriminate; eauto.
    destruct (Dict.mem s props); eauto.
    apply is_simple_type_like. now apply get_or_empty_like. }
  rewrite H2. simpl. destruct l2; [| eauto].
  destruct (filterM_ok (string * value)
              (fun ks => if is_dict (snd ks) then _is_simple_type (snd ks)
                         else Ok false) props) as [l3 H3].
  { intros [k s] Hk. simpl. destruct (is_dict s) eqn:Ed; eauto.
    apply is_simple_type_like. unfold schema_like. now rewrite Ed. }
  rewrite H3. simpl. eauto.
Qed.

Lemma merge_numbers_ok (values : list value) (mode : string) :
  (forall n, In (VInt n) values -> Float.of_Z n <> None) ->
  exists r, _merge_numbers values mode = Ok r.
Proof.
  intros H. unfold _merge_numbers.
  destruct (foldM_ok value (list Float.t) nums_step values) with (s := @nil Float.t)
    as [nums Hn].
  - intros v nums Hv. destruct v; simpl; eauto.
    + destruct b; simpl; eauto.
    + specialize (H n Hv). destruct (Float.of_Z n); [eauto | congruence].
    + destruct (float_of_string (Str.strip s)); eauto.
  - rewrite Hn. simpl. eauto.
Qed.

Lemma merge_values_ok (key : string) (ps : dict) (values : list value) :
  (eq_str (dict_type ps) "array" = true ->
   eq_str (dict_type (_schema_items_schema ps)) "object" = true ->
   items_ok (_schema_items_schema ps)) ->
  (is_numeric_type (dict_type ps) = true ->
   forall n, In (VInt n) values -> Float.of_Z n <> None) ->
  exists r, merge_values key ps values = Ok r.
Proof.
  intros Hitems Hnums. unfold merge_values. rewrite schema_type_dict. simpl.
  destruct (eq_str (dict_type ps) "string"); [eauto |].
  destruct (eq_str (dict_type ps) "array") eqn:Ea.
  - unfold _merge_arrays. rewrite schema_type_dict. simpl.
    destruct (eq_str (dict_type (_schema_items_schema ps)) "object") eqn:Eo.
    + unfold _merge_array_of_objects.
      destruct (derive_identity_keys_ok (_schema_items_schema ps)) as [keys Hk];
        auto.
      rewrite Hk. simpl. eauto.
    + simpl. eauto.
  - destruct (eq_str (dict_type ps) "object"); [eauto |].
    fold (is_numeric_type (dict_type ps)).
    destruct (is_numeric_type (dict_type ps)) eqn:En.
    + destruct (merge_numbers_ok values "first") as [n Hn]; auto.
      rewrite Hn. simpl. eauto.
    + destruct (eq_str (dict_type ps) "boolean"); eauto.
Qed.

(** The two calls that can raise are [float(v)] on an integer beyond the
    floats and [_is_simple_type] on a property schema of the items that
    is not a dict (or a [required] entry that cannot be a key).  Where
    neither is reached, the aggregator returns. *)
Lemma aggregate_total (chunk_dicts : list dict) (schema : dict)
    (technical filetype_guess : value) :
  items_usable schema -> ints_fit schema chunk_dicts ->
  exists out,
    aggregate_chunk_dicts chunk_dicts schema technical filetype_guess = Ok out.
Proof.
  intros Hitems Hints. destruct chunk_dicts as [| c cs].
  - rewrite aggregate_empty. eauto.
  - unfold aggregate_chunk_dicts.
    set (props := _schema_properties schema).
    assert (Hm : exists m, merge_fields (c :: cs) props = Ok m).
    { unfold merge_fields. apply foldM_ok.
      intros [key s] out Hin. simpl.
      assert (Hv : exists v, merge_field (c :: cs) key s = Ok v).
      { unfold merge_field. apply merge_values_ok.
        - intros Ha Ho. destruct s; try discriminate.
          apply (Hitems key d Hin Ha Ho).
        - intros Hn n Hv. apply in_map_iff in Hv.
          destruct Hv as [d [Hd Hc]].
          apply (Hints key s d n Hin Hn Hc).
          unfold get_or_none in Hd.
          destruct (Dict.get key d); [congruence | discriminate]. }
      destruct Hv as [v Hv]. rewrite Hv. simpl. eauto. }
    destruct Hm as [m Hm]. rewrite Hm. simpl. eauto.
Qed.

(** *** Wrong-typed values *)

Lemma objects_loop_flat (keys : list string) (values : list value) :
  objects_loop keys values = fold_left (objects_step keys) (flattened values) ([], []).
Proof. unfold objects_loop, flattened. apply fold_left_flat_map. Qed.

Lemma merge_arrays_flat (values values' : list value) (items : dict) :
  flattened values = flattened values' ->
  _merge_arrays values items = _merge_arrays values' items.
Proof.
  intros H. unfold _merge_arrays. rewrite schema_type_dict. simpl.
  destruct (eq_str (dict_type items) "object").
  - unfold _merge_array_of_objects.
    destruct (_derive_identity_keys items) as [keys | e]; simpl; [| reflexivity].
    now rewrite !objects_loop_flat, H.
  - rewrite !scalars_loop. unfold scalars_spec. now rewrite H.
Qed.

Lemma eq_str_true (t : value) (s : string) : eq_str t s = true -> t = VStr s.
Proof.
  destruct t; simpl; try discriminate. intros H. apply String.eqb_eq in H.
  now subst.
Qed.



Lemma merge_strings_stripped (values values' : list value) mode n :
  stripped_strings values = stripped_strings values' ->
  _merge_strings values mode n = _merge_strings values' mode n.
Proof. intros H. unfold _merge_strings. now rewrite H. Qed.





End Totality.

(* ================================================================= *)
(** ** Arrays of objects *)

Lemma dedup_by_snoc (A : Type) (key : A -> string) (l : list A) (x : A) :
  forall seen,
  dedup_by key seen (l ++ [x]) =
  (dedup_by key seen l
   ++ (if Str.mem (key x) seen || Str.mem (key x) (map key l) then [] else [x]))%list.
Proof.
  induction l as [| y l IH]; intros seen; simpl.
  - rewrite orb_false_r. now destruct (Str.mem (key x) seen).
  - destruct (Str.mem (key y) seen) eqn:E.
    + rewrite IH. f_equal.
      destruct (Str.mem (key x) seen) eqn:Ex; simpl; [reflexivity |].
      destruct (String.eqb (key x) (key y)) eqn:Exy; simpl; [| reflexivity].
      apply String.eqb_eq in Exy. congruence.
    + simpl. rewrite IH. simpl. f_equal. f_equal.
      rewrite (String.eqb_sym (key x) (key y)).
      destruct (String.eqb (key y) (key x)); simpl.
      * now rewrite orb_true_r.
      * reflexivity.
Qed.

Lemma fold_left_snoc (A S : Type) (f : S -> A -> S) (l : list A) (x : A) (s : S) :
  fold_left f (l ++ [x]) s = f (fold_left f l s) x.
Proof. now rewrite fold_left_app. Qed.

Section Objects.
Context {rt : Runtime}.
Variable keys : list string.

Lemma objects_fold_dicts (items : list value) : forall st,
  fold_left (objects_step keys) items st = fold_left (dict_step keys) (dicts_of items) st.
Proof.
  induction items as [| v items IH]; intros st; simpl; [reflexivity |].
  destruct v; simpl; apply IH.
Qed.

Lemma filter_sig_none (s : string) (objs : list dict) :
  Str.mem s (map (sig_of keys) objs) = false ->
  filter (fun o => String.eqb (sig_of keys o) s) objs = [].
Proof.
  induction objs as [| o objs IH]; simpl; [reflexivity |].
  rewrite (String.eqb_sym s (sig_of keys o)).
  destruct (String.eqb (sig_of keys o) s); simpl; [discriminate | exact IH].
Qed.

Lemma filter_sig_some (s : string) (objs : list dict) :
  Str.mem s (map (sig_of keys) objs) = true ->
  filter (fun o => String.eqb (sig_of keys o) s) objs <> [].
Proof.
  induction objs as [| o objs IH]; simpl; [discriminate |].
  rewrite (String.eqb_sym s (sig_of keys o)).
  destruct (String.eqb (sig_of keys o) s); simpl; [discriminate | exact IH].
Qed.

Lemma group_merge_snoc (s : string) (objs : list dict) (o : dict) :
  group_merge (sig_of keys) s (objs ++ [o]) =
  if String.eqb (sig_of keys o) s then
    if Str.mem s (map (sig_of keys) objs)
    then _deep_merge_objects (group_merge (sig_of keys) s objs) o
    else o
  else group_merge (sig_of keys) s objs.
Proof.
  unfold group_merge. rewrite filter_app. simpl.
  destruct (String.eqb (sig_of keys o) s) eqn:E.
  - destruct (Str.mem s (map (sig_of keys) objs)) eqn:M.
    + apply filter_sig_some in M.
      destruct (filter _ objs) as [| f rest]; [congruence |].
      simpl. now rewrite fold_left_app.
    + apply filter_sig_none in M. now rewrite M.
  - now rewrite app_nil_r.
Qed.

Lemma objects_loop_invariant (objs : list dict) :
  let st := fold_left (dict_step keys) objs ([], []) in
  snd st = dedup_by (fun s => s) [] (map (sig_of keys) objs)
  /\ forall s, Dict.get s (fst st) =
               if Str.mem s (map (sig_of keys) objs)
               then Some (group_merge (sig_of keys) s objs) else None.
Proof.
  induction objs as [| o objs IH] using rev_ind; [simpl; auto |].
  rewrite fold_left_snoc.
  destruct IH as [IHo IHm]. cbv zeta in IHo, IHm |- *.
  destruct (fold_left (dict_step keys) objs ([], [])) as [M O].
  simpl in IHo, IHm.
  unfold dict_step, objects_step. fold (sig_of keys o). simpl fst. simpl snd.
  rewrite map_app. simpl map.
  assert (Hmem : forall s, Str.mem s (map (sig_of keys) objs ++ [(sig_of keys) o])
                           = Str.mem s (map (sig_of keys) objs) || String.eqb s (sig_of keys o)).
  { intros s. unfold Str.mem. rewrite existsb_app. simpl. now rewrite orb_false_r. }
  rewrite dedup_by_snoc. simpl Str.mem at 1. rewrite map_id.
  pose proof (IHm (sig_of keys o)) as Ho.
  destruct (Dict.get (sig_of keys o) M) as [cur |] eqn:Eg.
  - destruct (Str.mem (sig_of keys o) (map (sig_of keys) objs)) eqn:Em; [| discriminate].
    simpl. split; [rewrite app_nil_r; exact IHo |].
    intros s. rewrite DictFacts.get_set, Hmem, group_merge_snoc.
    rewrite (String.eqb_sym (sig_of keys o) s).
    destruct (String.eqb s (sig_of keys o)) eqn:Es.
    + apply String.eqb_eq in Es. subst s. rewrite Em. simpl. congruence.
    + rewrite orb_false_r. apply IHm.
  - destruct (Str.mem (sig_of keys o) (map (sig_of keys) objs)) eqn:Em; [discriminate |].
    simpl. split; [now rewrite IHo |].
    intros s. rewrite DictFacts.get_set, Hmem, group_merge_snoc.
    rewrite (String.eqb_sym (sig_of keys o) s).
    destruct (String.eqb s (sig_of keys o)) eqn:Es.
    + apply String.eqb_eq in Es. subst s. rewrite Em. reflexivity.
    + rewrite orb_false_r. apply IHm.
Qed.

Lemma objects_loop_spec (values : list value) :
  let st := objects_loop keys values in
  map (fun s => VDict (match Dict.get s (fst st) with
                       | Some d => d
                       | None => []
                       end)) (snd st)
  = objects_spec keys values.
Proof.
  intros st. subst st. rewrite objects_loop_flat, objects_fold_dicts.
  destruct (objects_loop_invariant (dicts_of (flattened values))) as [Ho Hm].
  unfold objects_spec. fold (sig_of keys).
  rewrite Ho. apply map_ext_in. intros s Hs.
  rewrite Hm.
  apply dedup_by_incl in Hs. apply str_mem_iff in Hs. now rewrite Hs.
Qed.

End Objects.

(* ================================================================= *)
(** ** Identity signatures *)


Lemma append_inv_head (p a b : string) : p ++ a = p ++ b -> a = b.
Proof. induction p as [| c p IH]; simpl; intros H; [auto | inversion H; auto]. Qed.


Lemma join_cons2 (sep x y : string) (l : list string) :
  Str.join sep (x :: y :: l) = x ++ sep ++ Str.join sep (y :: l).
Proof. reflexivity. Qed.


Section Signature.
Context {rt : Runtime}.
Variable keys : list string.
Variables x y : dict.






End Signature.

(* ================================================================= *)
(** ** The canonical JSON text determines the value *)

Lemma append_assoc (a b c : string) : (a ++ b) ++ c = a ++ (b ++ c).
Proof. induction a as [| x a IH]; simpl; congruence. Qed.

Lemma in_all_ascii (c : ascii) : In c all_ascii.
Proof.
  unfold all_ascii. rewrite <- (ascii_nat_embedding c).
  apply in_map. apply in_seq. pose proof (nat_ascii_bounded c). lia.
Qed.


Lemma is_prefix_of_append (x : string) : forall y a b,
  x ++ a = y ++ b -> is_prefix x y = true \/ is_prefix y x = true.
Proof.
  induction x as [| c x IH]; intros [| d y] a b H; simpl in *; auto.
  inversion H; subst. rewrite Ascii.eqb_refl. simpl. eauto.
Qed.

Lemma escapes_apart_true : escapes_apart = true.
Proof. vm_compute. reflexivity. Qed.

Lemma escape_char_apart (c1 c2 : ascii) (a b : string) :
  Json.escape_char c1 ++ a = Json.escape_char c2 ++ b -> c1 = c2 /\ a = b.
Proof.
  intros H.
  assert (E : c1 = c2).
  { pose proof escapes_apart_true as Hall. unfold escapes_apart in Hall.
    rewrite forallb_forall in Hall.
    destruct (is_prefix_of_append _ _ _ _ H) as [P | P].
    - specialize (Hall c1 (in_all_ascii c1)). rewrite forallb_forall in Hall.
      specialize (Hall c2 (in_all_ascii c2)). rewrite P in Hall.
      now apply Ascii.eqb_eq.
    - specialize (Hall c2 (in_all_ascii c2)). rewrite forallb_forall in Hall.
      specialize (Hall c1 (in_all_ascii c1)). rewrite P in Hall.
      symmetry. now apply Ascii.eqb_eq. }
  subst. split; auto. eapply append_inv_head; eauto.
Qed.

Lemma escape_head_ok_all (c : ascii) : escape_head_ok c = true.
Proof.
  assert (H : forallb escape_head_ok all_ascii = true) by (vm_compute; reflexivity).
  rewrite forallb_forall in H. apply H, in_all_ascii.
Qed.

Lemma escape_apart (s1 : string) : forall s2 r1 r2,
  Json.escape s1 ++ Json.quote ++ r1 = Json.escape s2 ++ Json.quote ++ r2 ->
  s1 = s2 /\ r1 = r2.
Proof.
  induction s1 as [| c1 s1 IH]; intros [| c2 s2] r1 r2 H.
  - simpl in H. inversion H. auto.
  - exfalso. simpl in H. rewrite append_assoc in H.
    pose proof (escape_head_ok_all c2) as Hh. unfold escape_head_ok in Hh.
    destruct (Json.escape_char c2) as [| h t]; [discriminate |].
    simpl in H. inversion H; subst. rewrite Ascii.eqb_refl in Hh. discriminate.
  - exfalso. simpl in H. rewrite append_assoc in H.
    pose proof (escape_head_ok_all c1) as Hh. unfold escape_head_ok in Hh.
    destruct (Json.escape_char c1) as [| h t]; [discriminate |].
    simpl in H. inversion H; subst. rewrite Ascii.eqb_refl in Hh. discriminate.
  - simpl in H. rewrite !append_assoc in H.
    apply escape_char_apart in H. destruct H as [-> H].
    apply IH in H. destruct H as [-> ->]. auto.
Qed.

Lemma encode_string_apart (s1 s2 r1 r2 : string) :
  Json.encode_string s1 ++ r1 = Json.encode_string s2 ++ r2 -> s1 = s2 /\ r1 = r2.
Proof.
  unfold Json.encode_string. intros H.
  rewrite !append_assoc in H. apply append_inv_head in H.
  now apply escape_apart in H.
Qed.

(** *** Integers *)

Lemma delim_not_num (c : ascii) : is_delim c = true -> is_num_char c = false.
Proof.
  unfold is_delim. intros H.
  apply orb_true_iff in H. destruct H as [H | H];
    [apply orb_true_iff in H; destruct H as [H | H] |];
    apply Ascii.eqb_eq in H; subst; reflexivity.
Qed.

Lemma num_split (s1 : string) : forall s2 r1 r2,
  all_num s1 = true -> all_num s2 = true -> terminated r1 -> terminated r2 ->
  s1 ++ r1 = s2 ++ r2 -> s1 = s2 /\ r1 = r2.
Proof.
  induction s1 as [| c s1 IH]; intros [| d s2] r1 r2 N1 N2 T1 T2 H; simpl in *.
  - auto.
  - exfalso. subst r1. simpl in T1. apply delim_not_num in T1.
    apply andb_true_iff in N2. destruct N2. congruence.
  - exfalso. subst r2. simpl in T2. apply delim_not_num in T2.
    apply andb_true_iff in N1. destruct N1. congruence.
  - inversion H; subst. apply andb_true_iff in N1, N2.
    destruct (IH s2 r1 r2) as [-> ->]; tauto.
Qed.

Lemma all_num_uint (d : Decimal.uint) : all_num (NilEmpty.string_of_uint d) = true.
Proof. induction d; simpl; auto. Qed.

Lemma all_num_of_Z (n : Z) : all_num (Str.of_Z n) = true.
Proof.
  unfold Str.of_Z, NilZero.string_of_int, NilZero.string_of_uint.
  destruct (Z.to_int n) as [d | d]; destruct d; simpl; auto using all_num_uint.
Qed.

Lemma of_Z_head (n : Z) :
  exists c s, Str.of_Z n = String c s /\ is_num_char c = true.
Proof.
  pose proof (all_num_of_Z n) as H.
  unfold Str.of_Z, NilZero.string_of_int, NilZero.string_of_uint in *.
  destruct (Z.to_int n) as [d | d]; destruct d; simpl in *;
    try (apply andb_true_iff in H; destruct H); eauto.
Qed.

Lemma to_int_proper (n : Z) : Z.to_int n <> Decimal.Pos Decimal.Nil
                              /\ Z.to_int n <> Decimal.Neg Decimal.Nil.
Proof.
  destruct n; simpl; split; try discriminate;
    intros H; inversion H as [H']; now apply Unsigned.to_uint_nonnil in H'.
Qed.

Lemma of_Z_inj (a b : Z) : Str.of_Z a = Str.of_Z b -> a = b.
Proof.
  unfold Str.of_Z. intros H.
  apply (f_equal NilZero.int_of_string) in H.
  destruct (to_int_proper a), (to_int_proper b).
  rewrite !NilZero.isi in H by assumption.
  inversion H as [H']. apply (f_equal Z.of_int) in H'.
  now rewrite !DecimalZ.of_to in H'.
Qed.

(** *** First characters *)

Lemma num_char_tag (c : ascii) : is_num_char c = true -> char_tag c = 3.
Proof.
  intros H. unfold char_tag.
  destruct (Ascii.eqb c "n") eqn:E1; [apply Ascii.eqb_eq in E1; subst; discriminate |].
  destruct (Ascii.eqb c "t") eqn:E2; [apply Ascii.eqb_eq in E2; subst; discriminate |].
  destruct (Ascii.eqb c "f") eqn:E3; [apply Ascii.eqb_eq in E3; subst; discriminate |].
  now rewrite H.
Qed.

Lemma delim_char_tag (c : ascii) : is_delim c = true -> char_tag c = 7.
Proof.
  unfold is_delim. intros H.
  apply orb_true_iff in H. destruct H as [H | H];
    [apply orb_true_iff in H; destruct H as [H | H] |];
    apply Ascii.eqb_eq in H; subst; reflexivity.
Qed.

(** *** Texts without a delimiter *)

Lemma prefix_split (p : ascii -> bool) (s1 : string) : forall s2 r1 r2,
  all_chars p s1 = true -> all_chars p s2 = true -> stops p r1 -> stops p r2 ->
  s1 ++ r1 = s2 ++ r2 -> s1 = s2 /\ r1 = r2.
Proof.
  induction s1 as [| c s1 IH]; intros [| d s2] r1 r2 N1 N2 T1 T2 H; simpl in *.
  - auto.
  - exfalso. subst r1. simpl in T1.
    apply andb_true_iff in N2. destruct N2. congruence.
  - exfalso. subst r2. simpl in T2.
    apply andb_true_iff in N1. destruct N1. congruence.
  - inversion H; subst. apply andb_true_iff in N1, N2.
    destruct (IH s2 r1 r2) as [-> ->]; tauto.
Qed.

Lemma all_num_chars (s : string) : all_num s = all_chars is_num_char s.
Proof. induction s; simpl; congruence. Qed.

Lemma all_chars_impl (p q : ascii -> bool) (s : string) :
  (forall c, p c = true -> q c = true) ->
  all_chars p s = true -> all_chars q s = true.
Proof.
  intros Hpq. induction s as [| c s IH]; simpl; [auto |].
  intros H. apply andb_true_iff in H. destruct H as [H1 H2].
  rewrite (Hpq c H1). simpl. auto.
Qed.


Lemma num_char_not_delim (c : ascii) : is_num_char c = true -> not_delim c = true.
Proof.
  intros H. unfold not_delim. destruct (is_delim c) eqn:E; [| reflexivity].
  apply delim_not_num in E. congruence.
Qed.

Lemma float_char_not_delim (c : ascii) : is_float_char c = true -> not_delim c = true.
Proof.
  intros H. unfold not_delim. destruct (is_delim c) eqn:E; [| reflexivity].
  unfold is_delim in E.
  apply orb_true_iff in E. destruct E as [E | E];
    [apply orb_true_iff in E; destruct E as [E | E] |];
    apply Ascii.eqb_eq in E; subst; discriminate.
Qed.

Lemma num_not_delim (s : string) : all_num s = true -> all_chars not_delim s = true.
Proof.
  rewrite all_num_chars. apply all_chars_impl. exact num_char_not_delim.
Qed.

Lemma terminated_stops (r : string) : terminated r -> stops not_delim r.
Proof. destruct r; simpl; auto. intros H. unfold not_delim. now rewrite H. Qed.

Lemma token_split (s1 s2 r1 r2 : string) :
  all_chars not_delim s1 = true -> all_chars not_delim s2 = true ->
  terminated r1 -> terminated r2 ->
  s1 ++ r1 = s2 ++ r2 -> s1 = s2 /\ r1 = r2.
Proof.
  intros N1 N2 T1 T2. apply prefix_split with (p := not_delim);
    auto using terminated_stops.
Qed.

Lemma head_tag_starts (t : string) : head_tag t < 7 -> starts_value t.
Proof.
  destruct t as [| c t]; simpl; [lia |]. intros H.
  destruct (is_delim c) eqn:E; [| reflexivity].
  apply delim_char_tag in E. lia.
Qed.

Lemma append_nil_r (s : string) : s ++ "" = s.
Proof. induction s; simpl; congruence. Qed.

Section Canonical.
Context {rt : Runtime}.

Lemma dumps_head (v : value) : tag v < 7 -> head_tag (Json.dumps v) = tag v.
Proof.
  destruct v; simpl; intros H; try reflexivity; try lia.
  - now destruct b.
  - destruct (of_Z_head n) as [c [s [E Hc]]]. rewrite E. simpl.
    now apply num_char_tag.
Qed.

Lemma head_tag_append (s r : string) : head_tag s < 8 -> head_tag (s ++ r) = head_tag s.
Proof. destruct s; simpl; [lia | reflexivity]. Qed.

Lemma tag_eq_append (v w : value) (r1 r2 : string) :
  tag v < 7 -> tag w < 7 ->
  Json.dumps v ++ r1 = Json.dumps w ++ r2 -> tag v = tag w.
Proof.
  intros Fv Fw H.
  rewrite <- (dumps_head v Fv), <- (dumps_head w Fw).
  rewrite <- (head_tag_append (Json.dumps v) r1), <- (head_tag_append (Json.dumps w) r2).
  - now rewrite H.
  - rewrite dumps_head by assumption. lia.
  - rewrite dumps_head by assumption. lia.
Qed.

Lemma tag_eq_dumps (v w : value) :
  tag v < 7 -> tag w < 7 ->
  Json.dumps v = Json.dumps w -> tag v = tag w.
Proof.
  intros Fv Fw H. apply (tag_eq_append v w "" "" Fv Fw). now rewrite !append_nil_r.
Qed.

Lemma dumps_list (l : list value) :
  Json.dumps (VList l) = "[" ++ Str.join ", " (map Json.dumps l) ++ "]".
Proof. reflexivity. Qed.

Lemma dumps_dict (d : dict) :
  Json.dumps (VDict d)
  = "{" ++ Str.join ", " (map item_text (Json.sort_items (encoded d))) ++ "}".
Proof. reflexivity. Qed.

End Canonical.

(** *** Sequences of tokens *)


Lemma join_cons_after (t : string) (ts : list string) (rest : string) :
  Str.join ", " (t :: ts) ++ rest = t ++ after ts rest.
Proof.
  destruct ts as [| t' ts]; [reflexivity |].
  unfold after. rewrite join_cons2. now rewrite !append_assoc.
Qed.

Lemma after_terminated (ts : list string) (close : ascii) (r : string) :
  is_delim close = true -> terminated (after ts (String close r)).
Proof. destruct ts; simpl; auto. Qed.

Lemma head_not_delim (t : string) (c : ascii) (a b : string) :
  starts_value t -> is_delim c = true -> String c a = t ++ b -> False.
Proof.
  destruct t as [| h t]; simpl; [tauto |].
  intros Ht Hc H. inversion H; subst. congruence.
Qed.

Lemma join_parse (close : ascii) (ts1 : list string) : forall ts2 r1 r2,
  is_delim close = true -> close <> ","%char ->
  (forall t, In t ts1 -> starts_value t) ->
  (forall t, In t ts2 -> starts_value t) ->
  (forall t1 t2, In t1 ts1 -> In t2 ts2 -> parses_apart t1 t2) ->
  Str.join ", " ts1 ++ String close r1 = Str.join ", " ts2 ++ String close r2 ->
  ts1 = ts2 /\ r1 = r2.
Proof.
  induction ts1 as [| t1 ts1 IH]; intros [| t2 ts2] r1 r2 Hc Hn H1 H2 HP H.
  - simpl in H. inversion H. auto.
  - exfalso. rewrite join_cons_after in H. simpl in H.
    eapply (head_not_delim t2); eauto. apply H2. now left.
  - exfalso. rewrite join_cons_after in H. simpl in H. symmetry in H.
    eapply (head_not_delim t1); eauto. apply H1. now left.
  - rewrite !join_cons_after in H.
    apply HP in H; try (now left); try (now apply after_terminated).
    destruct H as [-> H].
    destruct ts1 as [| t1' ts1], ts2 as [| t2' ts2]; simpl in H.
    + inversion H. auto.
    + inversion H; subst. congruence.
    + inversion H; subst. congruence.
    + inversion H as [H'].
      destruct (IH (t2' :: ts2) r1 r2) as [E ->]; auto.
      * intros t Ht. apply H1. now right.
      * intros t Ht. apply H2. now right.
      * intros a b Ha Hb. apply HP; now right.
      * now rewrite E.
Qed.

(** *** The canonical text of a value *)

Lemma in_insert_item (x y : string * string) (l : list (string * string)) :
  In x (Json.insert_item y l) <-> x = y \/ In x l.
Proof.
  induction l as [| z l IH]; simpl.
  - intuition.
  - destruct (String.leb (fst y) (fst z)); simpl; rewrite ?IH; intuition.
Qed.

Lemma in_sort_items (x : string * string) (l : list (string * string)) :
  In x (Json.sort_items l) <-> In x l.
Proof.
  induction l as [| y l IH]; simpl; [tauto |].
  rewrite in_insert_item, IH. intuition.
Qed.


Lemma item_text_inj (a b : string * string) : item_text a = item_text b -> a = b.
Proof.
  unfold item_text. intros H. apply encode_string_apart in H.
  destruct H as [Hk Hv]. apply (append_inv_head ": ") in Hv.
  destruct a, b; simpl in *; congruence.
Qed.

Lemma map_item_text_inj (l1 : list (string * string)) : forall l2,
  map item_text l1 = map item_text l2 -> l1 = l2.
Proof.
  induction l1 as [| a l1 IH]; intros [| b l2] H; try discriminate; auto.
  assert (Ha : item_text a = item_text b) by exact (f_equal (hd "") H).
  assert (Hl : map item_text l1 = map item_text l2) by exact (f_equal (@tl _) H).
  apply item_text_inj in Ha. apply IH in Hl. congruence.
Qed.

Lemma item_text_head (e : string * string) : starts_value (item_text e).
Proof. unfold item_text, Json.encode_string, Json.quote. reflexivity. Qed.

Lemma forallb_ext_in (A : Type) (p q : A -> bool) (l : list A) :
  Forall (fun x => p x = q x) l -> forallb p l = forallb q l.
Proof. induction 1 as [| x l Hx _ IH]; simpl; congruence. Qed.

Lemma float_free_in (v : value) : float_free v = floats_in (fun _ => false) v.
Proof.
  induction v as [| | | | | l IH | d IH] using value_ind; try reflexivity.
  - simpl. now apply forallb_ext_in.
  - simpl. now apply forallb_ext_in.
Qed.

Section FloatTexts.
Context {rt : Runtime}.
Variable P : Float.t -> bool.
Hypothesis law : repr_law P.

Lemma in_encoded (e : string * string) (d : dict) :
  In e (Json.sort_items (encoded d)) <->
  exists k v, In (k, v) d /\ e = (k, Json.dumps v).
Proof.
  rewrite in_sort_items. unfold encoded. rewrite in_map_iff. split.
  - intros [[k v] [E Hin]]. exists k, v. simpl in E. auto.
  - intros [k [v [Hin E]]]. exists (k, v). simpl. auto.
Qed.

(** **** The text of a float *)

Lemma encode_finite (f : Float.t) :
  is_finite f = true -> Json.encode_float f = float_repr f.
Proof. destruct f; try discriminate; reflexivity. Qed.

Lemma encode_not_finite (f : Float.t) :
  is_finite f = false ->
  all_chars is_float_char (Json.encode_float f) = false
  /\ all_chars not_delim (Json.encode_float f) = true
  /\ all_num (Json.encode_float f) = false
  /\ exists c s, Json.encode_float f = String c s /\ is_float_head c = true.
Proof.
  destruct f as [s | [|] | | s m e]; try discriminate; intros _;
    repeat split; eexists; eexists; split; reflexivity.
Qed.

Lemma float_text (f : Float.t) :
  P f = true ->
  all_chars not_delim (Json.encode_float f) = true
  /\ all_num (Json.encode_float f) = false
  /\ exists c s, Json.encode_float f = String c s /\ is_float_head c = true.
Proof.
  intros Pf. destruct (is_finite f) eqn:Ff.
  - rewrite (encode_finite f Ff).
    destruct (proj1 law f Pf Ff) as (H1 & H2 & H3). split; [| split].
    + apply all_chars_impl with (2 := H2). exact float_char_not_delim.
    + exact H3.
    + destruct (float_repr f) as [| c s]; [discriminate |].
      exists c, s. split; [reflexivity |].
      unfold is_float_head. simpl in H1. now rewrite H1.
  - now destruct (encode_not_finite f Ff) as (_ & H).
Qed.

Lemma encode_float_inj (f g : Float.t) :
  P f = true -> P g = true ->
  Json.encode_float f = Json.encode_float g -> f = g.
Proof.
  intros Pf Pg H. destruct (is_finite f) eqn:Ff, (is_finite g) eqn:Fg.
  - rewrite !encode_finite in H by assumption. now apply (proj2 law).
  - exfalso. destruct (proj1 law f Pf Ff) as (_ & H2 & _).
    rewrite <- (encode_finite f Ff), H in H2.
    destruct (encode_not_finite g Fg) as (H3 & _). congruence.
  - exfalso. destruct (proj1 law g Pg Fg) as (_ & H2 & _).
    rewrite <- (encode_finite g Fg), <- H in H2.
    destruct (encode_not_finite f Ff) as (H3 & _). congruence.
  - destruct f as [s | [|] | | s m e]; try discriminate;
      destruct g as [s' | [|] | | s' m' e']; try discriminate; reflexivity.
Qed.

(** A text that starts with the text of a float is the text of that
    float. *)
Lemma float_text_only (f : Float.t) (w : value) (r1 r2 : string) :
  P f = true -> floats_in P w = true -> terminated r1 -> terminated r2 ->
  Json.encode_float f ++ r1 = Json.dumps w ++ r2 -> w = VFloat f /\ r1 = r2.
Proof.
  intros Pf Pw T1 T2 H.
  destruct (float_text f Pf) as (Hd & Hn & c & s & E & Hc).
  destruct w as [| [|] | n | g | s' | l | d].
  - exfalso. rewrite E in H. simpl in H. inversion H; subst c. discriminate.
  - exfalso. rewrite E in H. simpl in H. inversion H; subst c. discriminate.
  - exfalso. rewrite E in H. simpl in H. inversion H; subst c. discriminate.
  - exfalso. simpl in H. apply token_split in H; auto.
    + destruct H as [H _]. rewrite H, all_num_of_Z in Hn. discriminate.
    + apply num_not_delim, all_num_of_Z.
  - simpl in Pw, H. apply token_split in H; auto.
    + destruct H as [H ->]. apply encode_float_inj in H; auto. now subst.
    + now destruct (float_text g Pw).
  - exfalso. rewrite E in H. unfold Json.dumps, Json.encode_string, Json.quote in H.
    simpl in H. inversion H; subst c. discriminate.
  - exfalso. rewrite E, dumps_list in H. simpl in H. inversion H; subst c. discriminate.
  - exfalso. rewrite E, dumps_dict in H. simpl in H. inversion H; subst c. discriminate.
Qed.

Lemma float_apart (f : Float.t) (w : value) :
  P f = true -> floats_in P w = true ->
  parses_apart (Json.dumps (VFloat f)) (Json.dumps w)
  /\ (Json.dumps (VFloat f) = Json.dumps w -> same_structure (VFloat f) w).
Proof.
  intros Pf Pw. split.
  - intros r1 r2 T1 T2 H.
    destruct (float_text_only f w r1 r2 Pf Pw T1 T2 H) as [-> ->]. auto.
  - intros H.
    destruct (float_text_only f w "" "" Pf Pw I I) as [-> _].
    + now rewrite !append_nil_r.
    + now apply same_atom.
Qed.

Lemma apart_float (v : value) (g : Float.t) :
  tag v < 7 -> floats_in P v = true -> P g = true ->
  parses_apart (Json.dumps v) (Json.dumps (VFloat g))
  /\ (Json.dumps v = Json.dumps (VFloat g) -> same_structure v (VFloat g)).
Proof.
  intros Hv Pv Pg. split.
  - intros r1 r2 T1 T2 H. exfalso. symmetry in H.
    destruct (float_text_only g v r2 r1 Pg Pv T2 T1 H) as [-> _].
    simpl in Hv. lia.
  - intros H. exfalso.
    destruct (float_text_only g v "" "" Pg Pv I I) as [-> _].
    + now rewrite !append_nil_r.
    + simpl in Hv. lia.
Qed.

Lemma dumps_starts (v : value) : floats_in P v = true -> starts_value (Json.dumps v).
Proof.
  intros Pv. destruct v as [| [|] | n | f | s | l | d];
    try (apply head_tag_starts; rewrite dumps_head; simpl; lia).
  simpl in Pv. destruct (float_text f Pv) as (_ & _ & c & s & E & Hc).
  simpl. rewrite E. simpl.
  destruct (is_delim c) eqn:Ed; [| reflexivity].
  unfold is_delim in Ed.
  apply orb_true_iff in Ed. destruct Ed as [Ed | Ed];
    [apply orb_true_iff in Ed; destruct Ed as [Ed | Ed] |];
    apply Ascii.eqb_eq in Ed; subst; discriminate.
Qed.

(** **** Every value *)

Lemma canonical_atoms (v : value) :
  is_list v || is_dict v = false -> canonical_ok P v.
Proof.
  intros Hv Fv Wv w Fw Ww.
  destruct v as [| [|] | n | f | s | l | d]; try discriminate;
    try (now apply float_apart);
    destruct w as [| [|] | m | g | s' | l' | d'];
    try (apply apart_float; [simpl; lia | assumption ..]);
    try mismatch_by tag_eq_append tag_eq_dumps.
  - split; [| intros _; now apply same_atom].
    intros r1 r2 _ _ H. simpl in H. inversion H. auto.
  - split; [| intros _; now apply same_atom].
    intros r1 r2 _ _ H. simpl in H. inversion H. auto.
  - split; [| intros _; now apply same_atom].
    intros r1 r2 _ _ H. simpl in H. inversion H. auto.
  - split.
    + intros r1 r2 T1 T2 H. simpl in H.
      apply num_split in H; auto using all_num_of_Z.
    + intros H. simpl in H. apply of_Z_inj in H. subst. now apply same_atom.
  - split.
    + intros r1 r2 _ _ H. simpl in H. apply encode_string_apart in H.
      destruct H as [-> ->]. auto.
    + intros H. simpl in H.
      assert (H' : Json.encode_string s ++ "" = Json.encode_string s' ++ "")
        by now rewrite !append_nil_r.
      apply encode_string_apart in H'. destruct H' as [-> _]. now apply same_atom.
Qed.

Lemma list_texts (l l2 : list value) :
  Forall (canonical_ok P) l ->
  forallb (floats_in P) l = true -> Forall value_wf l ->
  forallb (floats_in P) l2 = true -> Forall value_wf l2 ->
  forall close r1 r2,
    is_delim close = true -> close <> ","%char ->
    Str.join ", " (map Json.dumps l) ++ String close r1
    = Str.join ", " (map Json.dumps l2) ++ String close r2 ->
    map Json.dumps l = map Json.dumps l2 /\ r1 = r2.
Proof.
  intros IH F1 W1 F2 W2 close r1 r2 Hc Hn H.
  rewrite forallb_forall in F1, F2. rewrite Forall_forall in IH, W1, W2.
  apply join_parse in H; auto.
  - intros t Ht. apply in_map_iff in Ht. destruct Ht as [x [<- Hx]].
    apply dumps_starts. auto.
  - intros t Ht. apply in_map_iff in Ht. destruct Ht as [x [<- Hx]].
    apply dumps_starts. auto.
  - intros t1 t2 H1 H2.
    apply in_map_iff in H1, H2.
    destruct H1 as [x [<- Hx]], H2 as [y [<- Hy]].
    apply (IH x Hx (F1 x Hx) (W1 x Hx) y (F2 y Hy) (W2 y Hy)).
Qed.

Lemma list_same (l : list value) : forall l2,
  Forall (canonical_ok P) l ->
  forallb (floats_in P) l = true -> Forall value_wf l ->
  forallb (floats_in P) l2 = true -> Forall value_wf l2 ->
  map Json.dumps l = map Json.dumps l2 -> Forall2 same_structure l l2.
Proof.
  induction l as [| x l IHl]; intros [| y l2] IH F1 W1 F2 W2 H;
    simpl in H; try discriminate; [constructor |].
  inversion H as [[Hx Hl]].
  inversion IH; inversion W1; inversion W2; subst.
  simpl in F1, F2. apply andb_true_iff in F1, F2.
  destruct F1 as [Fx F1], F2 as [Fy F2].
  constructor; [| now apply IHl].
  match goal with Hc : canonical_ok P x |- _ => now apply (Hc Fx) end.
Qed.

Lemma dict_texts (d d2 : dict) :
  Forall (fun kv => canonical_ok P (snd kv)) d ->
  floats_in P (VDict d) = true -> value_wf (VDict d) ->
  floats_in P (VDict d2) = true -> value_wf (VDict d2) ->
  forall r1 r2,
    Str.join ", " (map item_text (Json.sort_items (encoded d))) ++ String "}" r1
    = Str.join ", " (map item_text (Json.sort_items (encoded d2))) ++ String "}" r2 ->
    Json.sort_items (encoded d) = Json.sort_items (encoded d2) /\ r1 = r2.
Proof.
  intros IH F1 W1 F2 W2 r1 r2 H.
  simpl in F1, F2. rewrite forallb_forall in F1, F2.
  inversion W1 as [| | | | | | ? N1 V1]; inversion W2 as [| | | | | | ? N2 V2]; subst.
  rewrite Forall_forall in IH, V1, V2.
  apply join_parse in H; try reflexivity; try discriminate.
  - destruct H as [H ->]. apply map_item_text_inj in H. auto.
  - intros t Ht. apply in_map_iff in Ht. destruct Ht as [e [<- _]].
    apply item_text_head.
  - intros t Ht. apply in_map_iff in Ht. destruct Ht as [e [<- _]].
    apply item_text_head.
  - intros t1 t2 H1 H2. apply in_map_iff in H1, H2.
    destruct H1 as [e1 [<- H1]], H2 as [e2 [<- H2]].
    apply in_encoded in H1, H2.
    destruct H1 as [k1 [v1 [I1 ->]]], H2 as [k2 [v2 [I2 ->]]].
    intros s1 s2 T1 T2 E. unfold item_text in E |- *. cbn [fst snd] in E |- *.
    rewrite !append_assoc in E. apply encode_string_apart in E.
    destruct E as [-> E']. apply (append_inv_head ": ") in E'.
    destruct (IH (k2, v1) I1 (F1 _ I1) (V1 _ I1) v2 (F2 _ I2) (V2 _ I2)) as [P' _].
    simpl in P'. destruct (P' s1 s2 T1 T2 E') as [-> ->]. auto.
Qed.

Lemma canonical (v : value) : canonical_ok P v.
Proof.
  induction v as [| | | | | l IH | d IH] using value_ind;
    try (apply canonical_atoms; reflexivity).
  - intros Fv Wv w Fw Ww.
    destruct w as [| [|] | m | g | s' | l2 | d2];
      try (apply apart_float; [simpl; lia | assumption ..]);
      try mismatch_by tag_eq_append tag_eq_dumps.
    simpl in Fv, Fw.
    inversion Wv as [| | | | | ? W1 |]; inversion Ww as [| | | | | ? W2 |]; subst.
    assert (Hparse : forall r1 r2,
               Json.dumps (VList l) ++ r1 = Json.dumps (VList l2) ++ r2 ->
               map Json.dumps l = map Json.dumps l2 /\ r1 = r2).
    { intros r1 r2 H. rewrite !dumps_list in H.
      rewrite !append_assoc in H. simpl in H. inversion H as [H'].
      apply (list_texts l l2 IH Fv W1 Fw W2 "]"%char r1 r2) in H';
        [auto | reflexivity | discriminate]. }
    split.
    + intros r1 r2 _ _ H. apply Hparse in H. destruct H as [E ->].
      rewrite !dumps_list. now rewrite E.
    + intros H. constructor. apply list_same; auto.
      apply (Hparse "" ""). now rewrite !append_nil_r.
  - intros Fv Wv w Fw Ww.
    destruct w as [| [|] | m | g | s' | l2 | d2];
      try (apply apart_float; [simpl; lia | assumption ..]);
      try mismatch_by tag_eq_append tag_eq_dumps.
    assert (Hparse : forall r1 r2,
               Json.dumps (VDict d) ++ r1 = Json.dumps (VDict d2) ++ r2 ->
               Json.sort_items (encoded d) = Json.sort_items (encoded d2) /\ r1 = r2).
    { intros r1 r2 H. rewrite !dumps_dict in H.
      rewrite !append_assoc in H. simpl in H. inversion H as [H'].
      now apply (dict_texts d d2 IH Fv Wv Fw Ww r1 r2) in H'. }
    split.
    + intros r1 r2 _ _ H. apply Hparse in H. destruct H as [E ->].
      rewrite !dumps_dict. now rewrite E.
    + intros H.
      assert (E : Json.sort_items (encoded d) = Json.sort_items (encoded d2)).
      { apply (Hparse "" ""). now rewrite !append_nil_r. }
      simpl in Fv, Fw. rewrite forallb_forall in Fv, Fw.
      inversion Wv as [| | | | | | ? N1 V1]; inversion Ww as [| | | | | | ? N2 V2]; subst.
      rewrite Forall_forall in IH, V1, V2.
      apply same_dict.
      * intros k a Hk. apply DictFacts.get_in in Hk.
        assert (Hin : In (k, Json.dumps a) (Json.sort_items (encoded d2))).
        { rewrite <- E. apply in_encoded. eauto. }
        apply in_encoded in Hin. destruct Hin as [k' [b [Hb Eb]]].
        inversion Eb; subst k'. exists b. split.
        -- now apply DictFacts.in_get.
        -- apply (IH (k, a) Hk (Fv _ Hk) (V1 _ Hk) b (Fw _ Hb) (V2 _ Hb)). auto.
      * intros k Hk. destruct (Dict.get k d2) as [b |] eqn:Eb; [| reflexivity].
        exfalso. apply DictFacts.get_in in Eb.
        assert (Hin : In (k, Json.dumps b) (Json.sort_items (encoded d))).
        { rewrite E. apply in_encoded. eauto. }
        apply in_encoded in Hin. destruct Hin as [k' [a [Ha Ea]]].
        inversion Ea; subst k'. apply DictFacts.get_none_iff in Hk. apply Hk.
        change k with (fst (k, a)). now apply in_map.
Qed.

(** Equal canonical texts mean equal values, up to the order of keys,
    among the values whose floats satisfy [P]. *)
Lemma dumps_same_structure_in (v w : value) :
  floats_in P v = true -> floats_in P w = true -> value_wf v -> value_wf w ->
  Json.dumps v = Json.dumps w -> same_structure v w.
Proof. intros Fv Fw Wv Ww. now apply (canonical v Fv Wv w Fw Ww). Qed.

End FloatTexts.

Section CanonicalText.
Context {rt : Runtime}.

Lemma no_float_law : repr_law (fun _ => false).
Proof. split; intros; discriminate. Qed.

(** Equal canonical texts mean equal values, up to the order of keys. *)
Lemma dumps_same_structure (v w : value) :
  float_free v = true -> float_free w = true -> value_wf v -> value_wf w ->
  Json.dumps v = Json.dumps w -> same_structure v w.
Proof.
  rewrite !float_free_in. apply dumps_same_structure_in. exact no_float_law.
Qed.

End CanonicalText.

(** *** A [repr] that meets the law *)



Section ObjectArrays.
Context {rt : Runtime}.


End ObjectArrays.

(* ================================================================= *)
(** * Examples *)

(** ** The model on concrete values *)

Example id_hint_search_examples :
  map IdHint.search ["id"; "x_id"; "idx"; "my_key_x"; "Dossier_ID"; "xid"; "a.id"]
  = [true; true; false; true; true; false; false].
Proof. reflexivity. Qed.

Example strip_lower_examples :
  Str.strip "  Akte 12  " = "Akte 12" /\ Str.lower "Akte 12" = "akte 12"
  /\ Str.strip "   " = "".
Proof. repeat split. Qed.

Example dumps_sorts_keys :
  Json.dumps (VDict [("b", VList [VInt 1; VNone]); ("a", VBool true)])
  = "{" ++ Json.quote ++ "a" ++ Json.quote ++ ": true, "
        ++ Json.quote ++ "b" ++ Json.quote ++ ": [1, null]}".
Proof. reflexivity. Qed.

Example float_of_int_examples :
  Float.of_Z (2 ^ 1024 - 2 ^ 970 - 1) <> None
  /\ Float.of_Z (2 ^ 1024 - 2 ^ 970) = None
  /\ option_map Float.to_Z (Float.of_Z 12345678901234567890)
     = Some (Some 12345678901234567168%Z).
Proof. repeat split; vm_compute; congruence. Qed.

Example merge_objects_example :
  _merge_objects
    [VDict [("a", VDict [("x", VInt 1); ("y", VNone)]); ("b", VStr "")];
     VInt 3;
     VDict [("b", VStr "B"); ("a", VDict [("x", VInt 2); ("y", VInt 3)]); ("c", VNone)]]
  = [("a", VDict [("x", VInt 1); ("y", VInt 3)]); ("b", VStr "B"); ("c", VNone)].
Proof. reflexivity. Qed.

Example boolean_field_example :
  merge_field [[("open", VStr "ja")]; [("open", VStr "0")]; [("open", VNone)]]
    "open" (typed "boolean")
  = Ok (VBool true).
Proof. reflexivity. Qed.

(** ** Inputs on which a claim of the specification fails *)

(** C1: with no partial record and nothing to inject the result is
    empty, although the schema declares a property. *)
Lemma empty_list_lacks_declared_keys :
  aggregate_chunk_dicts [] schema_title VNone VNone = Ok []
  /\ Dict.keys (@nil (string * value)) <> Dict.keys (_schema_properties schema_title).
Proof. split; [reflexivity | discriminate]. Qed.



(** C6: a number is a scalar that is neither null nor a list, and it
    coerces to the empty list. *)
Lemma coerce_number_is_empty :
  _coerce_to_list (VInt 5) = [] /\ _coerce_to_list (VInt 5) <> [VInt 5].
Proof. split; [reflexivity | discriminate]. Qed.

(** ** Instances of the theorems *)

Lemma aggregate_key_set_witness :
  aggregate_chunk_dicts [[("title", VStr " A ")]] schema_title VNone VNone
  = Ok [("title", VStr "A")]
  /\ Dict.keys [("title", VStr "A")] = Dict.keys (_schema_properties schema_title).
Proof.
  assert (H : aggregate_chunk_dicts [[("title", VStr " A ")]] schema_title VNone VNone
              = Ok [("title", VStr "A")]) by reflexivity.
  split; [exact H |].
  destruct (aggregate_key_set _ _ _ _ _ H) as [_ [_ [[E _] | [_ [_ E]]]]];
    [discriminate | apply E; nodup_keys].
Defined.

Lemma deep_merge_fills_gaps_witness :
  dict_wf [("a", VDict [("x", VInt 2); ("y", VInt 3)]); ("b", VStr "B")]
  /\ preserved
       (VDict [("a", VDict [("x", VInt 1); ("y", VNone)]); ("b", VStr "")])
       (VDict (_deep_merge_objects
                 [("a", VDict [("x", VInt 1); ("y", VNone)]); ("b", VStr "")]
                 [("a", VDict [("x", VInt 2); ("y", VInt 3)]); ("b", VStr "B")])).
Proof.
  assert (H : dict_wf [("a", VDict [("x", VInt 2); ("y", VInt 3)]); ("b", VStr "B")]).
  { repeat (constructor; try nodup_keys). }
  split; [exact H |].
  apply (deep_merge_fills_gaps
           [("a", VDict [("x", VInt 1); ("y", VNone)]); ("b", VStr "")] _ H).
Defined.


Lemma scalar_array_merge_witness :
  _schema_type (VDict tags_schema) = Ok (VStr "array")
  /\ _schema_type (VDict (_schema_items_schema tags_schema)) = Ok (VStr "string")
  /\ merge_field tags_chunks "tags" (VDict tags_schema)
     = Ok (VList [VStr "x"; VStr "y"; VStr "z"]).
Proof.
  assert (H1 : _schema_type (VDict tags_schema) = Ok (VStr "array")) by reflexivity.
  assert (H2 : _schema_type (VDict (_schema_items_schema tags_schema))
               = Ok (VStr "string")) by reflexivity.
  split; [exact H1 |]. split; [exact H2 |].
  exact (proj1 (scalar_array_merge tags_chunks "tags" tags_schema
                  (VStr "array") (VStr "string") H1 eq_refl H2 eq_refl)).
Defined.

Lemma concat_policy_string_witness :
  _schema_type (typed "string") = Ok (VStr "string")
  /\ Str.mem "description" concat_fields = true
  /\ merge_field hello_chunks "description" (typed "string")
     = Ok (VStr "Hello world.").
Proof.
  assert (H : _schema_type (typed "string") = Ok (VStr "string")) by reflexivity.
  split; [exact H |]. split; [reflexivity |].
  exact (proj1 (concat_policy_string hello_chunks "description" [("type", VStr "string")]
                  (VStr "string") H eq_refl eq_refl)).
Defined.

Lemma first_policy_string_witness :
  _schema_type (typed "string") = Ok (VStr "string")
  /\ Str.mem "title" concat_fields = false
  /\ merge_field title_chunks "title" (typed "string") = Ok (VStr "Akte").
Proof.
  assert (H : _schema_type (typed "string") = Ok (VStr "string")) by reflexivity.
  split; [exact H |]. split; [reflexivity |].
  exact (proj1 (first_policy_string title_chunks "title" [("type", VStr "string")]
                  (VStr "string") H eq_refl eq_refl)).
Defined.

Lemma post_pass_injection_witness :
  merge_fields [chunk_tf] (_schema_properties schema_tf_strings)
  = Ok [("technical", VStr "x"); ("filetype", VNone); ("title", VNone)]
  /\ exists out,
       aggregate_chunk_dicts [chunk_tf] schema_tf_strings
         (VDict [("sha256", VStr "abc")]) (VStr "pdf") = Ok out
       /\ Dict.get "technical" out = Some (VDict [("sha256", VStr "abc")])
       /\ Dict.get "filetype" out = Some (VStr "pdf")
       /\ Dict.get "title" out = Some VNone.
Proof.
  assert (H : merge_fields [chunk_tf] (_schema_properties schema_tf_strings)
              = Ok [("technical", VStr "x"); ("filetype", VNone); ("title", VNone)])
    by reflexivity.
  split; [exact H |].
  destruct (post_pass_injection chunk_tf [] schema_tf_strings
              (VDict [("sha256", VStr "abc")]) (VStr "pdf") _ H)
    as [out [Ha [_ [Ht [Hf Ho]]]]].
  exists out. split; [exact Ha |]. split; [exact Ht |]. split; [exact Hf |].
  rewrite Ho; [reflexivity | discriminate | discriminate].
Defined.

(* ================================================================= *)
(** * Further properties of the aggregation module *)

Section FieldValues.
Context {rt : Runtime}.

(* --------------------------------------------------------------- *)
(** ** The type of a field-schema *)

(** X1: [_schema_type] raises, an [AttributeError], exactly on a schema
    that is truthy and not a dict; a falsy schema has the type
    "string".  On a dict, a [type] that is a list gives its first entry
    other than "null", which is never "null", or "string" when there is
    none; any other [type] is the result itself when truthy, and
    "string" when falsy or absent. *)
Theorem schema_type_resolution (s : value) :
  (forall e, _schema_type s = Raise e
             <-> e = AttributeError /\ truthy s = true /\ is_dict s = false)
  /\ (truthy s = false -> _schema_type s = Ok (VStr "string"))
  /\ (forall d l, s = VDict d -> get_or_none "type" d = VList l ->
        exists t, _schema_type s = Ok t /\ eq_str t "null" = false
          /\ (Forall (fun x => eq_str x "null" = true) l /\ t = VStr "string"
              \/ exists pre post,
                   l = (pre ++ t :: post)%list
                   /\ Forall (fun x => eq_str x "null" = true) pre))
  /\ (forall d, s = VDict d -> is_list (get_or_none "type" d) = false ->
        _schema_type s =
        Ok (if truthy (get_or_none "type" d) then get_or_none "type" d
            else VStr "string")).
Proof.
  split; [| split; [| split]].
  - intros e. split.
    + unfold _schema_type. destruct (truthy s) eqn:Et.
      * destruct s; simpl; intros H; try discriminate;
          try (inversion H; auto).
      * simpl. intros H. discriminate.
    + intros (-> & Ht & Hd). unfold _schema_type. rewrite Ht.
      destruct s; try discriminate; reflexivity.
  - intros Ht. unfold _schema_type. rewrite Ht. reflexivity.
  - intros d l -> Hl. rewrite schema_type_dict. unfold dict_type. rewrite Hl.
    clear Hl. induction l as [| x l IH]; simpl.
    + eexists. split; [reflexivity |]. split; [reflexivity |]. left. auto.
    + destruct (eq_str x "null") eqn:Ex; simpl.
      * destruct IH as (t & Ht & Hn & Hc). exists t. split; [exact Ht |].
        split; [exact Hn |].
        destruct Hc as [[Hall ->] | (pre & post & -> & Hpre)].
        -- left. auto.
        -- right. exists (x :: pre), post. auto.
      * exists x. split; [reflexivity |]. split; [exact Ex |].
        right. exists [], l. auto.
  - intros d -> Hl. rewrite schema_type_dict. unfold dict_type.
    destruct (get_or_none "type" d); try reflexivity. discriminate.
Qed.

(* --------------------------------------------------------------- *)
(** ** The first non-empty value *)

Lemma first_non_empty_cons (v : value) (values : list value) :
  _first_non_empty (v :: values) =
  if is_blank v then _first_non_empty values else v.
Proof.
  destruct v as [| b | n | f | s | l | d]; simpl; try reflexivity.
  - destruct l; reflexivity.
  - destruct d; reflexivity.
Qed.

Lemma first_non_empty_find (values : list value) :
  _first_non_empty values =
  match find (fun v => negb (is_blank v)) values with
  | Some v => v
  | None => VNone
  end.
Proof.
  induction values as [| v values IH]; [reflexivity |].
  rewrite first_non_empty_cons. simpl find.
  destruct (is_blank v); simpl; auto.
Qed.

(** X2: [_first_non_empty] returns, unchanged, the first value that is
    not [None], not a string of whitespace only, not [[]] and not [{}];
    [False] and [0] are such values.  It returns [None] when every
    value is one of these, and only then does it return one of them. *)
Theorem first_non_empty_first (values : list value) :
  (_first_non_empty values = VNone
   /\ Forall (fun v => is_blank v = true) values
   \/ exists pre v post,
        values = (pre ++ v :: post)%list
        /\ Forall (fun x => is_blank x = true) pre
        /\ is_blank v = false
        /\ _first_non_empty values = v)
  /\ (is_blank (_first_non_empty values) = true -> _first_non_empty values = VNone)
  /\ _first_non_empty [VNone; VStr " "; VList []; VDict []; VBool false; VInt 0]
     = VBool false.
Proof.
  assert (H : _first_non_empty values = VNone
              /\ Forall (fun v => is_blank v = true) values
              \/ exists pre v post,
                   values = (pre ++ v :: post)%list
                   /\ Forall (fun x => is_blank x = true) pre
                   /\ is_blank v = false
                   /\ _first_non_empty values = v).
  { rewrite first_non_empty_find.
    destruct (find (fun v => negb (is_blank v)) values) as [v |] eqn:E.
    - right. apply find_split in E. destruct E as (pre & post & -> & Hv & Hpre).
      exists pre, v, post. repeat split; auto.
      + eapply Forall_impl; [| exact Hpre]. simpl. intros a Ha.
        now apply negb_false_iff in Ha.
      + now apply negb_true_iff in Hv.
    - left. split; [reflexivity |]. apply Forall_forall. intros x Hx.
      apply (find_none _ _ E) in Hx. now apply negb_false_iff in Hx. }
  split; [exact H |]. split; [| reflexivity].
  destruct H as [[-> _] | (pre & v & post & _ & _ & Hv & ->)]; [reflexivity |].
  congruence.
Qed.

End FieldValues.

(* ================================================================= *)
(** ** Numbers *)

(** *** Integers as floats *)

Lemma digits2_size (m : positive) : digits2_pos m = Pos.size m.
Proof. induction m; simpl; congruence. Qed.

Lemma digits2_iter (p m : positive) :
  Zpos (digits2_pos (Pos.iter xO m p)) = (Zpos (digits2_pos m) + Zpos p)%Z.
Proof.
  induction p using Pos.peano_ind.
  - simpl. lia.
  - rewrite Pos.iter_succ. simpl digits2_pos. lia.
Qed.

Lemma iter_shiftl (p m : positive) :
  Zpos (Pos.iter xO m p) = Z.shiftl (Zpos m) (Zpos p).
Proof.
  rewrite Z.shiftl_mul_pow2 by lia.
  induction p using Pos.peano_ind.
  - simpl. lia.
  - rewrite Pos.iter_succ. rewrite Pos2Z.inj_xO, IHp, Pos2Z.inj_succ, Z.pow_succ_r by lia.
    lia.
Qed.

Lemma round_aux_canonical (s : bool) (m : positive) (e : Z) :
  canonical_mantissa 53 1024 m e = true -> (e <= 971)%Z ->
  binary_round_aux 53 1024 s (Zpos m) e loc_Exact = S754_finite s m e.
Proof.
  unfold canonical_mantissa. intros Hc He. apply Z.eqb_eq in Hc.
  cbv [binary_round_aux shr_fexp Zdigits2]. rewrite Hc, Z.sub_diag.
  cbv [shr shr_record_of_loc shr_m loc_of_shr_record round_nearest_even].
  rewrite Hc, Z.sub_diag. 
  apply Z.leb_le in He.
  change (1024 - 53)%Z with 971%Z. now rewrite He.
Qed.

Lemma size_bound (m : positive) : (Zpos m < 2 ^ 53)%Z -> (Zpos (digits2_pos m) <= 53)%Z.
Proof.
  intros H. rewrite digits2_size.
  destruct (Z.le_gt_cases (Zpos (Pos.size m)) 53) as [Hle | Hgt]; [exact Hle |].
  exfalso. pose proof (Pos.size_le m) as Hs.
  apply Pos2Z.pos_le_pos in Hs. rewrite Pos2Z.inj_pow in Hs.
  assert (2 ^ 54 <= 2 ^ Zpos (Pos.size m))%Z by (apply Z.pow_le_mono_r; lia).
  change (Z.pos m~0) with (2 * Z.pos m)%Z in Hs.
  change (2 ^ 54)%Z with (2 * 2 ^ 53)%Z in H0. lia.
Qed.

Lemma of_Z_small (s : bool) (m : positive) :
  (Zpos m < 2 ^ 53)%Z ->
  exists f, binary_round 53 1024 s m 0 = f
            /\ Float.to_Z f = Some (if s then Zneg m else Zpos m)
            /\ match f with S754_finite _ _ _ => True | _ => False end.
Proof.
  intros H. apply size_bound in H. unfold binary_round, shl_align.
  set (d := Zpos (digits2_pos m)) in *.
  assert (Hf : fexp 53 1024 (d + 0) = (d - 53)%Z).
  { unfold fexp, emin. rewrite Z.add_0_r. subst d. lia. }
  rewrite Hf, Z.sub_0_r.
  destruct (d - 53)%Z as [| p | p] eqn:Ed.
  - rewrite round_aux_canonical.
    + eexists. split; [reflexivity |]. split; [| exact I].
      simpl. destruct s; reflexivity.
    + unfold canonical_mantissa. fold d. rewrite Hf. reflexivity.
    + lia.
  - subst d. lia.
  - rewrite round_aux_canonical.
    + eexists. split; [reflexivity |]. split; [| exact I].
      unfold Float.to_Z. rewrite iter_shiftl.
      rewrite Z.shiftr_shiftl_l by lia. rewrite Z.sub_diag. simpl.
      destruct s; reflexivity.
    + unfold canonical_mantissa. rewrite digits2_iter. fold d.
      unfold fexp, emin. apply Z.eqb_eq. subst d. lia.
    + lia.
Qed.

Lemma of_Z_exact (n : Z) :
  (- 2 ^ 53 <= n <= 2 ^ 53)%Z ->
  exists f, Float.of_Z n = Some f /\ Float.to_Z f = Some n.
Proof.
  intros Hn. unfold Float.of_Z, Float.prec, Float.emax, binary_normalize.
  destruct n as [| m | m].
  - eexists. split; reflexivity.
  - destruct (Z.eq_dec (Zpos m) (2 ^ 53)) as [E | E].
    + injection E as ->. eexists. split; reflexivity.
    + destruct (of_Z_small false m) as (f & -> & Hz & Hf); [lia |].
      exists f. split; [| exact Hz]. destruct f; auto; contradiction.
  - destruct (Z.eq_dec (Zneg m) (- 2 ^ 53)) as [E | E].
    + injection E as ->. eexists. split; reflexivity.
    + destruct (of_Z_small true m) as (f & -> & Hz & Hf); [lia |].
      exists f. split; [| exact Hz]. destruct f; auto; contradiction.
Qed.

Lemma to_Z_truncation (f : Float.t) : Float.to_Z f = truncation f.
Proof.
  destruct f as [s | s | | s m e]; try reflexivity.
  unfold Float.to_Z, truncation. f_equal.
  destruct e as [| p | p].
  - simpl Z.max. rewrite Z.pow_0_r, Z.mul_1_r, Z.quot_1_r. destruct s; reflexivity.
  - rewrite Z.shiftl_mul_pow2 by lia.
    replace (Z.max (Zpos p) 0) with (Zpos p) by lia.
    replace (Z.max (- Zpos p) 0) with 0%Z by lia.
    rewrite Z.pow_0_r, Z.quot_1_r. destruct s; lia.
  - rewrite Z.shiftr_div_pow2 by lia.
    replace (Z.max (Zneg p) 0) with 0%Z by lia.
    replace (Z.max (- Zneg p) 0) with (Zpos p) by lia.
    rewrite Z.pow_0_r, Z.mul_1_r.
    assert (Hp : (0 < 2 ^ Zpos p)%Z) by (apply Z.pow_pos_nonneg; lia).
    destruct s.
    + rewrite Z.quot_opp_l by lia. f_equal.
      symmetry. apply Z.quot_div_nonneg; lia.
    + symmetry. apply Z.quot_div_nonneg; lia.
Qed.

Section Numbers.
Context {rt : Runtime}.

(** *** The loop that collects the numbers *)

Lemma nums_step_fits (nums : list Float.t) (v : value) :
  overflows v = false ->
  nums_step nums v =
  Ok (nums ++ match number_of v with Some f => [f] | None => [] end)%list.
Proof.
  destruct v as [| b | n | f | s | l | d]; simpl; intros H;
    rewrite ?app_nil_r; try reflexivity.
  - destruct b; reflexivity.
  - destruct (Float.of_Z n); [reflexivity | discriminate].
  - destruct (float_of_string (Str.strip s)); [reflexivity |].
    now rewrite app_nil_r.
Qed.

Lemma nums_step_overflows (nums : list Float.t) (v : value) :
  overflows v = true -> nums_step nums v = Raise OverflowError.
Proof.
  destruct v as [| b | n | f | s | l | d]; simpl; try discriminate.
  destruct (Float.of_Z n); [discriminate | reflexivity].
Qed.

Lemma nums_loop (values : list value) : forall nums,
  Forall (fun v => overflows v = false) values ->
  foldM nums_step values nums = Ok (nums ++ numbers values)%list.
Proof.
  induction values as [| v values IH]; simpl; intros nums H.
  - now rewrite app_nil_r.
  - inversion H; subst. rewrite nums_step_fits by assumption. simpl.
    rewrite IH by assumption. now rewrite <- app_assoc.
Qed.

Lemma nums_loop_raises (values : list value) : forall nums,
  Exists (fun v => overflows v = true) values ->
  foldM nums_step values nums = Raise OverflowError.
Proof.
  induction values as [| v values IH]; simpl; intros nums H.
  - inversion H.
  - destruct (overflows v) eqn:E.
    + now rewrite nums_step_overflows.
    + rewrite nums_step_fits by assumption. simpl. apply IH.
      inversion H; subst; [congruence | assumption].
Qed.

Lemma overflows_dec (values : list value) :
  Forall (fun v => overflows v = false) values
  \/ Exists (fun v => overflows v = true) values.
Proof.
  induction values as [| v values [IH | IH]]; auto.
  destruct (overflows v) eqn:E; auto.
Qed.

Lemma merge_numbers_fits (values : list value) (mode : string) :
  Forall (fun v => overflows v = false) values ->
  _merge_numbers values mode =
  Ok (match numbers values with
      | [] => VNone
      | x :: rest =>
          if String.eqb mode "max" then VFloat (Float.max_list x rest)
          else if String.eqb mode "min" then VFloat (Float.min_list x rest)
          else VFloat x
      end).
Proof.
  intros H. unfold _merge_numbers. now rewrite nums_loop.
Qed.

(** X3: [_merge_numbers] raises, an [OverflowError], exactly when one of
    the values is an [int] too large for a float, wherever it stands in
    the list and whatever the mode: also behind the number that the
    policy [first] would return.  Every [int] up to [2^53] in absolute
    value fits; [2^1024] does not. *)
Theorem merge_numbers_raises_iff (values : list value) (mode : string) :
  (forall e, _merge_numbers values mode = Raise e
             <-> e = OverflowError /\ Exists (fun v => overflows v = true) values)
  /\ (forall n, (- 2 ^ 53 <= n <= 2 ^ 53)%Z -> overflows (VInt n) = false)
  /\ overflows (VInt (2 ^ 1024)) = true
  /\ _merge_numbers [VFloat (S754_zero false); VInt (2 ^ 1024)] mode
     = Raise OverflowError.
Proof.
  split; [| split; [| split]].
  - intros e. destruct (overflows_dec values) as [H | H].
    + rewrite merge_numbers_fits by assumption. split; [discriminate |].
      intros [_ Hex]. exfalso. apply Exists_exists in Hex.
      destruct Hex as (v & Hv & Ho). rewrite Forall_forall in H.
      rewrite (H v Hv) in Ho. discriminate.
    + unfold _merge_numbers. rewrite nums_loop_raises by assumption. simpl.
      split; [intros [= <-]; auto | intros [-> _]; reflexivity].
  - intros n Hn. destruct (of_Z_exact n Hn) as (f & Hf & _). simpl.
    now rewrite Hf.
  - reflexivity.
  - reflexivity.
Qed.

Lemma numbers_split (values : list value) :
  numbers values = [] /\ Forall (fun v => number_of v = None) values
  \/ exists pre v post f rest,
       values = (pre ++ v :: post)%list
       /\ Forall (fun x => number_of x = None) pre
       /\ number_of v = Some f
       /\ numbers values = f :: rest.
Proof.
  induction values as [| v values IH]; [left; auto |].
  unfold numbers. simpl. fold (numbers values).
  destruct (number_of v) as [f |] eqn:E.
  - right. exists [], v, values, f, (numbers values). auto.
  - destruct IH as [[Hn Hall] | (pre & x & post & f & rest & -> & Hpre & Hx & Hn)].
    + left. simpl. auto.
    + right. exists (v :: pre), x, post, f, rest. simpl. auto.
Qed.

(** X4: when every [int] fits a float and the mode is neither "max" nor
    "min", [_merge_numbers] returns the float of the first value that
    offers one, and [None] when no value does.  A [bool] and an [int]
    offer their float, a float itself, a string the float that its text
    without outer whitespace denotes, if any; [None], a list and a dict
    offer nothing. *)
Theorem merge_numbers_first (values : list value) (mode : string) :
  Forall (fun v => overflows v = false) values ->
  mode <> "max" -> mode <> "min" ->
  (_merge_numbers values mode = Ok VNone
   /\ Forall (fun v => number_of v = None) values
   \/ exists pre v post f,
        values = (pre ++ v :: post)%list
        /\ Forall (fun x => number_of x = None) pre
        /\ number_of v = Some f
        /\ _merge_numbers values mode = Ok (VFloat f))
  /\ number_of (VBool true) = Float.of_Z 1
  /\ (forall s, number_of (VStr s) = float_of_string (Str.strip s))
  /\ (forall v, is_none v || is_list v || is_dict v = true -> number_of v = None).
Proof.
  intros Hfit Hmax Hmin. split; [| split; [| split]].
  - rewrite merge_numbers_fits by assumption.
    apply String.eqb_neq in Hmax, Hmin.
    destruct (numbers_split values)
      as [[-> Hall] | (pre & v & post & f & rest & -> & Hpre & Hv & ->)].
    + left. auto.
    + right. exists pre, v, post, f. rewrite Hmax, Hmin. auto.
  - reflexivity.
  - reflexivity.
  - intros v Hv. destruct v; try discriminate; reflexivity.
Qed.

(** *** Numeric fields *)

Lemma numeric_dispatch (key : string) (ps : dict) (values : list value) :
  is_numeric_type (dict_type ps) = true ->
  merge_values key ps values =
  (n <- _merge_numbers values "first" ;;
   Ok (if eq_str (dict_type ps) "integer" then
         match n with
         | VFloat f =>
             match Float.to_Z f with
             | Some z => VInt z
             | None => VNone
             end
         | _ => n
         end
       else n)).
Proof.
  intros H. unfold merge_values. rewrite schema_type_dict. simpl.
  unfold is_numeric_type in H.
  destruct (eq_str (dict_type ps) "integer") eqn:Ei.
  - apply eq_str_true in Ei. rewrite Ei. reflexivity.
  - simpl in H. apply eq_str_true in H. rewrite H. reflexivity.
Qed.

(** X5: an integer field returns an [int] unchanged when it is the first
    number offered, lies between [-2^53] and [2^53], and no later [int]
    overflows: the passage through a float is exact there.  Past that
    bound it is not: [2^53 + 1] comes back as [2^53]. *)
Theorem integer_field_keeps_int (key : string) (ps : dict)
    (pre post : list value) (n : Z) :
  eq_str (dict_type ps) "integer" = true ->
  Forall (fun v => number_of v = None /\ overflows v = false) pre ->
  Forall (fun v => overflows v = false) post ->
  (- 2 ^ 53 <= n <= 2 ^ 53)%Z ->
  merge_values key ps (pre ++ VInt n :: post) = Ok (VInt n)
  /\ merge_values key ps [VInt (2 ^ 53 + 1)] = Ok (VInt (2 ^ 53)).
Proof.
  intros Ht Hpre Hpost Hn.
  assert (Hnum : is_numeric_type (dict_type ps) = true).
  { unfold is_numeric_type. now rewrite Ht. }
  split.
  - rewrite numeric_dispatch by assumption. rewrite Ht.
    destruct (of_Z_exact n Hn) as (f & Hf & Hz).
    rewrite merge_numbers_fits.
    + assert (Hnums : exists rest, numbers (pre ++ VInt n :: post) = f :: rest).
      { unfold numbers. rewrite flat_map_app. simpl. rewrite Hf.
        replace (flat_map _ pre) with (@nil Float.t); [simpl; eauto |].
        symmetry. clear - Hpre. induction Hpre as [| v pre [Hv _] _ IH]; simpl; auto.
        now rewrite Hv. }
      destruct Hnums as [rest ->]. simpl. now rewrite Hz.
    + apply Forall_app. split.
      * eapply Forall_impl; [| exact Hpre]. simpl. tauto.
      * constructor; [| assumption]. simpl. now rewrite Hf.
  - rewrite numeric_dispatch by assumption. rewrite Ht. reflexivity.
Qed.

(** X6: for a numeric field whose values hold no overflowing [int], a
    number field returns the first number offered as a float, and an
    integer field returns its integer part, cut towards zero; an
    infinity or a nan, which have no integer part, give [None] in an
    integer field.  Without any number both return [None]. *)
Theorem numeric_field_cast (key : string) (ps : dict) (values : list value) :
  is_numeric_type (dict_type ps) = true ->
  Forall (fun v => overflows v = false) values ->
  merge_values key ps values =
  Ok (match numbers values with
      | [] => VNone
      | f :: _ =>
          if eq_str (dict_type ps) "integer" then
            match truncation f with
            | Some z => VInt z
            | None => VNone
            end
          else VFloat f
      end)
  /\ truncation (S754_infinity false) = None
  /\ truncation S754_nan = None
  /\ truncation (S754_finite true 7 (-1)) = Some (-3)%Z.
Proof.
  intros Ht Hfit. split; [| repeat split].
  rewrite numeric_dispatch by assumption.
  rewrite merge_numbers_fits by assumption.
  change (String.eqb "first" "max") with false.
  change (String.eqb "first" "min") with false. cbv iota.
  destruct (numbers values) as [| f rest]; simpl.
  - now destruct (eq_str (dict_type ps) "integer").
  - rewrite to_Z_truncation. reflexivity.
Qed.

End Numbers.

(* ================================================================= *)
(** ** The value of a field *)

Lemma foldM_ext (A S : Type) (f g : S -> A -> result S) (l : list A) :
  (forall x s, In x l -> f s x = g s x) ->
  forall s, foldM f l s = foldM g l s.
Proof.
  induction l as [| x l IH]; simpl; intros H s; [reflexivity |].
  rewrite (H x s) by auto. destruct (g s x); simpl; auto.
Qed.

Lemma take_cons_ne (n : nat) (s : string) : s <> "" -> Str.take (S n) s <> "".
Proof. destruct s; [congruence | discriminate]. Qed.

Lemma append_ne (a b : string) : a <> "" -> (a ++ b) <> "".
Proof. destruct a; [congruence | discriminate]. Qed.

Section Fields.
Context {rt : Runtime}.

Lemma not_none_false (v : value) : not_none v = false -> v = VNone.
Proof. destruct v; try discriminate; reflexivity. Qed.

(** *** Null values *)

Lemma stripped_strings_not_none (values : list value) :
  stripped_strings (filter not_none values) = stripped_strings values.
Proof.
  induction values as [| v values IH]; [reflexivity |].
  simpl filter. destruct (not_none v) eqn:E.
  - now rewrite !stripped_strings_cons, IH.
  - apply not_none_false in E. subst v. now rewrite stripped_strings_cons.
Qed.

Lemma flattened_not_none (values : list value) :
  flattened (filter not_none values) = flattened values.
Proof.
  unfold flattened.
  induction values as [| v values IH]; [reflexivity |].
  simpl filter. destruct (not_none v) eqn:E.
  - simpl. now rewrite IH.
  - apply not_none_false in E. subst v. exact IH.
Qed.

Lemma merge_objects_not_none (values : list value) :
  _merge_objects (filter not_none values) = _merge_objects values.
Proof.
  unfold _merge_objects. generalize (@nil (string * value)).
  induction values as [| v values IH]; intros out; [reflexivity |].
  simpl filter. destruct (not_none v) eqn:E.
  - simpl. now rewrite IH.
  - apply not_none_false in E. subst v. simpl. apply IH.
Qed.

Lemma merge_numbers_not_none (values : list value) (mode : string) :
  _merge_numbers (filter not_none values) mode = _merge_numbers values mode.
Proof.
  unfold _merge_numbers. f_equal. generalize (@nil Float.t).
  induction values as [| v values IH]; intros nums; [reflexivity |].
  simpl filter. destruct (not_none v) eqn:E.
  - simpl. destruct (nums_step nums v); simpl; auto.
  - apply not_none_false in E. subst v. simpl. apply IH.
Qed.

Lemma first_non_empty_not_none (values : list value) :
  _first_non_empty (filter not_none values) = _first_non_empty values.
Proof.
  induction values as [| v values IH]; [reflexivity |].
  simpl filter. destruct (not_none v) eqn:E.
  - now rewrite !first_non_empty_cons, IH.
  - apply not_none_false in E. subst v. now rewrite first_non_empty_cons.
Qed.

Lemma merge_values_not_none (key : string) (ps : dict) (values : list value) :
  merge_values key ps (filter not_none values) = merge_values key ps values.
Proof.
  unfold merge_values. rewrite schema_type_dict. simpl.
  set (t := dict_type ps).
  destruct (eq_str t "string").
  { f_equal. apply merge_strings_stripped. apply stripped_strings_not_none. }
  destruct (eq_str t "array").
  { rewrite (merge_arrays_flat (filter not_none values) values); auto.
    apply flattened_not_none. }
  destruct (eq_str t "object").
  { now rewrite merge_objects_not_none. }
  destruct (eq_str t "integer" || eq_str t "number").
  { now rewrite merge_numbers_not_none. }
  now rewrite first_non_empty_not_none.
Qed.

(** X7: whatever the type of a field, the values that are [None] do not
    count: the merge of the values is the merge of those that are not
    [None], in the same order. *)
Theorem null_values_are_skipped (key : string) (ps : dict) (values : list value) :
  merge_values key ps (filter (fun v => negb (is_none v)) values)
  = merge_values key ps values.
Proof. apply merge_values_not_none. Qed.

Lemma filter_all_none (values : list value) :
  Forall (fun v => v = VNone) values -> filter not_none values = [].
Proof.
  induction 1 as [| v values -> _ IH]; [reflexivity |]. simpl. exact IH.
Qed.

(** X8: a field for which every record gives [None], or nothing, gets
    the default of its type: [None] for a string, integer, number or
    boolean field and for a field of any other type, [{}] for an object
    field, and [[]] for an array field, unless its items are objects
    and the derivation of their identity keys raises, which the merge
    then raises too. *)
Theorem absent_field_defaults (key : string) (ps : dict) (values : list value) :
  Forall (fun v => v = VNone) values ->
  let t := dict_type ps in
  let items := _schema_items_schema ps in
  (eq_str t "array" = false ->
   merge_values key ps values = Ok (if eq_str t "object" then VDict [] else VNone))
  /\ (eq_str t "array" = true ->
      merge_values key ps values = Ok (VList [])
      \/ exists e,
           eq_str (dict_type items) "object" = true
           /\ _derive_identity_keys items = Raise e
           /\ merge_values key ps values = Raise e).
Proof.
  intros Hall t items. rewrite <- merge_values_not_none.
  rewrite (filter_all_none values Hall).
  unfold merge_values. rewrite schema_type_dict. simpl. fold t. split.
  - intros Ha. destruct (eq_str t "string") eqn:Es.
    { apply eq_str_true in Es. rewrite Es. reflexivity. }
    rewrite Ha. destruct (eq_str t "object"); [reflexivity |].
    destruct (eq_str t "integer" || eq_str t "number") eqn:En.
    { simpl. now destruct (eq_str t "integer"). }
    now destruct (eq_str t "boolean").
  - intros Ha. apply eq_str_true in Ha. rewrite Ha. simpl.
    unfold _merge_arrays. rewrite schema_type_dict. simpl. fold items.
    destruct (eq_str (dict_type items) "object") eqn:Eo; [| left; reflexivity].
    unfold _merge_array_of_objects.
    destruct (_derive_identity_keys items) as [keys | e]; simpl.
    + left. reflexivity.
    + right. exists e. auto.
Qed.

(** *** Boolean fields *)

Lemma boolean_dispatch (key : string) (ps : dict) (values : list value) :
  eq_str (dict_type ps) "boolean" = true ->
  merge_values key ps values =
  Ok (match _first_non_empty values with
      | VStr s0 =>
          let s := Str.lower (Str.strip s0) in
          if Str.mem s truth_words then VBool true
          else if Str.mem s false_words then VBool false
          else VNone
      | v => v
      end).
Proof.
  intros H. unfold merge_values. rewrite schema_type_dict. simpl.
  apply eq_str_true in H. rewrite H. reflexivity.
Qed.

Lemma first_non_empty_app (pre : list value) (v : value) (post : list value) :
  Forall (fun x => is_blank x = true) pre -> is_blank v = false ->
  _first_non_empty (pre ++ v :: post) = v.
Proof.
  intros Hpre Hv. induction Hpre as [| x pre Hx _ IH]; simpl app.
  - rewrite first_non_empty_cons. now rewrite Hv.
  - rewrite first_non_empty_cons. now rewrite Hx.
Qed.

(** X9: a boolean field is decided by the first value that is not
    [None], blank text, [[]] or [{}], and by it alone: the values after
    it are never read.  If it is text, its lower-cased form without
    outer whitespace gives [True] for "true", "ja", "yes" and "1",
    [False] for "false", "nee", "no" and "0", and [None] for any other
    word; if it is not text it is returned as it is, a number or a list
    included.  The result is never text. *)
Theorem boolean_field_first_candidate (key : string) (ps : dict)
    (pre : list value) (v : value) (post : list value) :
  eq_str (dict_type ps) "boolean" = true ->
  Forall (fun x => is_blank x = true) pre -> is_blank v = false ->
  merge_values key ps (pre ++ v :: post) = merge_values key ps [v]
  /\ (forall s, v = VStr s ->
        merge_values key ps [v] =
        Ok (if Str.mem (Str.lower (Str.strip s)) truth_words then VBool true
            else if Str.mem (Str.lower (Str.strip s)) false_words then VBool false
            else VNone))
  /\ (is_str v = false -> merge_values key ps [v] = Ok v)
  /\ (forall s, merge_values key ps (pre ++ v :: post) <> Ok (VStr s)).
Proof.
  intros Ht Hpre Hv.
  assert (H1 : _first_non_empty [v] = v).
  { apply (first_non_empty_app [] v []); auto. }
  rewrite !boolean_dispatch by assumption.
  rewrite first_non_empty_app by assumption. rewrite H1.
  split; [reflexivity |]. split; [| split].
  - intros s ->. reflexivity.
  - intros Hs. destruct v; try reflexivity. discriminate.
  - intros s. destruct v as [| | | | s0 | |]; try discriminate.
    cbv beta iota zeta.
    destruct (Str.mem (Str.lower (Str.strip s0)) truth_words);
      [discriminate |].
    destruct (Str.mem (Str.lower (Str.strip s0)) false_words); discriminate.
Qed.

(** *** The type of a merged value *)

Lemma stripped_strings_ne (values : list value) (s : string) :
  In s (stripped_strings values) -> s <> "".
Proof.
  unfold stripped_strings. intros H. apply in_map_iff in H.
  destruct H as (v & <- & Hv). apply filter_In in Hv. destruct Hv as [_ Hv].
  apply andb_true_iff in Hv. destruct Hv as [_ Hv].
  apply negb_true_iff in Hv. now apply String.eqb_neq in Hv.
Qed.

Lemma merge_strings_ne (values : list value) (mode : string) (n : nat) (s : string) :
  _merge_strings values mode (S n) = VStr s -> s <> "".
Proof.
  unfold _merge_strings.
  destruct (stripped_strings values) as [| s0 ss] eqn:E; [discriminate |].
  assert (H0 : s0 <> "").
  { apply (stripped_strings_ne values). rewrite E. now left. }
  destruct (String.eqb mode "concat").
  - rewrite concat_loop. simpl dedup_by. intros [= <-].
    apply take_cons_ne. unfold Str.join. simpl.
    destruct (dedup_by _ _ ss); [exact H0 | now apply append_ne].
  - now intros [= <-].
Qed.

(** X10: the value that the merge gives to a field has the declared
    type or is [None]: a string field holds [None] or text that is not
    empty, an array field always a list, an object field always an
    object, an integer field [None] or an [int], a number field [None]
    or a float; a boolean field never holds text. *)
Theorem merged_value_conforms (key : string) (ps : dict) (values : list value)
    (v : value) :
  merge_values key ps values = Ok v ->
  let t := dict_type ps in
  (eq_str t "string" = true -> v = VNone \/ exists s, v = VStr s /\ s <> "")
  /\ (eq_str t "array" = true -> is_list v = true)
  /\ (eq_str t "object" = true -> is_dict v = true)
  /\ (eq_str t "integer" = true -> v = VNone \/ exists z, v = VInt z)
  /\ (eq_str t "number" = true -> v = VNone \/ exists f, v = VFloat f)
  /\ (eq_str t "boolean" = true -> is_str v = false).
Proof.
  intros H t. repeat split; intros Ht; pose proof Ht as Ht'; apply eq_str_true in Ht'.
  - unfold merge_values in H. rewrite schema_type_dict in H. simpl in H.
    fold t in H. rewrite Ht in H. injection H as <-.
    destruct (_merge_strings values _ 1600) as [| | | | s | |] eqn:E;
      try (unfold _merge_strings in E;
           destruct (stripped_strings values); [discriminate |];
           destruct (String.eqb _ "concat"); discriminate).
    + now left.
    + right. exists s. split; [reflexivity |]. now apply merge_strings_ne in E.
  - unfold merge_values in H. rewrite schema_type_dict in H. simpl in H.
    fold t in H. rewrite Ht' in H. simpl in H.
    destruct (_merge_arrays values _); simpl in H; [| discriminate].
    now injection H as <-.
  - unfold merge_values in H. rewrite schema_type_dict in H. simpl in H.
    fold t in H. rewrite Ht' in H. simpl in H. now injection H as <-.
  - rewrite numeric_dispatch in H by (unfold is_numeric_type; fold t; now rewrite Ht).
    fold t in H. rewrite Ht in H. unfold _merge_numbers in H.
    destruct (foldM nums_step values []) as [nums | e]; simpl in H; [| discriminate].
    injection H as <-. destruct nums as [| x rest]; [now left |]. simpl.
    destruct (Float.to_Z x); eauto.
  - rewrite numeric_dispatch in H
      by (unfold is_numeric_type; fold t; rewrite Ht; apply orb_true_r).
    fold t in H. rewrite Ht' in H. simpl in H. unfold _merge_numbers in H.
    destruct (foldM nums_step values []) as [nums | e]; simpl in H; [| discriminate].
    injection H as <-. destruct nums as [| x rest]; [now left |]. simpl. eauto.
  - rewrite boolean_dispatch in H by assumption. injection H as <-.
    destruct (_first_non_empty values) as [| | | | s0 | |]; try reflexivity.
    repeat match goal with
           | |- context [if ?c then _ else _] => destruct c
           end; reflexivity.
Qed.

End Fields.

(* ================================================================= *)
(** ** The record as a whole *)

Section Record.
Context {rt : Runtime}.

Lemma merge_fields_ext (cs cs' : list dict) (props : dict) :
  (forall k, In k (Dict.keys props) ->
             map (get_or_none k) cs = map (get_or_none k) cs') ->
  merge_fields cs props = merge_fields cs' props.
Proof.
  intros H. unfold merge_fields. apply foldM_ext.
  intros [k s] out Hin. simpl. unfold merge_field.
  rewrite (H k); [reflexivity |]. apply in_map_iff. now exists (k, s).
Qed.

(** X11: the aggregator reads of a partial record only the values of
    the declared properties, a missing key being the same as a [None]:
    two lists of partial records that agree on these, record by record,
    give the same result.  So a key that the schema does not declare is
    ignored, wherever it occurs. *)
Theorem aggregate_reads_declared_keys (cs cs' : list dict) (schema : dict)
    (technical filetype_guess : value) :
  Forall2 (fun d d' => forall k, In k (Dict.keys (_schema_properties schema)) ->
                                 get_or_none k d = get_or_none k d') cs cs' ->
  aggregate_chunk_dicts cs schema technical filetype_guess
  = aggregate_chunk_dicts cs' schema technical filetype_guess.
Proof.
  intros H.
  assert (Hm : merge_fields cs (_schema_properties schema)
               = merge_fields cs' (_schema_properties schema)).
  { apply merge_fields_ext. intros k Hk.
    induction H as [| d d' cs cs' Hd _ IH]; [reflexivity |].
    simpl. now rewrite (Hd k Hk), IH. }
  destruct H as [| d d' cs cs' Hd Hrest]; [reflexivity |].
  unfold aggregate_chunk_dicts. now rewrite Hm.
Qed.

(** X12: a partial record that gives [None], or nothing, for every
    declared property changes nothing, wherever it stands among the
    others, as long as one other record is left; such is the empty
    record [{}]. *)
Theorem null_record_is_skipped (cs1 cs2 : list dict) (d : dict) (schema : dict)
    (technical filetype_guess : value) :
  (forall k, In k (Dict.keys (_schema_properties schema)) ->
             get_or_none k d = VNone) ->
  (cs1 ++ cs2)%list <> [] ->
  aggregate_chunk_dicts (cs1 ++ d :: cs2) schema technical filetype_guess
  = aggregate_chunk_dicts (cs1 ++ cs2) schema technical filetype_guess.
Proof.
  intros Hd Hne.
  assert (Hm : merge_fields (cs1 ++ d :: cs2) (_schema_properties schema)
               = merge_fields (cs1 ++ cs2) (_schema_properties schema)).
  { unfold merge_fields. apply foldM_ext. intros [k s] out Hin. simpl.
    unfold merge_field.
    rewrite <- (merge_values_not_none k _ (map (get_or_none k) (cs1 ++ d :: cs2))).
    rewrite <- (merge_values_not_none k _ (map (get_or_none k) (cs1 ++ cs2))).
    rewrite !map_app, !filter_app. simpl map. simpl filter.
    rewrite (Hd k); [reflexivity |]. apply in_map_iff. now exists (k, s). }
  unfold aggregate_chunk_dicts. rewrite Hm.
  destruct (cs1 ++ cs2)%list as [| c cs] eqn:E; [congruence |].
  destruct (cs1 ++ d :: cs2)%list eqn:E'; [| reflexivity].
  destruct cs1; discriminate.
Qed.

Lemma merge_fields_get (cs : list dict) (props : dict) : forall out0 out,
  NoDup (Dict.keys props) ->
  foldM (fun out kp =>
           v <- merge_field cs (fst kp) (snd kp) ;;
           Ok (Dict.set (fst kp) v out)) props out0 = Ok out ->
  (forall k s, In (k, s) props ->
     exists v, merge_field cs k s = Ok v /\ Dict.get k out = Some v)
  /\ (forall k, ~ In k (Dict.keys props) -> Dict.get k out = Dict.get k out0).
Proof.
  induction props as [| [k0 s0] props IH]; simpl; intros out0 out Hnd H.
  - injection H as <-. split; [intros k s [] | reflexivity].
  - inversion Hnd as [| ? ? Hk0 Hnd']; subst.
    destruct (merge_field cs k0 s0) as [v0 | e] eqn:E0; simpl in H; [| discriminate].
    destruct (IH _ _ Hnd' H) as [Hin Hout]. split.
    + intros k s [Heq | Hks].
      * inversion Heq; subst k s. exists v0. split; [exact E0 |].
        rewrite (Hout k0 Hk0).
        apply DictFacts.get_set_same.
      * now apply Hin.
    + intros k Hk. rewrite Hout by tauto.
      apply DictFacts.get_set_other. intros ->. tauto.
Qed.

Lemma merge_fields_raises (cs : list dict) (props : dict) (e : exn) : forall out0,
  foldM (fun out kp =>
           v <- merge_field cs (fst kp) (snd kp) ;;
           Ok (Dict.set (fst kp) v out)) props out0 = Raise e
  <-> exists pre k s post,
        props = (pre ++ (k, s) :: post)%list
        /\ Forall (fun ks => exists v, merge_field cs (fst ks) (snd ks) = Ok v) pre
        /\ merge_field cs k s = Raise e.
Proof.
  induction props as [| [k0 s0] props IH]; simpl; intros out0.
  - split; [discriminate |]. intros (pre & k & s & post & H & _).
    destruct pre; discriminate.
  - destruct (merge_field cs k0 s0) as [v0 | e0] eqn:E0; simpl.
    + rewrite IH. split.
      * intros (pre & k & s & post & -> & Hpre & Hr).
        exists ((k0, s0) :: pre), k, s, post. repeat split; auto.
        constructor; [simpl; eauto | assumption].
      * intros (pre & k & s & post & Heq & Hpre & Hr).
        destruct pre as [| p pre]; simpl in Heq.
        -- injection Heq as <- <- <-. congruence.
        -- injection Heq as <- ->. inversion Hpre; subst.
           exists pre, k, s, post. auto.
    + split.
      * intros [= <-]. exists [], k0, s0, props. auto.
      * intros (pre & k & s & post & Heq & Hpre & Hr).
        destruct pre as [| p pre]; simpl in Heq.
        -- injection Heq as <- <- <-. congruence.
        -- injection Heq as <- ->. inversion Hpre as [| ? ? [v Hv] ?]; subst.
           simpl in Hv. congruence.
Qed.

(** X13: for a non-empty list of partial records the fields are merged
    one by one, in the order of the schema, each from the values that
    the records give for it alone: the record returned holds, for every
    declared property other than "technical" and "filetype", the merge
    of that field.  The aggregator raises exactly when the merge of
    some field does, and then with the exception of the first such
    field. *)
Theorem record_holds_field_merges (c : dict) (cs : list dict) (schema : dict)
    (technical filetype_guess : value) :
  let props := _schema_properties schema in
  NoDup (Dict.keys props) ->
  (forall out,
     aggregate_chunk_dicts (c :: cs) schema technical filetype_guess = Ok out ->
     forall k s, In (k, s) props -> k <> "technical" -> k <> "filetype" ->
       exists v, merge_field (c :: cs) k s = Ok v /\ Dict.get k out = Some v)
  /\ (forall e,
        aggregate_chunk_dicts (c :: cs) schema technical filetype_guess = Raise e
        <-> exists pre k s post,
              props = (pre ++ (k, s) :: post)%list
              /\ Forall (fun ks => exists v,
                           merge_field (c :: cs) (fst ks) (snd ks) = Ok v) pre
              /\ merge_field (c :: cs) k s = Raise e).
Proof.
  intros props Hnd. split.
  - intros out Hagg k s Hin Ht Hf.
    destruct (merge_fields (c :: cs) props) as [merged | e] eqn:Hm.
    + destruct (aggregate_nonempty c cs schema technical filetype_guess merged Hm)
        as [Hagg' _].
      rewrite Hagg' in Hagg. injection Hagg as <-.
      destruct (merge_fields_get (c :: cs) props [] merged Hnd Hm) as [Hget _].
      destruct (Hget k s Hin) as (v & Hv & Hg). exists v. split; [exact Hv |].
      rewrite get_inject_filetype, get_inject_technical.
      apply String.eqb_neq in Ht, Hf. now rewrite Ht, Hf.
    + unfold aggregate_chunk_dicts in Hagg. fold props in Hagg.
      rewrite Hm in Hagg. discriminate.
  - intros e. rewrite <- (merge_fields_raises (c :: cs) props e []).
    fold (merge_fields (c :: cs) props).
    unfold aggregate_chunk_dicts. fold props.
    destruct (merge_fields (c :: cs) props); simpl; split; intros H;
      try discriminate H; exact H.
Qed.

End Record.

(* ================================================================= *)
(** ** Laws of the deep merge *)

Lemma dict_ext (d1 : dict) : forall d2 : dict,
  Dict.keys d1 = Dict.keys d2 -> NoDup (Dict.keys d1) ->
  (forall k, Dict.get k d1 = Dict.get k d2) -> d1 = d2.
Proof.
  induction d1 as [| [k v] d1 IH]; intros [| [k' v'] d2] Hk Hnd Hg;
    try discriminate; [reflexivity |].
  simpl in Hk. injection Hk as <- Hk. inversion Hnd as [| ? ? Hni Hnd']; subst.
  pose proof (Hg k) as Hv. simpl in Hv. rewrite String.eqb_refl in Hv.
  injection Hv as <-. f_equal. apply IH; auto.
  intros x. specialize (Hg x). simpl in Hg.
  destruct (String.eqb x k) eqn:E; [| exact Hg].
  apply String.eqb_eq in E. subst x.
  assert (H1 : Dict.get k d1 = None) by now apply DictFacts.get_none_iff.
  assert (H2 : Dict.get k d2 = None).
  { apply DictFacts.get_none_iff. now rewrite <- Hk. }
  now rewrite H1, H2.
Qed.

Lemma keys_deep_merge_item (out : dict) (k : string) (v : value) :
  Dict.keys (deep_merge_item deep_merge_value out k v) =
  if Dict.mem k out then Dict.keys out else (Dict.keys out ++ [k])%list.
Proof.
  unfold deep_merge_item, Dict.mem.
  destruct (Dict.get k out) as [o |] eqn:E.
  - assert (Hin : In k (Dict.keys out)).
    { apply DictFacts.mem_iff. unfold Dict.mem. now rewrite E. }
    destruct (in_empties o); [now apply DictFacts.keys_set_present |].
    destruct (is_dict o && is_dict v); [now apply DictFacts.keys_set_present |].
    reflexivity.
  - apply DictFacts.keys_set_absent. now apply DictFacts.get_none_iff.
Qed.

Lemma keys_deep_merge (b : dict) : forall a : dict,
  NoDup (Dict.keys b) ->
  Dict.keys (_deep_merge_objects a b) =
  (Dict.keys a ++ filter (fun k => negb (Dict.mem k a)) (Dict.keys b))%list.
Proof.
  unfold _deep_merge_objects.
  induction b as [| [k v] b IH]; intros a Hnd; simpl.
  - now rewrite app_nil_r.
  - inversion Hnd as [| ? ? Hni Hnd']; subst.
    rewrite IH by assumption. rewrite keys_deep_merge_item.
    destruct (Dict.mem k a) eqn:Em; simpl.
    + f_equal. apply filter_ext_in. intros x Hx. unfold Dict.mem.
      rewrite get_deep_merge_item.
      destruct (String.eqb x k) eqn:E; [| reflexivity].
      apply String.eqb_eq in E. subst x. tauto.
    + rewrite <- app_assoc. simpl. do 2 f_equal.
      apply filter_ext_in. intros x Hx. unfold Dict.mem.
      rewrite get_deep_merge_item.
      destruct (String.eqb x k) eqn:E; [| reflexivity].
      apply String.eqb_eq in E. subst x. tauto.
Qed.

Lemma set_values (P : value -> Prop) (k : string) (v : value) (d : dict) :
  P v -> Forall (fun kv => P (snd kv)) d ->
  Forall (fun kv => P (snd kv)) (Dict.set k v d).
Proof.
  intros Hv. induction 1 as [| [k' v'] d Hx Hd IH]; simpl.
  - constructor; auto.
  - destruct (String.eqb k k'); constructor; simpl; auto.
Qed.

Lemma get_values (P : value -> Prop) (k : string) (v : value) (d : dict) :
  Forall (fun kv => P (snd kv)) d -> Dict.get k d = Some v -> P v.
Proof.
  intros H Hg. apply DictFacts.get_in in Hg. rewrite Forall_forall in H.
  apply (H (k, v) Hg).
Qed.

Lemma deep_merge_value_wf (v : value) :
  forall o, value_wf o -> value_wf v -> value_wf (deep_merge_value o v).
Proof.
  induction v as [| | | | | l IH | b IH] using value_ind; intros o Ho Hv;
    try (rewrite deep_merge_value_other; [exact Ho | destruct o; reflexivity]).
  destruct o as [| | | | | | a];
    try (rewrite deep_merge_value_other; [exact Ho | reflexivity]).
  rewrite deep_merge_value_dict. unfold _deep_merge_objects.
  inversion Hv as [| | | | | | ? Hnd Hvals]; subst. clear Hv Hnd.
  revert a Ho. induction b as [| [k v] b IHb]; intros a Ho; simpl; [exact Ho |].
  inversion IH as [| ? ? IHv IH']; subst.
  inversion Hvals as [| ? ? Hv Hvals']; subst. simpl in IHv, Hv.
  apply IHb; auto.
  inversion Ho as [| | | | | | ? Hnda Hvala]; subst.
  unfold deep_merge_item.
  destruct (Dict.get k a) as [o |] eqn:E.
  - destruct (in_empties o).
    + constructor; [now apply DictFacts.NoDup_keys_set | now apply set_values].
    + destruct (is_dict o && is_dict v); [| exact Ho].
      constructor; [now apply DictFacts.NoDup_keys_set |].
      apply set_values; [| assumption].
      apply IHv; [| assumption]. apply (get_values value_wf k o a Hvala E).
  - constructor; [now apply DictFacts.NoDup_keys_set | now apply set_values].
Qed.

Lemma deep_merge_wf (a b : dict) :
  dict_wf a -> dict_wf b -> dict_wf (_deep_merge_objects a b).
Proof.
  intros Ha Hb. unfold dict_wf. rewrite <- deep_merge_value_dict.
  now apply deep_merge_value_wf.
Qed.

(** X14: the keys of a deep merge are the keys of the left operand, in
    their order, followed by the keys that only the right operand has,
    in theirs.  The merge of two well-formed objects (no key bound
    twice at any depth) is well-formed. *)
Theorem deep_merge_key_order (a b : dict) :
  NoDup (Dict.keys b) ->
  Dict.keys (_deep_merge_objects a b) =
  (Dict.keys a ++ filter (fun k => negb (Dict.mem k a)) (Dict.keys b))%list
  /\ (dict_wf a -> dict_wf b -> dict_wf (_deep_merge_objects a b)).
Proof.
  intros Hnd. split; [now apply keys_deep_merge | apply deep_merge_wf].
Qed.

Lemma filter_none (A : Type) (p : A -> bool) (l : list A) :
  (forall x, In x l -> p x = false) -> filter p l = [].
Proof.
  induction l as [| x l IH]; intros H; [reflexivity |].
  simpl. rewrite (H x) by now left. apply IH. intros y Hy. apply H. now right.
Qed.

Lemma keys_deep_merge_covered (a b : dict) :
  NoDup (Dict.keys b) -> incl (Dict.keys b) (Dict.keys a) ->
  Dict.keys (_deep_merge_objects a b) = Dict.keys a.
Proof.
  intros Hnd Hincl. rewrite keys_deep_merge by assumption.
  rewrite filter_none; [apply app_nil_r |].
  intros k Hk. apply negb_false_iff. apply DictFacts.mem_iff. now apply Hincl.
Qed.

Lemma deep_merge_value_idem (v : value) :
  value_wf v -> deep_merge_value v v = v.
Proof.
  induction v as [| | | | | l IH | a IH] using value_ind; intros Hwf;
    try reflexivity.
  rewrite deep_merge_value_dict. f_equal.
  inversion Hwf as [| | | | | | ? Hnd Hvals]; subst.
  apply dict_ext.
  - apply keys_deep_merge_covered; [assumption | apply incl_refl].
  - rewrite keys_deep_merge_covered; [assumption | assumption | apply incl_refl].
  - intros k. rewrite get_deep_merge by assumption.
    destruct (Dict.get k a) as [v |] eqn:E; [| reflexivity].
    f_equal. unfold merged_value.
    destruct (in_empties v); [reflexivity |].
    destruct (is_dict v && is_dict v); [| reflexivity].
    apply DictFacts.get_in in E. rewrite Forall_forall in IH, Hvals.
    apply (IH (k, v) E). apply (Hvals (k, v) E).
Qed.

Lemma in_empties_dict_nil (a : dict) : in_empties (VDict a) = true -> a = [].
Proof. destruct a; [reflexivity | discriminate]. Qed.

Lemma deep_merge_nonempty (a b : dict) :
  a <> [] -> _deep_merge_objects a b <> [].
Proof.
  unfold _deep_merge_objects. revert a.
  induction b as [| [k v] b IH]; intros a Ha; simpl; [exact Ha |].
  apply IH. unfold deep_merge_item.
  destruct a as [| [k0 v0] a]; [congruence |].
  destruct (Dict.get k ((k0, v0) :: a)) as [o |].
  - destruct (in_empties o); [simpl; destruct (String.eqb k k0); discriminate |].
    destruct (is_dict o && is_dict v); [| discriminate].
    simpl. destruct (String.eqb k k0); discriminate.
  - simpl. destruct (String.eqb k k0); discriminate.
Qed.

Lemma deep_merge_value_absorbs (v : value) :
  forall o, value_wf o -> value_wf v ->
  deep_merge_value (deep_merge_value o v) v = deep_merge_value o v.
Proof.
  induction v as [| | | | | l IH | b IH] using value_ind; intros o Ho Hv;
    try (rewrite !deep_merge_value_other; [reflexivity | destruct o; reflexivity ..]).
  destruct o as [| | | | | | a]; try reflexivity.
  rewrite !deep_merge_value_dict. f_equal.
  pose proof (deep_merge_wf a b Ho Hv) as Hr.
  inversion Hv as [| | | | | | ? Hnd Hvals]; subst.
  inversion Ho as [| | | | | | ? Hnda Hvala]; subst.
  inversion Hr as [| | | | | | ? Hndr Hvalr]; subst.
  assert (Hcov : incl (Dict.keys b) (Dict.keys (_deep_merge_objects a b))).
  { intros k Hk. rewrite keys_deep_merge by assumption. apply in_app_iff.
    destruct (Dict.mem k a) eqn:Em.
    - left. now apply DictFacts.mem_iff.
    - right. apply filter_In. split; [assumption |]. now rewrite Em. }
  apply dict_ext.
  - now apply keys_deep_merge_covered.
  - rewrite keys_deep_merge_covered; assumption.
  - intros k. rewrite get_deep_merge by assumption.
    rewrite (get_deep_merge b a k) by assumption.
    destruct (Dict.get k b) as [v |] eqn:Eb; [| reflexivity].
    f_equal.
    assert (Hvw : value_wf v) by apply (get_values value_wf k v b Hvals Eb).
    assert (IHv : forall o, value_wf o -> value_wf v ->
                            deep_merge_value (deep_merge_value o v) v
                            = deep_merge_value o v).
    { rewrite Forall_forall in IH. apply DictFacts.get_in in Eb.
      apply (IH (k, v) Eb). }
    destruct (Dict.get k a) as [o |] eqn:Ea; unfold merged_value.
    + destruct (in_empties o) eqn:Eo.
      * destruct (in_empties v); [reflexivity |].
        destruct (is_dict v && is_dict v); [| reflexivity].
        now apply deep_merge_value_idem.
      * destruct (is_dict o && is_dict v) eqn:Ed.
        -- apply andb_true_iff in Ed. destruct Ed as [Ed1 Ed2].
           destruct o as [| | | | | | ao]; try discriminate.
           destruct v as [| | | | | | bv]; try discriminate.
           assert (Hne : in_empties (deep_merge_value (VDict ao) (VDict bv)) = false).
           { rewrite deep_merge_value_dict.
             destruct (_deep_merge_objects ao bv) eqn:Em; [| reflexivity].
             exfalso. apply (deep_merge_nonempty ao bv); [| exact Em].
             intros ->. discriminate. }
           rewrite Hne.
           replace (is_dict (deep_merge_value (VDict ao) (VDict bv))) with true
             by (now rewrite deep_merge_value_dict).
           cbv [is_dict andb].
           apply IHv; [| assumption].
           apply (get_values value_wf k (VDict ao) a Hvala Ea).
        -- rewrite Eo, Ed. reflexivity.
    + destruct (in_empties v); [reflexivity |].
      destruct (is_dict v && is_dict v); [| reflexivity].
      now apply deep_merge_value_idem.
Qed.

Lemma deep_merge_disjoint (b : dict) : forall a : dict,
  NoDup (Dict.keys b) ->
  (forall k, In k (Dict.keys b) -> ~ In k (Dict.keys a)) ->
  _deep_merge_objects a b = (a ++ b)%list.
Proof.
  unfold _deep_merge_objects.
  induction b as [| [k v] b IH]; intros a Hnd Hdis; simpl.
  - now rewrite app_nil_r.
  - inversion Hnd as [| ? ? Hni Hnd']; subst.
    assert (Hk : Dict.get k a = None).
    { apply DictFacts.get_none_iff. apply Hdis. now left. }
    unfold deep_merge_item at 2. rewrite Hk.
    assert (Hset : Dict.set k v a = (a ++ [(k, v)])%list).
    { clear - Hk. induction a as [| [k' v'] a IHa]; simpl in *; [reflexivity |].
      destruct (String.eqb k k'); [discriminate |]. f_equal. now apply IHa. }
    rewrite Hset, IH; auto.
    + now rewrite <- app_assoc.
    + intros x Hx Hin. unfold Dict.keys in Hin. rewrite map_app in Hin.
      apply in_app_iff in Hin. destruct Hin as [Hin | [<- | []]].
      * apply (Hdis x); [now right | exact Hin].
      * tauto.
Qed.

(** X15: the empty object is neutral for the deep merge on either side,
    an object merged with itself is unchanged, and so is the result of
    a merge when its right operand is merged into it once more.  When
    the two operands share no key the merge puts the bindings of the
    right one behind those of the left one. *)
Theorem deep_merge_identities (a b : dict) :
  dict_wf a -> dict_wf b ->
  _deep_merge_objects a [] = a
  /\ _deep_merge_objects [] a = a
  /\ _deep_merge_objects a a = a
  /\ _deep_merge_objects (_deep_merge_objects a b) b = _deep_merge_objects a b
  /\ ((forall k, In k (Dict.keys b) -> ~ In k (Dict.keys a)) ->
      _deep_merge_objects a b = (a ++ b)%list).
Proof.
  intros Ha Hb.
  inversion Ha as [| | | | | | ? Hnda _]; subst.
  inversion Hb as [| | | | | | ? Hndb _]; subst.
  split; [reflexivity |]. split; [| split; [| split]].
  - rewrite deep_merge_disjoint; auto.
  - pose proof (deep_merge_value_idem (VDict a) Ha) as H.
    rewrite deep_merge_value_dict in H. now injection H.
  - pose proof (deep_merge_value_absorbs (VDict b) (VDict a) Ha Hb) as H.
    rewrite !deep_merge_value_dict in H. now injection H.
  - intros Hdis. now apply deep_merge_disjoint.
Qed.

Lemma merge_objects_wf (values : list value) :
  Forall value_wf values -> dict_wf (_merge_objects values).
Proof.
  unfold _merge_objects.
  assert (H : forall out, dict_wf out -> Forall value_wf values ->
                          dict_wf (fold_left
                                     (fun out v => match v with
                                                   | VDict d => _deep_merge_objects out d
                                                   | _ => out
                                                   end) values out)).
  { induction values as [| v values IH]; intros out Ho Hv; simpl; [exact Ho |].
    inversion Hv; subst. apply IH; [| assumption].
    destruct v; try exact Ho. now apply deep_merge_wf. }
  apply H. constructor; constructor.
Qed.

Lemma merge_objects_dicts (values : list value) :
  _merge_objects (filter is_dict values) = _merge_objects values.
Proof.
  unfold _merge_objects. generalize (@nil (string * value)).
  induction values as [| v values IH]; intros out; [reflexivity |].
  destruct v; simpl; apply IH.
Qed.

(** X16: an object field ignores every value that is not an object; the
    merge of a single object is that object; and an object that
    directly follows a copy of itself adds nothing.  The result is
    well-formed when the values are. *)
Theorem merge_objects_repeats (values : list value) (d : dict) :
  Forall value_wf values -> dict_wf d ->
  _merge_objects (filter is_dict values) = _merge_objects values
  /\ _merge_objects [VDict d] = d
  /\ _merge_objects (values ++ [VDict d; VDict d])
     = _merge_objects (values ++ [VDict d])
  /\ dict_wf (_merge_objects values).
Proof.
  intros Hv Hd. split; [apply merge_objects_dicts |]. split; [| split].
  - unfold _merge_objects. simpl.
    inversion Hd as [| | | | | | ? Hnd _]; subst.
    rewrite deep_merge_disjoint; auto.
  - unfold _merge_objects. rewrite !fold_left_app. simpl.
    fold (_merge_objects values).
    pose proof (deep_merge_value_absorbs (VDict d) (VDict (_merge_objects values))
                  (merge_objects_wf values Hv) Hd) as H.
    rewrite !deep_merge_value_dict in H. now injection H.
  - now apply merge_objects_wf.
Qed.

(* ================================================================= *)
(** ** Identity of objects *)

(** *** Normal forms *)

Lemma is_space_lower (c : ascii) : Str.is_space (Str.lower_char c) = Str.is_space c.
Proof. destruct c as [[] [] [] [] [] [] [] []]; reflexivity. Qed.

Lemma lower_char_idem (c : ascii) :
  Str.lower_char (Str.lower_char c) = Str.lower_char c.
Proof. destruct c as [[] [] [] [] [] [] [] []]; reflexivity. Qed.

Lemma lower_idem (s : string) : Str.lower (Str.lower s) = Str.lower s.
Proof. induction s; simpl; [reflexivity |]. now rewrite lower_char_idem, IHs. Qed.

Lemma lower_lstrip (s : string) : Str.lower (Str.lstrip s) = Str.lstrip (Str.lower s).
Proof.
  induction s as [| c s IH]; simpl; [reflexivity |].
  rewrite is_space_lower. destruct (Str.is_space c); [exact IH | reflexivity].
Qed.

Lemma lower_rstrip (s : string) : Str.lower (Str.rstrip s) = Str.rstrip (Str.lower s).
Proof.
  induction s as [| c s IH]; simpl; [reflexivity |].
  rewrite <- IH, is_space_lower.
  destruct (Str.rstrip s); simpl; [| reflexivity].
  destruct (Str.is_space c); reflexivity.
Qed.

Lemma lower_strip (s : string) : Str.lower (Str.strip s) = Str.strip (Str.lower s).
Proof. unfold Str.strip. now rewrite lower_rstrip, lower_lstrip. Qed.

Lemma lstrip_fixed (s : string) :
  (forall c, first_char s = Some c -> Str.is_space c = false) -> Str.lstrip s = s.
Proof.
  destruct s as [| c s]; simpl; [reflexivity |]. intros H.
  now rewrite (H c eq_refl).
Qed.

Lemma rstrip_fixed (s : string) :
  (forall c, last_char s = Some c -> Str.is_space c = false) -> Str.rstrip s = s.
Proof.
  induction s as [| c s IH]; simpl; [reflexivity |]. intros H.
  destruct s as [| c' s'].
  - simpl. now rewrite (H c eq_refl).
  - rewrite IH by exact H. reflexivity.
Qed.

Lemma strip_fixed (s : string) : no_outer_space s -> Str.strip s = s.
Proof.
  intros [Hf Hl]. unfold Str.strip. rewrite lstrip_fixed by assumption.
  now apply rstrip_fixed.
Qed.

Lemma strip_idem (s : string) : Str.strip (Str.strip s) = Str.strip s.
Proof. apply strip_fixed. apply strip_no_outer_space. Qed.

Lemma num_char_plain (c : ascii) :
  is_num_char c = true -> Str.is_space c = false /\ Str.lower_char c = c.
Proof. destruct c as [[] [] [] [] [] [] [] []]; try discriminate; auto. Qed.

Lemma all_num_plain (s : string) :
  all_num s = true -> Str.strip s = s /\ Str.lower s = s.
Proof.
  intros H. split.
  - apply strip_fixed. split.
    + destruct s as [| c s]; simpl; [discriminate |].
      intros ? [= <-]. simpl in H. apply andb_true_iff in H.
      now apply num_char_plain.
    + induction s as [| c s IH]; [discriminate |].
      simpl in H. apply andb_true_iff in H. destruct H as [Hc Hs].
      destruct s as [| c' s'].
      * simpl. intros ? [= <-]. now apply num_char_plain.
      * intros x Hx. apply IH; assumption.
  - induction s as [| c s IH]; [reflexivity |].
    simpl in H. apply andb_true_iff in H. destruct H as [Hc Hs].
    simpl. rewrite IH by assumption. now destruct (num_char_plain c Hc) as [_ ->].
Qed.

Section Normal.
Context {rt : Runtime}.

(** X17: the normal form of a scalar ignores the case of its text and
    the whitespace around it, and normalising twice is normalising
    once; it has no whitespace at either end.  Values of different
    types can share a normal form: an [int] has that of its decimal
    text, [True] that of the text "True". *)
Theorem norm_scalar_insensitive (s : string) (x : value) (n : Z) :
  _norm_scalar (VStr (Str.strip s)) = _norm_scalar (VStr s)
  /\ _norm_scalar (VStr (Str.lower s)) = _norm_scalar (VStr s)
  /\ _norm_scalar (VStr (_norm_scalar x)) = _norm_scalar x
  /\ no_outer_space (_norm_scalar x)
  /\ _norm_scalar (VInt n) = Str.of_Z n
  /\ _norm_scalar (VStr (Str.of_Z n)) = _norm_scalar (VInt n)
  /\ _norm_scalar (VStr "True") = _norm_scalar (VBool true).
Proof.
  assert (Hn : _norm_scalar (VInt n) = Str.of_Z n).
  { simpl. destruct (all_num_plain _ (all_num_of_Z n)) as [-> ->]. reflexivity. }
  assert (Hidem : forall t, Str.lower (Str.strip (Str.lower (Str.strip t)))
                            = Str.lower (Str.strip t)).
  { intros t. now rewrite <- lower_strip, strip_idem, lower_idem. }
  split; [| split; [| split; [| split; [| split; [| split]]]]].
  - simpl. now rewrite strip_idem.
  - simpl. now rewrite <- lower_strip, lower_idem.
  - destruct x as [| [] | | | | |]; try reflexivity; simpl; apply Hidem.
  - destruct x as [| [] | | | | |];
      try (split; intros c; simpl; intros [= <-]; reflexivity);
      try (split; intros c; discriminate);
      simpl; rewrite lower_strip; apply strip_no_outer_space.
  - exact Hn.
  - reflexivity.
  - reflexivity.
Qed.

End Normal.

(** *** Identity keys *)

Lemma filterM_filter (A : Type) (p : A -> result bool) (l : list A) : forall r,
  filterM p l = Ok r ->
  r = filter (fun x => match p x with Ok true => true | _ => false end) l.
Proof.
  induction l as [| x l IH]; simpl; intros r H.
  - now injection H as <-.
  - destruct (p x) as [b | e]; simpl in H; [| discriminate].
    destruct (filterM p l) as [r' | e]; simpl in H; [| discriminate].
    injection H as <-. rewrite (IH r' eq_refl). now destruct b.
Qed.

Lemma filterM_in (A : Type) (p : A -> result bool) (l r : list A) (x : A) :
  filterM p l = Ok r -> (In x r <-> In x l /\ p x = Ok true).
Proof.
  intros H. rewrite (filterM_filter A p l r H), filter_In.
  destruct (p x) as [[] | e]; intuition discriminate.
Qed.

Lemma ok_inj (A : Type) (a b : A) : Ok a = Ok b -> a = b.
Proof. congruence. Qed.

Lemma firstn_in (A : Type) (n : nat) (l : list A) (x : A) :
  In x (firstn n l) -> In x l.
Proof.
  revert l. induction n as [| n IH]; intros [| y l]; simpl; try tauto.
  intros [-> | H]; auto.
Qed.

Section IdentityKeys.
Context {rt : Runtime}.

Lemma get_or_empty_in (props : dict) (k : string) :
  In k (Dict.keys props) -> In (k, get_or_empty k props) props.
Proof.
  intros H. unfold get_or_empty. apply DictFacts.mem_iff in H.
  unfold Dict.mem in H. destruct (Dict.get k props) eqn:E; [| discriminate].
  now apply DictFacts.get_in.
Qed.

(** X18: the identity keys derived from an item schema are at most
    four, and each of them is a declared property of the items whose
    schema has a simple type (string, integer, number or boolean).  If
    some declared name looks like an identifier and has a simple type,
    the keys are at most two and all look like identifiers.  No key is
    derived only if no property has a dict schema of a simple type, as
    when the schema declares no property at all. *)
Theorem identity_keys_sound (items : dict) (keys : list string) :
  _derive_identity_keys items = Ok keys ->
  let props := _schema_properties items in
  (List.length keys <= 4)%nat
  /\ Forall (fun k => exists s, In (k, s) props /\ _is_simple_type s = Ok true) keys
  /\ (forall k, In k (Dict.keys props) -> IdHint.search k = true ->
        _is_simple_type (get_or_empty k props) = Ok true ->
        keys <> [] /\ (List.length keys <= 2)%nat
        /\ Forall (fun k' => IdHint.search k' = true) keys)
  /\ (keys = [] ->
      forall k s, In (k, s) props -> is_dict s = true ->
                  _is_simple_type s <> Ok true)
  /\ (props = [] -> keys = []).
Proof.
  intros H props. unfold _derive_identity_keys in H. fold props in H.
  destruct props as [| kv0 props0] eqn:Ep.
  { apply ok_inj in H; subst keys. repeat split; simpl; auto; try lia; try contradiction. }
  rewrite <- Ep in *. clear Ep kv0 props0.
  destruct (filterM (fun k => _is_simple_type (get_or_empty k props))
              (filter IdHint.search (Dict.keys props))) as [l1 | e] eqn:E1;
    unfold bind in H; [| discriminate].
  assert (H1 : forall k, In k l1 <-> (In k (Dict.keys props) /\ IdHint.search k = true)
                                     /\ _is_simple_type (get_or_empty k props) = Ok true).
  { intros k. rewrite (filterM_in _ _ _ _ k E1), filter_In. reflexivity. }
  destruct l1 as [| k1 l1].
  - destruct (filterM (required_is_simple props) (_schema_required_keys items))
      as [l2 | e] eqn:E2; unfold bind in H; [| discriminate].
    assert (Hno : forall k, In k (Dict.keys props) -> IdHint.search k = true ->
                            _is_simple_type (get_or_empty k props) = Ok true -> False).
    { intros k Hk Hs Ht. apply (H1 k). auto. }
    destruct l2 as [| v2 l2].
    + destruct (filterM (fun ks => if is_dict (snd ks) then _is_simple_type (snd ks)
                                   else Ok false) props) as [l3 | e] eqn:E3;
        unfold bind in H; [| discriminate].
      apply ok_inj in H; subst keys.
      assert (H3 : forall ks, In ks l3 <-> In ks props
                                           /\ (if is_dict (snd ks)
                                               then _is_simple_type (snd ks)
                                               else Ok false) = Ok true).
      { intros ks. apply (filterM_in _ _ _ _ ks E3). }
      split; [| split; [| split; [| split]]].
      * rewrite length_firstn. lia.
      * apply Forall_forall. intros k Hk. apply firstn_in in Hk.
        apply in_map_iff in Hk. destruct Hk as ([k' s] & <- & Hks).
        apply H3 in Hks. destruct Hks as [Hin Hs]. simpl in Hs.
        exists s. split; [exact Hin |].
        destruct (is_dict s); [exact Hs | discriminate].
      * intros k Hk Hs Ht. exfalso. eauto.
      * intros Hnil k s Hin Hd Hs.
        assert (Hl3 : In (k, s) l3).
        { apply H3. split; [exact Hin |]. simpl. now rewrite Hd. }
        destruct l3 as [| x l3]; [contradiction |]. discriminate.
      * intros Hp. rewrite Hp in E3. simpl in E3. now injection E3 as <-.
    + unfold bind in H. apply ok_inj in H; subst keys.
      assert (H2 : forall v, In v (v2 :: l2) ->
                             exists s, v = VStr s /\ Dict.mem s props = true
                                       /\ _is_simple_type (get_or_empty s props) = Ok true).
      { intros v Hv. apply (filterM_in _ _ _ _ v E2) in Hv. destruct Hv as [_ Hv].
        destruct v as [| | | | s | |]; simpl in Hv; try discriminate.
        exists s. destruct (Dict.mem s props); [auto | discriminate]. }
      split; [| split; [| split; [| split]]].
      * rewrite length_map, length_firstn. lia.
      * apply Forall_forall. intros k Hk. apply in_map_iff in Hk.
        destruct Hk as (v & <- & Hv). apply firstn_in in Hv.
        destruct (H2 v Hv) as (s & -> & Hm & Hs). simpl.
        exists (get_or_empty s props). split; [| exact Hs].
        apply get_or_empty_in. now apply DictFacts.mem_iff.
      * intros k Hk Hs Ht. exfalso. eauto.
      * discriminate.
      * intros Hp. exfalso. destruct (H2 v2 (or_introl eq_refl)) as (s & _ & Hm & _).
        rewrite Hp in Hm. discriminate.
  - unfold bind in H. apply ok_inj in H; subst keys.
    split; [| split; [| split; [| split]]].
    + rewrite length_firstn. lia.
    + apply Forall_forall. intros k Hk. apply firstn_in in Hk.
      apply H1 in Hk. destruct Hk as [[Hin _] Hs].
      exists (get_or_empty k props). split; [| exact Hs].
      now apply get_or_empty_in.
    + intros _ _ _ _. split; [discriminate |]. split.
      * rewrite length_firstn. lia.
      * apply Forall_forall. intros k Hk. apply firstn_in in Hk.
        apply H1 in Hk. tauto.
    + discriminate.
    + intros Hp. exfalso.
      assert (Hk : In k1 (Dict.keys props)) by (apply (H1 k1); now left).
      rewrite Hp in Hk. contradiction.
Qed.

End IdentityKeys.

(** *** Names that look like identifiers *)

Lemma last_char_snoc (s : string) (c : ascii) :
  last_char (s ++ String c "") = Some c.
Proof.
  induction s as [| a s IH]; [reflexivity |].
  simpl. rewrite IH. destruct (s ++ String c "") eqn:E; [| reflexivity].
  destruct s; discriminate.
Qed.

Lemma last_char_split (s : string) (c : ascii) :
  last_char s = Some c -> exists r, s = r ++ String c "".
Proof.
  induction s as [| a s IH]; [discriminate |].
  destruct s as [| b s'].
  - intros [= <-]. now exists "".
  - intros H. destruct (IH H) as [r Hr]. exists (String a r). simpl. now rewrite Hr.
Qed.

Lemma match_word_iff (w : string) : forall s rest,
  IdHint.match_word w s = Some rest
  <-> exists m, s = m ++ rest /\ Str.lower m = w.
Proof.
  induction w as [| a w IH]; intros s rest; simpl.
  - split.
    + intros [= <-]. now exists "".
    + intros ([| c m] & -> & Hm); [reflexivity | discriminate].
  - destruct s as [| c s].
    + split; [discriminate |].
      intros ([| c m] & Hs & Hm); discriminate.
    + destruct (Ascii.eqb (Str.lower_char c) a) eqn:E.
      * apply Ascii.eqb_eq in E. rewrite IH. split.
        -- intros (m & -> & <-). exists (String c m). simpl. now rewrite E.
        -- intros ([| c' m] & Hs & Hm); [discriminate |].
           simpl in Hs, Hm. injection Hs as <- ->. injection Hm as _ <-.
           now exists m.
      * split; [discriminate |].
        intros ([| c' m] & Hs & Hm); [discriminate |].
        simpl in Hs, Hm. injection Hs as <- ->. injection Hm as Hc _.
        apply Ascii.eqb_neq in E. contradiction.
Qed.

Lemma at_end_iff (rest : string) :
  IdHint.at_end rest = true
  <-> rest = "" \/ first_char rest = Some "_"%char \/ rest = Str.nl.
Proof.
  destruct rest as [| c r]; simpl.
  - split; auto.
  - rewrite orb_true_iff, andb_true_iff, Ascii.eqb_eq, Ascii.eqb_eq, String.eqb_eq.
    unfold Str.nl. split.
    + intros [-> | [-> ->]]; auto.
    + intros [H | [[= ->] | [= -> ->]]]; [discriminate | auto | auto].
Qed.

Lemma word_here_iff (s : string) :
  IdHint.word_here s = true
  <-> exists m post,
        s = m ++ post /\ In (Str.lower m) IdHint.words
        /\ (post = "" \/ first_char post = Some "_"%char \/ post = Str.nl).
Proof.
  unfold IdHint.word_here. rewrite existsb_exists. split.
  - intros (w & Hw & H).
    destruct (IdHint.match_word w s) as [rest |] eqn:E; [| discriminate].
    apply match_word_iff in E. destruct E as (m & -> & <-).
    exists m, rest. split; [reflexivity |]. split; [exact Hw |].
    now apply at_end_iff.
  - intros (m & post & -> & Hw & Hp). exists (Str.lower m). split; [exact Hw |].
    assert (E : IdHint.match_word (Str.lower m) (m ++ post) = Some post).
    { apply match_word_iff. now exists m. }
    rewrite E. now apply at_end_iff.
Qed.

Lemma after_underscore_iff (s : string) :
  IdHint.after_underscore s = true
  <-> exists pre m post,
        s = (pre ++ "_") ++ m ++ post /\ In (Str.lower m) IdHint.words
        /\ (post = "" \/ first_char post = Some "_"%char \/ post = Str.nl).
Proof.
  induction s as [| c s IH]; simpl.
  - split; [discriminate |]. intros (pre & m & post & H & _).
    destruct pre; discriminate.
  - rewrite orb_true_iff, andb_true_iff, Ascii.eqb_eq, word_here_iff, IH. split.
    + intros [[-> (m & post & -> & Hw & Hp)] | (pre & m & post & -> & Hw & Hp)].
      * exists "", m, post. auto.
      * exists (String c pre), m, post. auto.
    + intros ([| a pre] & m & post & Hs & Hw & Hp); simpl in Hs.
      * injection Hs as -> ->. left. split; [reflexivity |]. now exists m, post.
      * injection Hs as -> ->. right. now exists pre, m, post.
Qed.

(** X19: a name looks like an identifier exactly when it holds one of
    the words id, identifier, identificatie, uuid, guid, uri, iri, url,
    ref, reference, nummer, number, code and key, in any case, so that
    the word starts the name or follows an underscore and ends the name
    or is followed by an underscore (or by a newline that ends the
    name).  So "user_ID" and "id_nr" do, "identity", "paid" and
    "userid" do not. *)
Theorem id_hint_delimited (s : string) :
  (IdHint.search s = true <-> delimited_word s)
  /\ IdHint.search "user_ID" = true /\ IdHint.search "id_nr" = true
  /\ IdHint.search "identity" = false /\ IdHint.search "paid" = false
  /\ IdHint.search "userid" = false.
Proof.
  split; [| repeat split].
  unfold IdHint.search, delimited_word.
  rewrite orb_true_iff, word_here_iff, after_underscore_iff. split.
  - intros [(m & post & -> & Hw & Hp) | (pre & m & post & -> & Hw & Hp)].
    + exists "", m, post. auto.
    + exists (pre ++ "_"), m, post. split; [reflexivity |]. split; [exact Hw |].
      split; [| exact Hp]. right. apply last_char_snoc.
  - intros (pre & m & post & -> & Hw & [-> | Hl] & Hp).
    + left. now exists m, post.
    + right. apply last_char_split in Hl. destruct Hl as [r ->].
      now exists r, m, post.
Qed.

(* ================================================================= *)
(** ** Canonical text and the order of keys *)

(** *** The order of strings *)

Lemma ascii_compare_lt_trans (a b c : ascii) :
  Ascii.compare a b = Lt -> Ascii.compare b c = Lt -> Ascii.compare a c = Lt.
Proof.
  unfold Ascii.compare. rewrite !N.compare_lt_iff. lia.
Qed.

Lemma ascii_compare_refl (a : ascii) : Ascii.compare a a = Eq.
Proof. unfold Ascii.compare. apply N.compare_refl. Qed.

Lemma string_compare_refl (a : string) : String.compare a a = Eq.
Proof. induction a; simpl; [reflexivity |]. now rewrite ascii_compare_refl. Qed.

Lemma string_compare_lt_trans (a : string) : forall b c,
  String.compare a b = Lt -> String.compare b c = Lt -> String.compare a c = Lt.
Proof.
  induction a as [| x a IH]; intros [| y b] [| z c]; simpl; try discriminate; auto.
  destruct (Ascii.compare x y) eqn:Exy; try discriminate;
    destruct (Ascii.compare y z) eqn:Eyz; try discriminate; intros H1 H2.
  - apply Ascii.compare_eq_iff in Exy, Eyz. subst.
    rewrite ascii_compare_refl. now apply (IH b c).
  - apply Ascii.compare_eq_iff in Exy. subst. now rewrite Eyz.
  - apply Ascii.compare_eq_iff in Eyz. subst. now rewrite Exy.
  - now rewrite (ascii_compare_lt_trans x y z).
Qed.

Lemma ltb_trans (a b c : string) :
  String.ltb a b = true -> String.ltb b c = true -> String.ltb a c = true.
Proof.
  unfold String.ltb. intros H1 H2.
  destruct (String.compare a b) eqn:E1; try discriminate.
  destruct (String.compare b c) eqn:E2; try discriminate.
  now rewrite (string_compare_lt_trans a b c).
Qed.

Lemma ltb_irrefl (a : string) : String.ltb a a = false.
Proof.
  unfold String.ltb. now rewrite string_compare_refl.
Qed.

Lemma leb_ltb (a b : string) : a <> b -> String.leb a b = true -> String.ltb a b = true.
Proof.
  unfold String.leb, String.ltb. intros Hne.
  destruct (String.compare a b) eqn:E; auto.
  apply String.compare_eq_iff in E. contradiction.
Qed.

Lemma not_leb_ltb (a b : string) : String.leb a b = false -> String.ltb b a = true.
Proof.
  unfold String.leb, String.ltb. rewrite (String.compare_antisym a b).
  destruct (String.compare b a); simpl; auto; discriminate.
Qed.

(** *** Sorted items *)

Lemma key_lt_trans (x y z : string * string) : key_lt x y -> key_lt y z -> key_lt x z.
Proof. unfold key_lt. apply ltb_trans. Qed.

Lemma insert_item_sorted (x : string * string) (l : list (string * string)) :
  key_sorted l -> (forall y, In y l -> fst y <> fst x) ->
  key_sorted (Json.insert_item x l).
Proof.
  unfold key_sorted. induction 1 as [| y l Hy Hl IH]; intros Hne; simpl.
  - constructor; constructor.
  - destruct (String.leb (fst x) (fst y)) eqn:E.
    + assert (Hxy : key_lt x y).
      { apply leb_ltb; [| exact E]. intros Heq. apply (Hne y); auto. now left. }
      constructor; [| now constructor].
      constructor; [exact Hxy |].
      eapply Forall_impl; [| exact Hy]. intros z Hz. now apply (key_lt_trans x y z).
    + assert (Hyx : key_lt y x) by now apply not_leb_ltb.
      constructor.
      * apply Forall_forall. intros z Hz. apply in_insert_item in Hz.
        destruct Hz as [-> | Hz]; [exact Hyx |].
        rewrite Forall_forall in Hy. now apply Hy.
      * apply IH. intros z Hz. apply Hne. now right.
Qed.

Lemma sort_items_sorted (l : list (string * string)) :
  NoDup (map fst l) -> key_sorted (Json.sort_items l).
Proof.
  induction l as [| x l IH]; intros Hnd.
  - constructor.
  - change (Json.sort_items (x :: l))
      with (Json.insert_item x (Json.sort_items l)).
    simpl in Hnd. inversion Hnd as [| ? ? Hni Hnd']; subst.
    apply insert_item_sorted; auto.
    intros y Hy Heq. rewrite in_sort_items in Hy. apply Hni. rewrite <- Heq.
    exact (in_map fst l y Hy).
Qed.

Lemma key_sorted_unique (l1 : list (string * string)) : forall l2,
  key_sorted l1 -> key_sorted l2 -> (forall x, In x l1 <-> In x l2) -> l1 = l2.
Proof.
  unfold key_sorted.
  induction l1 as [| x1 l1 IH]; intros [| x2 l2] H1 H2 Hin.
  - reflexivity.
  - exfalso. apply (Hin x2). now left.
  - exfalso. apply (Hin x1). now left.
  - inversion H1 as [| ? ? Hx1 Hl1]; subst. inversion H2 as [| ? ? Hx2 Hl2]; subst.
    rewrite Forall_forall in Hx1, Hx2.
    assert (Hirr : forall x, ~ key_lt x x).
    { intros x Hx. unfold key_lt in Hx. rewrite ltb_irrefl in Hx. discriminate. }
    assert (Heq : x1 = x2).
    { assert (Ha : In x1 (x2 :: l2)) by (apply Hin; now left).
      assert (Hb : In x2 (x1 :: l1)) by (apply Hin; now left).
      destruct Ha as [Ha | Ha]; [now symmetry |].
      destruct Hb as [Hb | Hb]; [assumption |].
      exfalso. apply (Hirr x1). apply (key_lt_trans x1 x2 x1); auto. }
    subst x2. f_equal. apply IH; auto.
    intros x. split; intros Hx.
    + assert (Ha : In x (x1 :: l2)) by (apply Hin; now right).
      destruct Ha as [<- | Ha]; [| exact Ha].
      exfalso. apply (Hirr x1). now apply Hx1.
    + assert (Ha : In x (x1 :: l1)) by (apply Hin; now right).
      destruct Ha as [<- | Ha]; [| exact Ha].
      exfalso. apply (Hirr x1). now apply Hx2.
Qed.

Section TextOfStructure.
Context {rt : Runtime}.

Lemma encoded_keys (d : dict) : map fst (encoded d) = Dict.keys d.
Proof. unfold encoded, Dict.keys. rewrite map_map. reflexivity. Qed.

Lemma map_dumps_same (l l2 : list value) :
  Forall2 same_structure l l2 ->
  Forall (fun v => forall w, value_wf v -> value_wf w -> same_structure v w ->
                             Json.dumps v = Json.dumps w) l ->
  Forall value_wf l -> Forall value_wf l2 ->
  map Json.dumps l = map Json.dumps l2.
Proof.
  induction 1 as [| a b l l2 Hab Hf IHf]; intros IH Wl Wl2; [reflexivity |].
  inversion IH; subst. inversion Wl; subst. inversion Wl2; subst.
  simpl. f_equal; auto.
Qed.

Lemma same_structure_dumps (v : value) :
  forall w, value_wf v -> value_wf w -> same_structure v w ->
            Json.dumps v = Json.dumps w.
Proof.
  induction v as [| | | | | l IH | d IH] using value_ind; intros w Wv Ww H;
    inversion H; subst; try reflexivity;
    try match goal with
        | Ha : is_list _ || is_dict _ = false |- _ => simpl in Ha; discriminate Ha
        end.
  - rewrite !dumps_list.
    inversion Wv as [| | | | | ? Wl |]; subst.
    inversion Ww as [| | | | | ? Wl2 |]; subst.
    match goal with Hf : Forall2 same_structure l ?l2 |- _ =>
      rewrite (map_dumps_same l l2 Hf IH Wl Wl2)
    end. reflexivity.
  - rewrite !dumps_dict.
    inversion Wv as [| | | | | | ? Nd Wd]; subst.
    inversion Ww as [| | | | | | ? Nd2 Wd2]; subst.
    match goal with
    | Hsome : forall k a, Dict.get k d = Some a -> _,
      Hnone : forall k, Dict.get k d = None -> _ |- _ =>
        rename Hsome into Hs; rename Hnone into Hn
    end.
    enough (Hsort : Json.sort_items (encoded d) = Json.sort_items (encoded d2))
      by now rewrite Hsort.
    apply key_sorted_unique.
    + apply sort_items_sorted. now rewrite encoded_keys.
    + apply sort_items_sorted. now rewrite encoded_keys.
    + intros e. rewrite !in_encoded. split.
      * intros (k & a & Hin & ->).
        pose proof (DictFacts.in_get _ k a d Nd Hin) as Hg.
        destruct (Hs k a Hg) as (b & Hb & Hab).
        exists k, b. split; [now apply DictFacts.get_in |]. f_equal.
        rewrite Forall_forall in IH, Wd, Wd2.
        apply (IH (k, a) Hin b);
          [apply (Wd (k, a) Hin)
          | apply (Wd2 (k, b)); now apply DictFacts.get_in
          | exact Hab].
      * intros (k & b & Hin & ->).
        pose proof (DictFacts.in_get _ k b _ Nd2 Hin) as Hg.
        destruct (Dict.get k d) as [a |] eqn:Ea.
        -- destruct (Hs k a Ea) as (b' & Hb' & Hab).
           assert (b' = b) by congruence. subst b'.
           apply DictFacts.get_in in Ea.
           exists k, a. split; [exact Ea |]. f_equal. symmetry.
           rewrite Forall_forall in IH, Wd, Wd2.
           apply (IH (k, a) Ea b);
             [apply (Wd (k, a) Ea) | apply (Wd2 (k, b) Hin) | exact Hab].
        -- apply Hn in Ea. congruence.
Qed.

Lemma same_structure_refl (v : value) : same_structure v v.
Proof.
  induction v as [| | | | | l IH | d IH] using value_ind;
    try (apply same_atom; reflexivity).
  - apply same_list. induction IH; constructor; auto.
  - apply same_dict; [| auto]. intros k a Hk. exists a. split; [exact Hk |].
    apply DictFacts.get_in in Hk. rewrite Forall_forall in IH.
    apply (IH (k, a) Hk).
Qed.

(** X20: the key under which the array-of-scalars merge deduplicates a
    list or an object is the same for two well-formed items that are
    equal up to the order of the keys of their objects, at every depth;
    and for items that hold no float the converse holds: equal keys
    mean equal items up to that order. *)
Theorem compound_key_is_structure (v w : value) :
  is_dict v || is_list v = true -> is_dict w || is_list w = true ->
  value_wf v -> value_wf w ->
  (same_structure v w -> scalar_key v = scalar_key w)
  /\ (float_free v = true -> float_free w = true ->
      scalar_key v = scalar_key w -> same_structure v w).
Proof.
  intros Cv Cw Wv Ww. unfold scalar_key. rewrite Cv, Cw. split.
  - now apply same_structure_dumps.
  - intros Fv Fw. now apply dumps_same_structure.
Qed.

Lemma same_bindings_structure (x y : dict) :
  (forall k, Dict.get k x = Dict.get k y) -> same_structure (VDict x) (VDict y).
Proof.
  intros H. apply same_dict.
  - intros k a Hk. exists a. split; [now rewrite <- H | apply same_structure_refl].
  - intros k Hk. now rewrite <- H.
Qed.

Lemma signature_parts_ext (x y : dict) (keys : list string) :
  (forall k, Dict.get k x = Dict.get k y) ->
  signature_parts x keys = signature_parts y keys.
Proof.
  intros H. unfold signature_parts.
  assert (Hc : forall k, contributes x k = contributes y k).
  { intros k. unfold contributes, Dict.mem, get_or_none. now rewrite H. }
  rewrite (filter_ext _ _ Hc). apply map_ext. intros k.
  unfold get_or_none. now rewrite H.
Qed.

(** X21: the signature of an object does not depend on the order of its
    keys: two well-formed objects with the same bindings have the same
    signature under every list of identity keys, and the same key in an
    array of scalars. *)
Theorem signature_ignores_key_order (x y : dict) (keys : list string) :
  dict_wf x -> dict_wf y ->
  (forall k, Dict.get k x = Dict.get k y) ->
  _object_signature x keys = _object_signature y keys
  /\ scalar_key (VDict x) = scalar_key (VDict y).
Proof.
  intros Wx Wy H.
  assert (Hd : Json.dumps (VDict x) = Json.dumps (VDict y)).
  { apply same_structure_dumps; auto. now apply same_bindings_structure. }
  split; [| exact Hd].
  unfold _object_signature. rewrite (signature_parts_ext x y keys H).
  destruct (signature_parts y keys); [now rewrite Hd | reflexivity].
Qed.

End TextOfStructure.

(* ================================================================= *)
(** ** The first object of a signature *)

Lemma get_all_none (a : dict) : (forall k, Dict.get k a = None) -> a = [].
Proof.
  destruct a as [| [k v] a]; [reflexivity |]. intros H. specialize (H k).
  simpl in H. rewrite String.eqb_refl in H. discriminate.
Qed.

Lemma preserved_trans (a : value) : forall v2 v3,
  preserved a v2 -> preserved v2 v3 -> preserved a v3.
Proof.
  induction a as [| | | | | l IH | d IH] using value_ind; intros v2 v3 Hab Hbc;
    inversion Hab; subst; auto; try (now apply preserved_gap).
  match goal with
  | Hp : forall k va, Dict.get k d = Some va -> _ |- _ => rename Hp into Hd
  end.
  inversion Hbc; subst; auto.
  - apply preserved_gap.
    match goal with Hg : in_empties (VDict ?r) = true |- _ =>
      apply in_empties_dict_nil in Hg; subst
    end.
    replace d with (@nil (string * value)); [reflexivity |].
    symmetry. apply get_all_none. intros k.
    destruct (Dict.get k d) as [va |] eqn:E; [| reflexivity].
    destruct (Hd k va E) as (vr & Hvr & _). discriminate.
  - match goal with
    | Hp : forall k va, Dict.get k ?r = Some va -> _ |- preserved _ (VDict ?r') =>
        rename Hp into Hr
    end.
    apply preserved_dict. intros k va Hk.
    destruct (Hd k va Hk) as (vr & Hvr & Hp1).
    destruct (Hr k vr Hvr) as (vc & Hvc & Hp2).
    exists vc. split; [exact Hvc |].
    apply DictFacts.get_in in Hk. rewrite Forall_forall in IH.
    apply (IH (k, va) Hk vr vc Hp1 Hp2).
Qed.

Lemma fold_merge_preserved (rest : list dict) : forall (o acc : dict),
  Forall dict_wf rest -> preserved (VDict o) (VDict acc) ->
  preserved (VDict o) (VDict (fold_left _deep_merge_objects rest acc)).
Proof.
  induction rest as [| x rest IH]; intros o acc Hwf Hp; simpl; [exact Hp |].
  inversion Hwf; subst. apply IH; [assumption |].
  apply (preserved_trans (VDict o) (VDict acc)); [exact Hp |].
  rewrite <- deep_merge_value_dict. now apply deep_merge_preserved.
Qed.

Lemma dedup_by_length (A : Type) (key : A -> string) (l : list A) : forall seen,
  (List.length (dedup_by key seen l) <= List.length l)%nat.
Proof.
  induction l as [| x l IH]; intros seen; simpl; [lia |].
  destruct (Str.mem (key x) seen); simpl.
  - specialize (IH seen). lia.
  - specialize (IH (key x :: seen)). lia.
Qed.

Lemma dicts_of_wf (items : list value) :
  Forall value_wf items -> Forall dict_wf (dicts_of items).
Proof.
  induction 1 as [| v items Hv _ IH]; simpl; [constructor |].
  destruct v; simpl; auto.
Qed.

Lemma filter_first_split (A : Type) (p : A -> bool) (l : list A) : forall o rest,
  filter p l = o :: rest ->
  exists pre post,
    l = (pre ++ o :: post)%list
    /\ Forall (fun x => p x = false) pre
    /\ rest = filter p post.
Proof.
  induction l as [| x l IH]; intros o rest H; simpl in H; [discriminate |].
  destruct (p x) eqn:Ex.
  - inversion H; subst. exists [], l. repeat split. constructor.
  - destruct (IH o rest H) as (pre & post & -> & Hpre & ->).
    exists (x :: pre), post. repeat split. now constructor.
Qed.

Section FirstObject.
Context {rt : Runtime}.

(** X22: the array-of-objects merge returns objects only, no more of
    them than the chunks hold, and at least one when the chunks hold
    any; an item that is not an object contributes nothing.  Every
    entry belongs to the first object [o] of a signature (no object
    before it has that signature): it is [o] deep-merged with the later
    objects of that signature, and it preserves [o], none of whose
    non-empty values is lost, at any depth. *)
Theorem merged_objects_keep_first (values : list value) (items : dict)
    (keys : list string) (r : list value) :
  _derive_identity_keys items = Ok keys ->
  Forall value_wf (flattened values) ->
  _merge_array_of_objects values items = Ok r ->
  let objs := dicts_of (flattened values) in
  (List.length r <= List.length objs)%nat
  /\ (objs <> [] -> r <> [])
  /\ Forall (fun e =>
               exists pre o post,
                 objs = (pre ++ o :: post)%list
                 /\ Forall (fun x => sig_of keys x <> sig_of keys o) pre
                 /\ e = VDict (group_merge (sig_of keys) (sig_of keys o) objs)
                 /\ e = VDict (fold_left _deep_merge_objects
                                (filter (fun x => String.eqb (sig_of keys x) (sig_of keys o))
                                   post) o)
                 /\ preserved (VDict o) e) r.
Proof.
  intros Hk Hwf Hr objs.
  unfold _merge_array_of_objects in Hr. rewrite Hk in Hr. simpl in Hr.
  rewrite (objects_loop_spec keys values) in Hr. apply ok_inj in Hr. subst r.
  unfold objects_spec. fold objs. split; [| split].
  - rewrite length_map.
    pose proof (dedup_by_length string (fun s => s) (map (sig_of keys) objs) []) as H.
    rewrite length_map in H. exact H.
  - intros Hne. destruct objs as [| o objs']; [congruence |]. discriminate.
  - apply Forall_forall. intros e He. apply in_map_iff in He.
    destruct He as (sig & <- & Hsig). apply dedup_by_incl in Hsig.
    apply in_map_iff in Hsig. destruct Hsig as (o0 & Hs0 & Ho0).
    unfold group_merge.
    destruct (filter (fun o => String.eqb (sig_of keys o) sig) objs)
      as [| o rest] eqn:Ef.
    + exfalso. assert (Hin : In o0 (filter (fun o => String.eqb (sig_of keys o) sig) objs)).
      { apply filter_In. split; [exact Ho0 |]. now apply String.eqb_eq. }
      rewrite Ef in Hin. contradiction.
    + assert (Hin : In o (filter (fun o => String.eqb (sig_of keys o) sig) objs))
        by (rewrite Ef; now left).
      apply filter_In in Hin. destruct Hin as [Ho Hs]. apply String.eqb_eq in Hs.
      destruct (filter_first_split _ _ _ _ _ Ef) as (pre & post & El & Hpre & Erest).
      exists pre, o, post. split; [exact El |]. split.
      { apply Forall_impl with (2 := Hpre). intros x Hx E.
        rewrite E, Hs, String.eqb_refl in Hx. discriminate. }
      split; [rewrite Hs, Ef; reflexivity |]. split.
      { rewrite Hs, <- Erest. reflexivity. }
      * apply fold_merge_preserved; [| apply preserved_same].
        assert (Hall : Forall dict_wf (filter (fun o => String.eqb (sig_of keys o) sig) objs)).
        { apply Forall_forall. intros x Hx. apply filter_In in Hx.
          pose proof (dicts_of_wf _ Hwf) as Hd. rewrite Forall_forall in Hd.
          apply Hd. tauto. }
        rewrite Ef in Hall. now inversion Hall.
Qed.

End FirstObject.

(* ================================================================= *)
(** * The chunker *)

Lemma length_substring (s : string) : forall a b,
  (a + b <= String.length s)%nat -> String.length (String.substring a b s) = b.
Proof.
  induction s as [| c s IH]; intros a b H; simpl in H.
  - assert (a = 0%nat /\ b = 0%nat) as [-> ->] by lia. reflexivity.
  - destruct a as [| a]; destruct b as [| b]; simpl; auto.
    + rewrite IH by lia. reflexivity.
    + apply IH. lia.
    + apply IH. lia.
Qed.

Lemma len_slice (text : string) (i j : Z) :
  (0 <= i <= j)%Z -> (j <= Chunking.len text)%Z ->
  Chunking.len (Chunking.slice text i j) = (j - i)%Z.
Proof.
  unfold Chunking.len, Chunking.slice. intros Hi Hj.
  rewrite length_substring by lia. lia.
Qed.

Lemma spans_from_done (k : nat) (text : string) (cs ov start : Z) :
  (Chunking.len text <= start)%Z -> spans_from k text cs ov start = [].
Proof.
  intros H. destruct k; simpl; [reflexivity |].
  apply Z.ltb_ge in H. now rewrite H.
Qed.

Lemma spans_loop_from (text : string) (cs ov mc : Z) : forall fuel start out,
  Chunking.spans_loop fuel text cs ov mc start out =
  (out ++ spans_from
            (Nat.min fuel (Z.to_nat (Z.max 1 mc - Z.of_nat (List.length out))))
            text cs ov start)%list.
Proof.
  induction fuel as [| fuel IH]; intros start out.
  - simpl. now rewrite app_nil_r.
  - cbn [Chunking.spans_loop].
    destruct (start <? Chunking.len text)%Z eqn:Es.
    + destruct (Z.of_nat (List.length out) <? Z.max 1 mc)%Z eqn:El; cbn [andb].
      * apply Z.ltb_lt in El.
        replace (Z.to_nat (Z.max 1 mc - Z.of_nat (List.length out)))
          with (S (Z.to_nat (Z.max 1 mc - Z.of_nat (List.length out) - 1))) by lia.
        cbn [Nat.min spans_from]. rewrite Es. cbv zeta.
        destruct (Z.min (start + cs) (Chunking.len text) =? Chunking.len text)%Z.
        -- reflexivity.
        -- rewrite IH, <- app_assoc, length_app. simpl List.length.
           simpl app. do 3 f_equal. lia.
      * apply Z.ltb_ge in El.
        replace (Z.to_nat (Z.max 1 mc - Z.of_nat (List.length out))) with 0%nat by lia.
        rewrite Nat.min_0_r. simpl. now rewrite app_nil_r.
    + cbn [andb]. apply Z.ltb_ge in Es.
      rewrite spans_from_done by assumption. now rewrite app_nil_r.
Qed.

Lemma chunks_loop_from (text : string) (cs ov mc : Z) : forall fuel start chunks,
  Chunking.chunks_loop fuel text cs ov mc start chunks =
  (chunks ++ map snd
               (spans_from
                  (Nat.min fuel (Z.to_nat (Z.max 1 mc - Z.of_nat (List.length chunks))))
                  text cs ov start))%list.
Proof.
  induction fuel as [| fuel IH]; intros start chunks.
  - simpl. now rewrite app_nil_r.
  - cbn [Chunking.chunks_loop].
    destruct (start <? Chunking.len text)%Z eqn:Es.
    + destruct (Z.of_nat (List.length chunks) <? Z.max 1 mc)%Z eqn:El; cbn [andb].
      * apply Z.ltb_lt in El.
        replace (Z.to_nat (Z.max 1 mc - Z.of_nat (List.length chunks)))
          with (S (Z.to_nat (Z.max 1 mc - Z.of_nat (List.length chunks) - 1))) by lia.
        cbn [Nat.min spans_from]. rewrite Es. cbv zeta.
        destruct (Z.min (start + cs) (Chunking.len text) =? Chunking.len text)%Z.
        -- reflexivity.
        -- rewrite IH, <- app_assoc, length_app. simpl List.length.
           simpl app. cbn [map snd]. do 4 f_equal. lia.
      * apply Z.ltb_ge in El.
        replace (Z.to_nat (Z.max 1 mc - Z.of_nat (List.length chunks))) with 0%nat by lia.
        rewrite Nat.min_0_r. simpl. now rewrite app_nil_r.
    + cbn [andb]. apply Z.ltb_ge in Es.
      rewrite spans_from_done by assumption. simpl. now rewrite app_nil_r.
Qed.

Lemma spans_of_text (text : string) (cs ov mc : Z) :
  text <> "" ->
  Chunking.chunk_text_with_spans text cs ov mc =
  spans_from (Z.to_nat (Z.max 1 mc)) text (Z.max 200 cs) (Z.max 0 ov) 0.
Proof.
  intros H. unfold Chunking.chunk_text_with_spans.
  apply String.eqb_neq in H. rewrite H. rewrite spans_loop_from. simpl app.
  f_equal. simpl List.length. lia.
Qed.

Lemma len_pos (text : string) : text <> "" -> (0 < Chunking.len text)%Z.
Proof. destruct text; [congruence |]. intros _. unfold Chunking.len. simpl. lia. Qed.

(** X23: [chunk_text] returns the chunks of the spans that
    [chunk_text_with_spans] returns, in the same order; and the loop of
    either takes no more than [max(1, max_chunks)] turns: with any
    larger bound on the turns the result is the same. *)
Theorem chunk_text_of_spans (text : string) (cs ov mc : Z) :
  Chunking.chunk_text text cs ov mc
  = map snd (Chunking.chunk_text_with_spans text cs ov mc)
  /\ (forall fuel, (Z.to_nat (Z.max 1 mc) <= fuel)%nat ->
        Chunking.spans_loop fuel text (Z.max 200 cs) (Z.max 0 ov) mc 0 []
        = Chunking.spans_loop (Z.to_nat (Z.max 1 mc)) text (Z.max 200 cs)
            (Z.max 0 ov) mc 0 []
        /\ Chunking.chunks_loop fuel text (Z.max 200 cs) (Z.max 0 ov) mc 0 []
           = Chunking.chunks_loop (Z.to_nat (Z.max 1 mc)) text (Z.max 200 cs)
               (Z.max 0 ov) mc 0 []).
Proof.
  split.
  - unfold Chunking.chunk_text, Chunking.chunk_text_with_spans.
    destruct (String.eqb text ""); [reflexivity |].
    now rewrite chunks_loop_from, spans_loop_from.
  - intros fuel Hf. rewrite !spans_loop_from, !chunks_loop_from.
    simpl List.length.
    replace (Nat.min fuel (Z.to_nat (Z.max 1 mc - Z.of_nat 0)))
      with (Nat.min (Z.to_nat (Z.max 1 mc)) (Z.to_nat (Z.max 1 mc - Z.of_nat 0)))
      by lia.
    split; reflexivity.
Qed.

Lemma spans_from_shape (text : string) (cs ov : Z) : forall k start,
  (0 < cs)%Z -> (0 <= ov)%Z -> (0 <= start)%Z ->
  let spans := spans_from k text cs ov start in
  Forall (span_ok text cs) spans
  /\ (List.length spans <= k)%nat
  /\ chained text cs ov spans
  /\ (forall x rest, spans = x :: rest -> fst (fst x) = start)
  /\ ((start < Chunking.len text)%Z -> (0 < k)%nat ->
      exists pre s e c, spans = (pre ++ [(s, e, c)])%list
                        /\ (e = Chunking.len text \/ List.length spans = k)).
Proof.
  induction k as [| k IH]; intros start Hcs Hov Hs; cbn [spans_from]; cbv zeta.
  - repeat split; auto; try constructor; try discriminate; lia.
  - destruct (start <? Chunking.len text)%Z eqn:Es.
    2: { apply Z.ltb_ge in Es.
         repeat split; auto; try constructor; try discriminate; simpl; try lia. }
    apply Z.ltb_lt in Es.
    set (e := Z.min (start + cs) (Chunking.len text)).
    assert (Hok : span_ok text cs (start, e, Chunking.slice text start e)).
    { unfold span_ok. subst e. repeat split; try lia.
      apply len_slice; lia. }
    destruct (e =? Chunking.len text)%Z eqn:Ee.
    + apply Z.eqb_eq in Ee. split; [| split; [| split; [| split]]].
      * constructor; [exact Hok | constructor].
      * simpl. lia.
      * exact I.
      * intros x rest Hx. injection Hx as <- _. reflexivity.
      * intros _ _. exists [], start, e, (Chunking.slice text start e). auto.
    + apply Z.eqb_neq in Ee.
      assert (He : e = (start + cs)%Z /\ (e < Chunking.len text)%Z) by (subst e; lia).
      destruct He as [He Hlt].
      destruct (IH (Z.max 0 (e - ov)) Hcs Hov ltac:(lia))
        as (Hall & Hlen & Hch & Hhd & Hlast).
      split; [| split; [| split; [| split]]].
      * constructor; [exact Hok | exact Hall].
      * simpl. lia.
      * destruct (spans_from k text cs ov (Z.max 0 (e - ov))) as [| y rest] eqn:Er;
          [exact I |].
        cbn [chained fst snd]. split; [exact He |]. split; [exact Hlt |].
        split; [| exact Hch].
        apply (Hhd y rest eq_refl).
      * intros x rest Hx. injection Hx as <- _. reflexivity.
      * intros _ _. destruct k as [| k'].
        -- exists [], start, e, (Chunking.slice text start e). simpl. auto.
        -- destruct Hlast as (pre & s' & e' & c' & Hr & Hl); [lia | lia |].
           exists ((start, e, Chunking.slice text start e) :: pre), s', e', c'.
           rewrite Hr. split; [reflexivity |].
           destruct Hl as [Hl | Hl]; [now left | right].
           rewrite Hr in Hl. cbn [List.length app]. now rewrite Hl.
Qed.

(** X24: the empty text has no chunk.  Any other text has at least one
    chunk and at most [max(1, max_chunks)]; every span lies inside the
    text, is not empty and is at most [max(200, chunk_size)] characters
    long, its chunk is the text between its bounds, and the first span
    starts at the start of the text. *)
Theorem chunk_spans_shape (text : string) (cs ov mc : Z) :
  let spans := Chunking.chunk_text_with_spans text cs ov mc in
  (text = "" -> spans = [])
  /\ (text <> "" ->
      (1 <= List.length spans)%nat
      /\ (Z.of_nat (List.length spans) <= Z.max 1 mc)%Z
      /\ Forall (span_ok text (Z.max 200 cs)) spans
      /\ exists e c rest, spans = (0%Z, e, c) :: rest).
Proof.
  intros spans. split.
  - intros ->. reflexivity.
  - intros Hne. subst spans. rewrite spans_of_text by assumption.
    pose proof (len_pos text Hne) as Hn.
    destruct (spans_from_shape text (Z.max 200 cs) (Z.max 0 ov)
                (Z.to_nat (Z.max 1 mc)) 0 ltac:(lia) ltac:(lia) ltac:(lia))
      as (Hall & Hlen & _ & Hhd & Hlast).
    destruct Hlast as (pre & s & e & c & Hr & _); [lia | lia |].
    destruct (spans_from (Z.to_nat (Z.max 1 mc)) text (Z.max 200 cs) (Z.max 0 ov) 0)
      as [| [[s0 e0] c0] rest] eqn:E.
    { destruct pre; discriminate. }
    repeat split; auto.
    + simpl. lia.
    + lia.
    + specialize (Hhd _ _ eq_refl). simpl in Hhd. subst s0. eauto.
Qed.

(** X25: of two spans that follow one another the first is
    [max(200, chunk_size)] characters long and ends before the end of
    the text, and the second starts [max(0, overlap)] characters before
    that end, or at the start of the text if that is nearer.  The last
    span ends at the end of the text unless the limit of
    [max(1, max_chunks)] chunks is reached. *)
Theorem chunk_spans_chain (text : string) (cs ov mc : Z) :
  text <> "" ->
  let spans := Chunking.chunk_text_with_spans text cs ov mc in
  chained text (Z.max 200 cs) (Z.max 0 ov) spans
  /\ exists pre s e c,
       spans = (pre ++ [(s, e, c)])%list
       /\ (e = Chunking.len text \/ Z.of_nat (List.length spans) = Z.max 1 mc).
Proof.
  intros Hne spans. subst spans. rewrite spans_of_text by assumption.
  pose proof (len_pos text Hne) as Hn.
  destruct (spans_from_shape text (Z.max 200 cs) (Z.max 0 ov)
              (Z.to_nat (Z.max 1 mc)) 0 ltac:(lia) ltac:(lia) ltac:(lia))
    as (_ & _ & Hch & _ & Hlast).
  split; [exact Hch |].
  destruct Hlast as (pre & s & e & c & Hr & Hl); [lia | lia |].
  exists pre, s, e, c. split; [exact Hr |].
  destruct Hl as [Hl | Hl]; [now left | right]. rewrite Hl. lia.
Qed.

Lemma covered_cons (x : Z * Z * string) (rest : list (Z * Z * string)) (p : Z) :
  covered (x :: rest) p
  <-> (fst (fst x) <= p < snd (fst x))%Z \/ covered rest p.
Proof.
  unfold covered. split.
  - intros (s & e & c & [-> | Hin] & Hp); [left; exact Hp |].
    right. now exists s, e, c.
  - intros [Hp | (s & e & c & Hin & Hp)].
    + destruct x as [[s e] c]. exists s, e, c. split; [now left | exact Hp].
    + exists s, e, c. split; [now right | exact Hp].
Qed.

Lemma covered_nil (p : Z) : ~ covered [] p.
Proof. intros (s & e & c & [] & _). Qed.

Lemma covered_from (text : string) (cs ov : Z) : forall k start p,
  (0 <= ov < cs)%Z -> (0 <= start < Chunking.len text)%Z ->
  covered (spans_from (S k) text cs ov start) p
  <-> (start <= p < Z.min (Chunking.len text) (start + cs + Z.of_nat k * (cs - ov)))%Z.
Proof.
  induction k as [| k IH]; intros start p Hov Hs.
  - cbn [spans_from]. cbv zeta.
    destruct (start <? Chunking.len text)%Z eqn:Es; [| apply Z.ltb_ge in Es; lia].
    destruct (_ =? _)%Z; rewrite covered_cons; cbn [fst snd];
      (split; [intros [H | H]; [lia | now apply covered_nil in H] | intros H; left; lia]).
  - remember (S k) as k1. cbn [spans_from]. cbv zeta.
    destruct (start <? Chunking.len text)%Z eqn:Es; [| apply Z.ltb_ge in Es; lia].
    destruct (Z.min (start + cs) (Chunking.len text) =? Chunking.len text)%Z eqn:Ee.
    + apply Z.eqb_eq in Ee. rewrite covered_cons. cbn [fst snd].
      split; [intros [H | H]; [nia | now apply covered_nil in H] | intros H; left; nia].
    + apply Z.eqb_neq in Ee. rewrite covered_cons. cbn [fst snd].
      replace (Z.max 0 (Z.min (start + cs) (Chunking.len text) - ov))
        with (start + (cs - ov))%Z by lia.
      subst k1. rewrite IH by lia.
      rewrite Nat2Z.inj_succ. nia.
Qed.

(** X26: when the overlap, [max(0, overlap)], is smaller than the chunk
    size, [max(200, chunk_size)], the chunks cover the text from its
    start without a gap, up to its end or up to the position
    [size + (max(1, max_chunks) - 1) * (size - overlap)], whichever
    comes first: a character at or behind that position is in no
    chunk. *)
Theorem chunk_text_coverage (text : string) (cs ov mc : Z) (p : Z) :
  text <> "" -> (Z.max 0 ov < Z.max 200 cs)%Z ->
  let size := Z.max 200 cs in
  let reach := (size + (Z.max 1 mc - 1) * (size - Z.max 0 ov))%Z in
  covered (Chunking.chunk_text_with_spans text cs ov mc) p
  <-> (0 <= p < Z.min (Chunking.len text) reach)%Z.
Proof.
  intros Hne Hov size reach. rewrite spans_of_text by assumption.
  pose proof (len_pos text Hne) as Hn.
  replace (Z.to_nat (Z.max 1 mc)) with (S (Z.to_nat (Z.max 1 mc - 1))) by lia.
  rewrite covered_from by lia. subst reach size.
  rewrite Z2Nat.id by lia. lia.
Qed.

Lemma spans_from_stuck (text : string) (cs ov : Z) (k : nat) :
  (0 < cs <= ov)%Z -> (cs < Chunking.len text)%Z ->
  spans_from k text cs ov 0 = repeat (0%Z, cs, Chunking.slice text 0 cs) k.
Proof.
  intros Hov Hn. induction k as [| k IH]; [reflexivity |].
  cbn [spans_from repeat]. cbv zeta.
  replace (0 <? Chunking.len text)%Z with true by (symmetry; apply Z.ltb_lt; lia).
  replace (Z.min (0 + cs) (Chunking.len text)) with cs by lia.
  replace (cs =? Chunking.len text)%Z with false by (symmetry; apply Z.eqb_neq; lia).
  replace (Z.max 0 (cs - ov)) with 0%Z by lia.
  now rewrite IH.
Qed.

(** X27: when the overlap is not smaller than the chunk size
    ([max(0, overlap) >= max(200, chunk_size)]) and the text is longer
    than one chunk, the chunker makes no progress: it returns
    [max(1, max_chunks)] copies of the first chunk, and the rest of the
    text is in no chunk. *)
Theorem chunk_text_no_progress (text : string) (cs ov mc : Z) :
  (Z.max 200 cs <= Z.max 0 ov)%Z -> (Z.max 200 cs < Chunking.len text)%Z ->
  let size := Z.max 200 cs in
  Chunking.chunk_text_with_spans text cs ov mc
  = repeat (0%Z, size, Chunking.slice text 0 size) (Z.to_nat (Z.max 1 mc))
  /\ Chunking.chunk_text text cs ov mc
     = repeat (Chunking.slice text 0 size) (Z.to_nat (Z.max 1 mc))
  /\ forall p, covered (Chunking.chunk_text_with_spans text cs ov mc) p
               <-> (0 <= p < size)%Z.
Proof.
  intros Hov Hn size.
  assert (Hne : text <> "").
  { intros ->. unfold Chunking.len in Hn. simpl in Hn. lia. }
  assert (Hs : Chunking.chunk_text_with_spans text cs ov mc
               = repeat (0%Z, size, Chunking.slice text 0 size)
                   (Z.to_nat (Z.max 1 mc))).
  { rewrite spans_of_text by assumption. apply spans_from_stuck; lia. }
  split; [exact Hs |]. split.
  - unfold Chunking.chunk_text.
    replace (String.eqb text "") with false by (symmetry; now apply String.eqb_neq).
    rewrite chunks_loop_from. simpl app. simpl List.length.
    replace (Nat.min _ _) with (Z.to_nat (Z.max 1 mc)) by lia.
    rewrite spans_from_stuck by lia. fold size.
    now rewrite map_repeat.
  - intros p. rewrite Hs. unfold covered. split.
    + intros (s & e & c & Hin & Hp). apply repeat_spec in Hin.
      injection Hin as -> -> _. exact Hp.
    + intros Hp. exists 0%Z, size, (Chunking.slice text 0 size).
      split; [| exact Hp].
      replace (Z.to_nat (Z.max 1 mc)) with (S (Z.to_nat (Z.max 1 mc - 1))) by lia.
      now left.
Qed.

(* ================================================================= *)
(** * A single record, and a schema without properties *)

Section SingleRecord.
Context {rt : Runtime}.

(** X28: the merge of a single value is not the identity.  A string
    field strips the text, and cuts it to 1600 characters under a prose
    name; blank text and any value that is not text give [None].  An
    object field returns the object, and [{}] for any other value.  An
    array field whose items are not objects returns the items of the
    coerced value without the nulls and without the later duplicates.
    A field of an unknown type returns the value, or [None] for blank
    text, [[]] and [{}]. *)
Theorem single_record_merge (key : string) (ps : dict) (v : value) :
  let t := dict_type ps in
  (eq_str t "string" = true ->
   merge_values key ps [v] =
   Ok (match v with
       | VStr s =>
           if String.eqb (Str.strip s) "" then VNone
           else VStr (if Str.mem key concat_fields
                      then Str.take 1600 (Str.strip s) else Str.strip s)
       | _ => VNone
       end))
  /\ (eq_str t "object" = true -> value_wf v ->
      merge_values key ps [v] = Ok (if is_dict v then v else VDict []))
  /\ (eq_str t "array" = true ->
      eq_str (dict_type (_schema_items_schema ps)) "object" = false ->
      merge_values key ps [v] =
      Ok (VList (dedup_by scalar_key []
                   (filter (fun x => negb (is_none x)) (_coerce_to_list v)))))
  /\ (known_type t = false ->
      merge_values key ps [v] = Ok (if is_blank v then VNone else v)).
Proof.
  intros t. split; [| split; [| split]].
  - intros Ht.
    rewrite (string_dispatch key ps [v] t (schema_type_dict ps) Ht). f_equal.
    destruct (Str.mem key concat_fields).
    + rewrite merge_strings_concat, stripped_strings_cons. unfold is_candidate.
      destruct v as [| | | | s | |]; try reflexivity.
      cbn [is_str str_of andb].
      destruct (String.eqb (Str.strip s) ""); reflexivity.
    + rewrite merge_strings_first. cbn [find]. unfold is_candidate.
      destruct v as [| | | | s | |]; try reflexivity.
      cbn [is_str str_of andb].
      destruct (String.eqb (Str.strip s) ""); reflexivity.
  - intros Ht Hwf. apply eq_str_true in Ht. unfold merge_values.
    rewrite schema_type_dict. simpl bind. fold t. rewrite Ht. simpl. f_equal.
    destruct v as [| | | | | | d]; try reflexivity.
    unfold _merge_objects. simpl. f_equal.
    inversion Hwf as [| | | | | | ? Hnd _]; subst.
    rewrite deep_merge_disjoint; auto.
  - intros Ht Hi. apply eq_str_true in Ht. unfold merge_values.
    rewrite schema_type_dict. simpl bind. fold t. rewrite Ht. simpl.
    unfold _merge_arrays. rewrite schema_type_dict. simpl bind. rewrite Hi.
    simpl. rewrite scalars_loop. unfold scalars_spec, flattened. simpl.
    now rewrite app_nil_r.
  - intros Hk. unfold merge_values. rewrite schema_type_dict. simpl bind. fold t.
    unfold known_type in Hk.
    repeat (apply orb_false_iff in Hk; destruct Hk as [Hk ?]).
    repeat match goal with H : eq_str _ _ = false |- _ => rewrite H; clear H end.
    cbn [orb]. cbv iota. f_equal.
    destruct v as [| | | | s | [| x l] | [| kv d]]; reflexivity.
Qed.

(** X29: a schema whose [properties] are missing, not an object or
    empty gives the empty record for every input, also when technical
    metadata and a filetype guess are supplied. *)
Theorem schema_without_properties (cs : list dict) (schema : dict)
    (technical filetype_guess : value) :
  _schema_properties schema = [] ->
  aggregate_chunk_dicts cs schema technical filetype_guess = Ok []
  /\ (forall s, is_dict s = false ->
        _schema_properties [("properties", s)] = []).
Proof.
  intros H. split.
  - unfold aggregate_chunk_dicts. rewrite H. destruct cs; reflexivity.
  - intros s Hs. destruct s; try reflexivity. discriminate.
Qed.

End SingleRecord.

(* ================================================================= *)
(** * Arrays of scalars, merged in steps *)

Lemma dedup_by_again (A : Type) (key : A -> string) (l1 l2 : list A) : forall seen,
  dedup_by key seen (dedup_by key seen l1 ++ l2) = dedup_by key seen (l1 ++ l2).
Proof.
  induction l1 as [| x l1 IH]; intros seen; simpl; [reflexivity |].
  destruct (Str.mem (key x) seen) eqn:E.
  - apply IH.
  - simpl. rewrite E. f_equal. apply IH.
Qed.

Lemma dedup_by_not_none (seen : list string) (key : value -> string) (l : list value) :
  filter not_none (dedup_by key seen (filter not_none l))
  = dedup_by key seen (filter not_none l).
Proof.
  revert seen. induction l as [| x l IH]; intros seen; simpl; [reflexivity |].
  destruct (not_none x) eqn:E; simpl; [| apply IH].
  destruct (Str.mem (key x) seen); [apply IH |].
  simpl. rewrite E. f_equal. apply IH.
Qed.

Section ArraySteps.
Context {rt : Runtime}.

Lemma scalars_flat (values : list value) :
  _merge_array_of_scalars values
  = dedup_by scalar_key [] (filter not_none (flattened values)).
Proof. now rewrite scalars_loop. Qed.

(** X30: the array-of-scalars merge depends only on the items of the
    coerced values in order, not on how they are spread over the
    chunks; merging a merged array again changes nothing; and merging
    can be done in steps: the merge of a merged array followed by
    further values is the merge of all the values. *)
Theorem scalar_array_merge_in_steps (values more : list value) :
  _merge_array_of_scalars values
  = _merge_array_of_scalars [VList (flattened values)]
  /\ _merge_array_of_scalars [VList (_merge_array_of_scalars values)]
     = _merge_array_of_scalars values
  /\ _merge_array_of_scalars (VList (_merge_array_of_scalars values) :: more)
     = _merge_array_of_scalars (values ++ more).
Proof.
  assert (Hstep : forall rest,
             _merge_array_of_scalars (VList (_merge_array_of_scalars values) :: rest)
             = _merge_array_of_scalars (values ++ rest)).
  { intros rest. rewrite !scalars_flat. unfold flattened. rewrite flat_map_app.
    simpl. fold (flattened values). fold (flattened rest).
    rewrite !filter_app, dedup_by_not_none. apply dedup_by_again. }
  split; [| split].
  - rewrite !scalars_flat. unfold flattened. simpl. now rewrite app_nil_r.
  - rewrite Hstep. now rewrite app_nil_r.
  - apply Hstep.
Qed.

End ArraySteps.

(* ================================================================= *)
(** * Instances of the further properties *)

Lemma merge_numbers_first_witness :
  Forall (fun v => overflows v = false) [VNone; VInt 3; VBool true]
  /\ "first" <> "max" /\ "first" <> "min"
  /\ exists f, _merge_numbers [VNone; VInt 3; VBool true] "first" = Ok (VFloat f)
               /\ Float.to_Z f = Some 3%Z.
Proof.
  assert (H : Forall (fun v => overflows v = false) [VNone; VInt 3; VBool true])
    by (repeat constructor).
  assert (H1 : "first" <> "max") by discriminate.
  assert (H2 : "first" <> "min") by discriminate.
  split; [exact H |]. split; [exact H1 |]. split; [exact H2 |].
  destruct (proj1 (merge_numbers_first [VNone; VInt 3; VBool true] "first" H H1 H2))
    as [[Hn _] | (pre & v & post & f & _ & _ & _ & Hm)].
  - discriminate Hn.
  - exists f. split; [exact Hm |].
    assert (E : Ok (VFloat f) = Ok (VFloat (S754_finite false 6755399441055744 (-51))))
      by (rewrite <- Hm; reflexivity).
    injection E as ->. reflexivity.
Defined.

Lemma integer_field_keeps_int_witness :
  eq_str (dict_type integer_schema) "integer" = true
  /\ Forall (fun v => number_of v = None /\ overflows v = false) [VNone; VList []]
  /\ Forall (fun v => overflows v = false) [VInt 7]
  /\ (- 2 ^ 53 <= 42 <= 2 ^ 53)%Z
  /\ merge_values "n" integer_schema [VNone; VList []; VInt 42; VInt 7] = Ok (VInt 42).
Proof.
  assert (H1 : eq_str (dict_type integer_schema) "integer" = true) by reflexivity.
  assert (H2 : Forall (fun v => number_of v = None /\ overflows v = false)
                 [VNone; VList []]) by (repeat constructor).
  assert (H3 : Forall (fun v => overflows v = false) [VInt 7]) by (repeat constructor).
  assert (H4 : (- 2 ^ 53 <= 42 <= 2 ^ 53)%Z) by (split; discriminate).
  repeat (split; [assumption |]).
  exact (proj1 (integer_field_keeps_int "n" integer_schema [VNone; VList []]
                  [VInt 7] 42 H1 H2 H3 H4)).
Defined.

Lemma numeric_field_cast_witness :
  is_numeric_type (dict_type integer_schema) = true
  /\ Forall (fun v => overflows v = false) [VFloat (S754_finite true 7 (-1))]
  /\ merge_values "n" integer_schema [VFloat (S754_finite true 7 (-1))]
     = Ok (VInt (-3)).
Proof.
  assert (H1 : is_numeric_type (dict_type integer_schema) = true) by reflexivity.
  assert (H2 : Forall (fun v => overflows v = false)
                 [VFloat (S754_finite true 7 (-1))]) by (repeat constructor).
  split; [exact H1 |]. split; [exact H2 |].
  exact (proj1 (numeric_field_cast "n" integer_schema _ H1 H2)).
Defined.

Lemma absent_field_defaults_witness :
  Forall (fun v => v = VNone) [VNone; VNone]
  /\ merge_values "technical" object_schema [VNone; VNone] = Ok (VDict []).
Proof.
  assert (H : Forall (fun v => v = VNone) [VNone; VNone]) by (repeat constructor).
  split; [exact H |].
  exact (proj1 (absent_field_defaults "technical" object_schema _ H) eq_refl).
Defined.

Lemma boolean_field_first_candidate_witness :
  eq_str (dict_type boolean_schema) "boolean" = true
  /\ Forall (fun x => is_blank x = true) [VNone; VStr " "]
  /\ is_blank (VStr "Ja ") = false
  /\ merge_values "open" boolean_schema [VNone; VStr " "; VStr "Ja "; VStr "0"]
     = Ok (VBool true).
Proof.
  assert (H1 : eq_str (dict_type boolean_schema) "boolean" = true) by reflexivity.
  assert (H2 : Forall (fun x => is_blank x = true) [VNone; VStr " "])
    by (repeat constructor).
  assert (H3 : is_blank (VStr "Ja ") = false) by reflexivity.
  repeat (split; [assumption |]).
  destruct (boolean_field_first_candidate "open" boolean_schema [VNone; VStr " "]
              (VStr "Ja ") [VStr "0"] H1 H2 H3) as (E1 & E2 & _).
  exact (eq_trans E1 (E2 "Ja " eq_refl)).
Defined.

Lemma merged_value_conforms_witness :
  merge_values "tags" tags_schema [VList [VStr "x"]; VStr "y"]
  = Ok (VList [VStr "x"; VStr "y"])
  /\ is_list (VList [VStr "x"; VStr "y"]) = true.
Proof.
  assert (H : merge_values "tags" tags_schema [VList [VStr "x"]; VStr "y"]
              = Ok (VList [VStr "x"; VStr "y"])) by reflexivity.
  split; [exact H |].
  exact (proj1 (proj2 (merged_value_conforms "tags" tags_schema _ _ H)) eq_refl).
Defined.

Lemma aggregate_reads_declared_keys_witness :
  Forall2 (fun d d' => forall k, In k (Dict.keys (_schema_properties schema_title)) ->
                                 get_or_none k d = get_or_none k d')
    [[("title", VStr "A"); ("pages", VInt 3)]] [[("title", VStr "A")]]
  /\ aggregate_chunk_dicts [[("title", VStr "A"); ("pages", VInt 3)]] schema_title
       VNone VNone
     = aggregate_chunk_dicts [[("title", VStr "A")]] schema_title VNone VNone.
Proof.
  assert (H : Forall2
                (fun d d' => forall k,
                     In k (Dict.keys (_schema_properties schema_title)) ->
                     get_or_none k d = get_or_none k d')
                [[("title", VStr "A"); ("pages", VInt 3)]] [[("title", VStr "A")]]).
  { constructor; [| constructor]. intros k [<- | []]. reflexivity. }
  split; [exact H |].
  exact (aggregate_reads_declared_keys _ _ schema_title VNone VNone H).
Defined.

Lemma null_record_is_skipped_witness :
  (forall k, In k (Dict.keys (_schema_properties schema_title)) ->
             get_or_none k [("pages", VInt 3)] = VNone)
  /\ ([[("title", VStr "A")]] ++ [])%list <> []
  /\ aggregate_chunk_dicts [[("title", VStr "A")]; [("pages", VInt 3)]] schema_title
       VNone VNone
     = aggregate_chunk_dicts [[("title", VStr "A")]] schema_title VNone VNone.
Proof.
  assert (H1 : forall k, In k (Dict.keys (_schema_properties schema_title)) ->
                         get_or_none k [("pages", VInt 3)] = VNone).
  { intros k [<- | []]. reflexivity. }
  assert (H2 : ([[("title", VStr "A")]] ++ [])%list <> []) by discriminate.
  split; [exact H1 |]. split; [exact H2 |].
  exact (null_record_is_skipped [[("title", VStr "A")]] [] [("pages", VInt 3)]
           schema_title VNone VNone H1 H2).
Defined.

Lemma record_holds_field_merges_witness :
  NoDup (Dict.keys (_schema_properties schema_title))
  /\ exists v, merge_field [[("title", VStr " A ")]] "title" (typed "string") = Ok v
               /\ Dict.get "title" [("title", VStr "A")] = Some v.
Proof.
  assert (H : NoDup (Dict.keys (_schema_properties schema_title))) by nodup_keys.
  split; [exact H |].
  apply (proj1 (record_holds_field_merges [("title", VStr " A ")] [] schema_title
                  VNone VNone H) [("title", VStr "A")] eq_refl "title"
           (typed "string")).
  - left. reflexivity.
  - discriminate.
  - discriminate.
Defined.

Lemma deep_merge_key_order_witness :
  NoDup (Dict.keys right_object)
  /\ Dict.keys (_deep_merge_objects left_object right_object) = ["x"; "y"; "z"].
Proof.
  assert (H : NoDup (Dict.keys right_object)) by nodup_keys.
  split; [exact H |].
  exact (proj1 (deep_merge_key_order left_object right_object H)).
Defined.

Lemma deep_merge_identities_witness :
  dict_wf left_object /\ dict_wf right_object
  /\ _deep_merge_objects (_deep_merge_objects left_object right_object) right_object
     = _deep_merge_objects left_object right_object.
Proof.
  assert (H1 : dict_wf left_object) by (repeat (constructor; try nodup_keys)).
  assert (H2 : dict_wf right_object) by (repeat (constructor; try nodup_keys)).
  split; [exact H1 |]. split; [exact H2 |].
  exact (proj1 (proj2 (proj2 (proj2
           (deep_merge_identities left_object right_object H1 H2))))).
Defined.

Lemma merge_objects_repeats_witness :
  Forall value_wf [VStr "x"; VDict left_object] /\ dict_wf right_object
  /\ _merge_objects [VStr "x"; VDict left_object; VDict right_object; VDict right_object]
     = _merge_objects [VStr "x"; VDict left_object; VDict right_object].
Proof.
  assert (H1 : Forall value_wf [VStr "x"; VDict left_object])
    by (repeat (constructor; try nodup_keys)).
  assert (H2 : dict_wf right_object) by (repeat (constructor; try nodup_keys)).
  split; [exact H1 |]. split; [exact H2 |].
  exact (proj1 (proj2 (proj2
           (merge_objects_repeats [VStr "x"; VDict left_object] right_object H1 H2)))).
Defined.

Lemma identity_keys_sound_witness :
  _derive_identity_keys items_id_code = Ok ["id"; "code"]
  /\ Forall (fun k => IdHint.search k = true) ["id"; "code"].
Proof.
  assert (H : _derive_identity_keys items_id_code = Ok ["id"; "code"]) by reflexivity.
  split; [exact H |].
  apply (proj1 (proj2 (proj2 (identity_keys_sound items_id_code _ H))) "id");
    [left | |]; reflexivity.
Defined.

Lemma compound_key_is_structure_witness :
  value_wf (VDict right_object) /\ value_wf (VDict right_object_reordered)
  /\ same_structure (VDict right_object) (VDict right_object_reordered).
Proof.
  assert (H1 : value_wf (VDict right_object)) by (repeat (constructor; try nodup_keys)).
  assert (H2 : value_wf (VDict right_object_reordered))
    by (repeat (constructor; try nodup_keys)).
  split; [exact H1 |]. split; [exact H2 |].
  apply (proj2 (compound_key_is_structure (VDict right_object)
                  (VDict right_object_reordered) eq_refl eq_refl H1 H2));
    reflexivity.
Defined.

Lemma signature_ignores_key_order_witness :
  dict_wf right_object /\ dict_wf right_object_reordered
  /\ (forall k, Dict.get k right_object = Dict.get k right_object_reordered)
  /\ _object_signature right_object ["id"]
     = _object_signature right_object_reordered ["id"].
Proof.
  assert (H1 : dict_wf right_object) by (repeat (constructor; try nodup_keys)).
  assert (H2 : dict_wf right_object_reordered)
    by (repeat (constructor; try nodup_keys)).
  assert (H3 : forall k, Dict.get k right_object = Dict.get k right_object_reordered).
  { intros k. simpl.
    destruct (String.eqb k "z") eqn:Ez; destruct (String.eqb k "y") eqn:Ey;
      try reflexivity.
    apply String.eqb_eq in Ez, Ey. subst k. discriminate Ey. }
  split; [exact H1 |]. split; [exact H2 |]. split; [exact H3 |].
  exact (proj1 (signature_ignores_key_order right_object right_object_reordered
                  ["id"] H1 H2 H3)).
Defined.

Lemma merged_objects_keep_first_witness :
  _derive_identity_keys items_id_code = Ok ["id"; "code"]
  /\ Forall value_wf (flattened [VList [VDict item_one_a; VStr "n"; VDict item_one_b]])
  /\ _merge_array_of_objects [VList [VDict item_one_a; VStr "n"; VDict item_one_b]]
       items_id_code
     = Ok [VDict [("id", VStr "1"); ("a", VStr "x"); ("b", VStr "y")]]
  /\ preserved (VDict item_one_a)
       (VDict [("id", VStr "1"); ("a", VStr "x"); ("b", VStr "y")]).
Proof.
  assert (H1 : _derive_identity_keys items_id_code = Ok ["id"; "code"]) by reflexivity.
  assert (H2 : Forall value_wf
                 (flattened [VList [VDict item_one_a; VStr "n"; VDict item_one_b]]))
    by (repeat (constructor; try nodup_keys)).
  assert (H3 : _merge_array_of_objects
                 [VList [VDict item_one_a; VStr "n"; VDict item_one_b]] items_id_code
               = Ok [VDict [("id", VStr "1"); ("a", VStr "x"); ("b", VStr "y")]])
    by reflexivity.
  split; [exact H1 |]. split; [exact H2 |]. split; [exact H3 |].
  destruct (merged_objects_keep_first _ items_id_code _ _ H1 H2 H3) as (_ & _ & Hall).
  inversion Hall as [| ? ? (pre & o & post & El & Hpre & _ & _ & Hp) _]; subst.
  destruct pre as [| x [| y pre]]; inversion El as [[E1 E2]]; subst;
    [exact Hp | | destruct pre; discriminate].
  exfalso. inversion Hpre as [| ? ? Hx _]; subst. now apply Hx.
Defined.

Lemma chunk_spans_chain_witness :
  long_text <> ""
  /\ chained long_text (Z.max 200 200) (Z.max 0 50)
       (Chunking.chunk_text_with_spans long_text 200 50 5).
Proof.
  assert (H : long_text <> "") by discriminate.
  split; [exact H |].
  exact (proj1 (chunk_spans_chain long_text 200 50 5 H)).
Defined.

Lemma chunk_text_coverage_witness :
  long_text <> "" /\ (Z.max 0 50 < Z.max 200 200)%Z
  /\ covered (Chunking.chunk_text_with_spans long_text 200 50 5) 299.
Proof.
  assert (H1 : long_text <> "") by discriminate.
  assert (H2 : (Z.max 0 50 < Z.max 200 200)%Z) by reflexivity.
  split; [exact H1 |]. split; [exact H2 |].
  apply (proj2 (chunk_text_coverage long_text 200 50 5 299 H1 H2)).
  split; [discriminate | reflexivity].
Defined.

Lemma chunk_text_no_progress_witness :
  (Z.max 200 200 <= Z.max 0 200)%Z /\ (Z.max 200 200 < Chunking.len long_text)%Z
  /\ Chunking.chunk_text_with_spans long_text 200 200 2
     = repeat (0%Z, 200%Z, Chunking.slice long_text 0 200) 2.
Proof.
  assert (H1 : (Z.max 200 200 <= Z.max 0 200)%Z) by discriminate.
  assert (H2 : (Z.max 200 200 < Chunking.len long_text)%Z) by reflexivity.
  split; [exact H1 |]. split; [exact H2 |].
  exact (proj1 (chunk_text_no_progress long_text 200 200 2 H1 H2)).
Defined.

Lemma schema_without_properties_witness :
  _schema_properties [("properties", VStr "none")] = []
  /\ aggregate_chunk_dicts [[("title", VStr "A")]] [("properties", VStr "none")]
       (VDict [("sha256", VStr "abc")]) (VStr "pdf") = Ok [].
Proof.
  assert (H : _schema_properties [("properties", VStr "none")] = []) by reflexivity.
  split; [exact H |].
  exact (proj1 (schema_without_properties _ _ _ _ H)).
Defined.
